(** * Error-code migration tools: a shallow embedding and its properties

    The repository holds two batch tools over a Java source tree:

    - [convert_exceptions.py] (the Rewriter) turns
      [throw new IllegalArgumentException(] and [BizException.badRequest(]
      into [BizException.failed(CODE, ...] with codes minted from a counter;
    - [fix_duplicate_biz_exception_codes.py] (the Resolver) indexes the
      numeric codes of a tree, finds the duplicated ones and reassigns them.

    Text is modelled as [list ascii]: one element per character, the
    character being a code point below 256; on these the character classes
    are those of Python's [re] and [str].  Characters from 256 up are
    outside the model: where a statement names a character class, it says
    what holds of the ASCII characters ([is_ascii], [wide]).  File systems,
    the directory listing and the clock are explicit arguments of the
    functions that use them. *)

From Stdlib Require Import ZArith Ascii String Lia DecimalN DecimalPos.
From stdpp Require Import base list gmap sets strings sorting.

Abbreviation text := (list ascii).

(** ** Python [str] operations *)

Module Text.

Definition str (s : string) : text := list_ascii_of_string s.
Arguments str _%_string : simpl never.

Definition code_of (c : ascii) : nat := nat_of_ascii c.

(** [str.isspace] / [\s] on code points below 256:
    TAB LF VT FF CR, FS GS RS US, the space, NEL and the no-break space. *)
Definition is_space (c : ascii) : bool :=
  let n := code_of c in
  ((9 <=? n) && (n <=? 13)) || ((28 <=? n) && (n <=? 32))
  || (n =? 133) || (n =? 160).

(** [\d] on code points below 256: the decimal digits, all of them ASCII. *)
Definition is_digit (c : ascii) : bool :=
  let n := code_of c in (48 <=? n) && (n <=? 57).

(** [\w] on code points below 256: the underscore and what
    [str.isalnum] accepts, that is the ASCII letters and digits and, above
    them, the letters, superscript digits and fractions of Latin-1. *)
Definition is_word (c : ascii) : bool :=
  let n := code_of c in
  is_digit c || ((65 <=? n) && (n <=? 90)) || ((97 <=? n) && (n <=? 122))
  || (n =? 95)
  || (n =? 170) || ((178 <=? n) && (n <=? 179)) || (n =? 181)
  || ((185 <=? n) && (n <=? 186)) || ((188 <=? n) && (n <=? 190))
  || ((192 <=? n) && (n <=? 214)) || ((216 <=? n) && (n <=? 246))
  || ((248 <=? n) && (n <=? 255)).

(** The ASCII characters *)
Definition is_ascii (c : ascii) : bool := code_of c <? 128.

(** A character of the class [p], or a character that is not ASCII: what a
    statement can say of a character that Python's class accepts, whatever
    the class does above the ASCII range. *)
Definition wide (p : ascii -> bool) (c : ascii) : bool := p c || negb (is_ascii c).

Definition ceqb (a b : ascii) : bool := Ascii.eqb a b.

(** [s.startswith(p)] *)
Fixpoint starts_with (p s : text) : bool :=
  match p, s with
  | [], _ => true
  | a :: p', b :: s' => ceqb a b && starts_with p' s'
  | _ :: _, [] => false
  end.

(** [p in s] *)
Fixpoint contains (p s : text) : bool :=
  starts_with p s ||
  match s with
  | [] => false
  | _ :: s' => contains p s'
  end.

(** [s.replace(old, new, 1)] *)
Fixpoint replace_first (old new s : text) : text :=
  if starts_with old s then new ++ drop (length old) s
  else match s with
       | [] => []
       | x :: s' => x :: replace_first old new s'
       end.

Definition LF : ascii := ascii_of_nat 10.
Definition CR : ascii := ascii_of_nat 13.

(** [s.split(sep)] for a one-character separator *)
Fixpoint split_char (sep : ascii) (s : text) : list text :=
  match s with
  | [] => [[]]
  | c :: s' =>
      if ceqb c sep then [] :: split_char sep s'
      else match split_char sep s' with
           | l :: ls => (c :: l) :: ls
           | [] => [[c]]
           end
  end.

(** [s.split('\n')] *)
Definition split_lines (s : text) : list text := split_char LF s.

(** ['\n'.join(lines)] *)
Fixpoint join_lines (ls : list text) : text :=
  match ls with
  | [] => []
  | [l] => l
  | l :: ls' => l ++ LF :: join_lines ls'
  end.

(** [s.strip()] *)
Fixpoint lstrip (s : text) : text :=
  match s with
  | c :: s' => if is_space c then lstrip s' else s
  | [] => []
  end.

Definition strip (s : text) : text := reverse (lstrip (reverse (lstrip s))).

(** [lines.insert(i, x)] *)
Definition list_insert_at {A} (i : nat) (x : A) (l : list A) : list A :=
  take i l ++ x :: drop i l.

(** Reading in text mode: [\r\n] and a lone [\r] arrive as [\n]. *)
Fixpoint universal_newlines (s : text) : text :=
  match s with
  | [] => []
  | c :: s' =>
      if ceqb c CR then
        match s' with
        | d :: _ => if ceqb d LF then universal_newlines s'
                    else LF :: universal_newlines s'
        | [] => [LF]
        end
      else c :: universal_newlines s'
  end.

(** [f.readlines()]: the lines of a text, each keeping its terminator. *)
Fixpoint keep_ends (s : text) : list text :=
  match s with
  | [] => []
  | c :: s' =>
      if ceqb c LF then [c] :: keep_ends s'
      else match keep_ends s' with
           | l :: ls => (c :: l) :: ls
           | [] => [[c]]
           end
  end.

Definition readlines (s : text) : list text := keep_ends (universal_newlines s).

(** [f.writelines(lines)] *)
Definition writelines (ls : list text) : text := concat ls.

(** *** Decimal formatting: [str(n)] and the [0Nd] format specifications *)

Fixpoint uint_chars (d : Decimal.uint) : text :=
  match d with
  | Decimal.Nil => []
  | Decimal.D0 d => "0"%char :: uint_chars d
  | Decimal.D1 d => "1"%char :: uint_chars d
  | Decimal.D2 d => "2"%char :: uint_chars d
  | Decimal.D3 d => "3"%char :: uint_chars d
  | Decimal.D4 d => "4"%char :: uint_chars d
  | Decimal.D5 d => "5"%char :: uint_chars d
  | Decimal.D6 d => "6"%char :: uint_chars d
  | Decimal.D7 d => "7"%char :: uint_chars d
  | Decimal.D8 d => "8"%char :: uint_chars d
  | Decimal.D9 d => "9"%char :: uint_chars d
  end.

Definition decimal (n : N) : text := uint_chars (N.to_uint n).

Definition zfill (w : nat) (s : text) : text :=
  replicate (w - length s) "0"%char ++ s.

(** [f"{z:0wd}"]: zero padding counts the sign. *)
Definition format_d (w : nat) (z : Z) : text :=
  if (z <? 0)%Z then "-"%char :: zfill (w - 1) (decimal (Z.abs_N z))
  else zfill w (decimal (Z.to_N z)).

(** *** Ordering of strings: code point by code point *)

Fixpoint lex_cmp {A} (cmp : A -> A -> comparison) (x y : list A) : comparison :=
  match x, y with
  | [], [] => Eq
  | [], _ :: _ => Lt
  | _ :: _, [] => Gt
  | a :: x', b :: y' =>
      match cmp a b with
      | Eq => lex_cmp cmp x' y'
      | c => c
      end
  end.

Definition char_cmp (a b : ascii) : comparison :=
  Nat.compare (code_of a) (code_of b).

Definition text_cmp : text -> text -> comparison := lex_cmp char_cmp.

Definition cmp_leb (c : comparison) : bool :=
  match c with Gt => false | _ => true end.

(** [sorted(l)]: a stable sort, here by insertion. *)
Fixpoint insert_by {A} (leb : A -> A -> bool) (x : A) (l : list A) : list A :=
  match l with
  | [] => [x]
  | y :: l' => if leb x y then x :: y :: l' else y :: insert_by leb x l'
  end.

Fixpoint sorted {A} (leb : A -> A -> bool) (l : list A) : list A :=
  match l with
  | [] => []
  | x :: l' => insert_by leb x (sorted leb l')
  end.

(** [enumerate(l, start)] *)
Fixpoint enumerate {A} (start : nat) (l : list A) : list (nat * A) :=
  match l with
  | [] => []
  | x :: l' => (start, x) :: enumerate (S start) l'
  end.

(** *** Occurrences of a literal in a text *)

(** Number of positions of [s] at which [q] starts. *)
Fixpoint count_at (q s : text) : nat :=
  match s with
  | [] => 0
  | _ :: s' => (if starts_with q s then 1 else 0) + count_at q s'
  end.

(** [x] and [y] disagree at a position that both have: neither can be laid
    over the head of the other. *)
Fixpoint clashb (x y : text) : bool :=
  match x, y with
  | a :: x', b :: y' => negb (ceqb a b) || clashb x' y'
  | _, _ => false
  end.

(** [x] fits at no offset inside [y] *)
Definition clash_inside (x y : text) : bool :=
  forallb (fun q => clashb x (drop q y)) (seq 0 (length y)).

(** [y] fits at no offset inside [x] *)
Definition clash_tails (x y : text) : bool :=
  forallb (fun m => clashb (drop m x) y) (seq 0 (length x)).

(** [x] overlaps no shifted copy of itself *)
Definition border_free (x : text) : bool :=
  forallb (fun m => clashb (drop m x) x) (seq 1 (length x - 1)).

(** The characters a generated code and the punctuation after it are
    made of. *)
Definition code_char (c : ascii) : bool :=
  is_digit c || ceqb c "-"%char || ceqb c "L"%char || ceqb c LF
  || ceqb c ","%char || ceqb c " "%char.

End Text.

Export Text.

(** ** The fragment of Python's [re] that the two tools use

    Every pattern of the sources is a sequence of literals, character
    classes under [*], [+] or [{n}], an optional literal, capture groups
    without nesting, and the anchors [^] and [$].  Matching is the
    backtracking search of [re]: quantifiers are greedy and give characters
    back one at a time. *)

Module Re.

Inductive cclass := Space | Digit | Word.

Definition cclass_mem (k : cclass) (c : ascii) : bool :=
  match k with
  | Space => is_space c
  | Digit => is_digit c
  | Word => is_word c
  end.

Inductive item :=
| Lit (c : ascii)          (* a literal character *)
| Star (k : cclass)        (* \k*  *)
| Plus (k : cclass)        (* \k+  *)
| Rep (n : nat) (k : cclass) (* \k{n} *)
| Opt (c : ascii)          (* c?   *)
| Open                     (* (    *)
| Close                    (* )    *)
| Bol                      (* ^    *)
| Eol.                     (* $    *)

Definition lits (s : string) : list item := map Lit (str s).
Arguments lits _%_string.

(** Captures: the group being read, and the groups already closed. *)
Record mstate := MState { cur : option text; caps : list text }.

Definition st0 : mstate := MState None [].

Definition consume (x : ascii) (st : mstate) : mstate :=
  MState ((fun t => t ++ [x]) <$> cur st) (caps st).

Definition result : Type := mstate * text.
Definition cont : Type := bool -> text -> mstate -> option result.

Fixpoint star_loop (k : cclass) (next : cont) (bos : bool) (s : text)
    (st : mstate) {struct s} : option result :=
  match s with
  | x :: s' =>
      if cclass_mem k x then
        match star_loop k next false s' (consume x st) with
        | Some r => Some r
        | None => next bos s st
        end
      else next bos s st
  | [] => next bos [] st
  end.

Fixpoint rep_loop (n : nat) (k : cclass) (next : cont) (bos : bool) (s : text)
    (st : mstate) {struct n} : option result :=
  match n with
  | O => next bos s st
  | S n' =>
      match s with
      | x :: s' =>
          if cclass_mem k x then rep_loop n' k next false s' (consume x st)
          else None
      | [] => None
      end
  end.

(** [rmatch pat bos s st]: match [pat] at the head of [s]; [bos] tells
    whether [s] is the whole subject.  The result is the capture state and
    the unread rest. *)
Fixpoint rmatch (pat : list item) : cont :=
  match pat with
  | [] => fun _ s st => Some (st, s)
  | Lit c :: pat' => fun _ s st =>
      match s with
      | x :: s' => if ceqb x c then rmatch pat' false s' (consume x st) else None
      | [] => None
      end
  | Star k :: pat' => star_loop k (rmatch pat')
  | Plus k :: pat' => fun _ s st =>
      match s with
      | x :: s' =>
          if cclass_mem k x
          then star_loop k (rmatch pat') false s' (consume x st)
          else None
      | [] => None
      end
  | Rep n k :: pat' => rep_loop n k (rmatch pat')
  | Opt c :: pat' => fun bos s st =>
      match s with
      | x :: s' =>
          if ceqb x c then
            match rmatch pat' false s' (consume x st) with
            | Some r => Some r
            | None => rmatch pat' bos s st
            end
          else rmatch pat' bos s st
      | [] => rmatch pat' bos [] st
      end
  | Open :: pat' => fun bos s st => rmatch pat' bos s (MState (Some []) (caps st))
  | Close :: pat' => fun bos s st =>
      rmatch pat' bos s (MState None (caps st ++ [default [] (cur st)]))
  | Bol :: pat' => fun bos s st => if bos then rmatch pat' bos s st else None
  | Eol :: pat' => fun bos s st =>
      match s with
      | [] => rmatch pat' bos s st
      | [x] => if ceqb x LF then rmatch pat' bos s st else None
      | _ => None
      end
  end.

(** A match at the head of [s]: its groups and the number of characters
    it spans. *)
Definition match_at (pat : list item) (bos : bool) (s : text)
  : option (list text * nat) :=
  match rmatch pat bos s st0 with
  | Some (st, rest) => Some (caps st, length s - length rest)
  | None => None
  end.

Definition match_len (pat : list item) (bos : bool) (s : text) : option nat :=
  snd <$> match_at pat bos s.

(** [re.match(pat, s)] as a truth value *)
Definition re_match (pat : list item) (s : text) : bool :=
  bool_decide (is_Some (match_at pat true s)).

(** [re.search(pat, s)] as a truth value *)
Fixpoint search_from (pat : list item) (bos : bool) (s : text) : bool :=
  match match_at pat bos s with
  | Some _ => true
  | None =>
      match s with
      | [] => false
      | _ :: s' => search_from pat false s'
      end
  end.

Definition re_search (pat : list item) (s : text) : bool := search_from pat true s.

(** The left-to-right scan shared by [findall] and [sub]: after a match of
    [n] characters the scan resumes [n] characters further.  [skip] counts
    the characters of the current match still to be passed over.  No
    pattern of the sources matches the empty string, so a match of length
    zero is not distinguished from no match. *)
Fixpoint scan (pat : list item) (s : text) (skip : nat) (bos : bool)
  : list (list text) :=
  match s with
  | [] => []
  | _ :: s' =>
      match skip with
      | S k => scan pat s' k false
      | O =>
          match match_at pat bos s with
          | Some (g, S n) => g :: scan pat s' n false
          | _ => scan pat s' 0 false
          end
      end
  end.

(** [pat.findall(s)]: the groups of every match, in order. *)
Definition findall (pat : list item) (s : text) : list (list text) :=
  scan pat s 0 true.

Section Sub.
Context {T : Type}.
(** [mt bos s]: length of the match at the head of [s], if any. *)
Variable mt : bool -> text -> option nat.
(** The replacement callback, with the state it closes over. *)
Variable repl : T -> text * T.

Fixpoint sub_go (s : text) (skip : nat) (bos : bool) (st : T) : text * T :=
  match s with
  | [] => ([], st)
  | x :: s' =>
      match skip with
      | S k => sub_go s' k false st
      | O =>
          match mt bos s with
          | Some (S n) =>
              let '(r, st1) := repl st in
              let '(o, st2) := sub_go s' n false st1 in
              (r ++ o, st2)
          | _ =>
              let '(o, st2) := sub_go s' 0 false st in
              (x :: o, st2)
          end
      end
  end.
End Sub.

(** How a text [Q] can lie against the matches and the replacements of a
    substitution. *)
Section Overlap.
Context {T : Type}.
Variable mt : bool -> text -> option nat.
Variable repl : T -> text * T.
Variable Q : text.

(** No replacement can be laid over a tail of [Q] (or over [Q]). *)
Definition repl_off_tails : Prop :=
  forall st m, m < length Q -> clashb (drop m Q) (fst (repl st)) = true.

(** [Q] starts at no offset inside a replacement. *)
Definition off_repl : Prop :=
  forall st q, q < length (fst (repl st)) ->
               clashb Q (drop q (fst (repl st))) = true.

(** [Q] starts at no offset inside a match. *)
Definition off_match : Prop :=
  forall s n m, mt false s = Some (S n) -> m <= n ->
                starts_with Q (drop m s) = false.

(** No match starts inside an occurrence of [Q]. *)
Definition match_off : Prop :=
  forall m r n, m < length Q -> mt false (drop m Q ++ r) <> Some (S n).
End Overlap.

(** [re.sub(pat, repl, s)] with a callback [repl] *)
Definition re_sub {T} (pat : list item) (repl : T -> text * T) (s : text) (st : T)
  : text * T :=
  sub_go (match_len pat) repl s 0 true st.

(** [re.subn(pat, r, s)] with a constant replacement [r] *)
Definition re_subn (pat : list item) (r : text) (s : text) : text * nat :=
  re_sub pat (fun n : nat => (r, S n)) s 0.

End Re.

(** ** The Rewriter: [convert_exceptions.py] *)

Module Rewriter.
Import Re.

Definition DEFAULT_DIRS : list text :=
  [str "cage-features"; str "user-features"; str "gaming-table-feature";
   str "common-shared"; str "shared-infrastructure"].

Definition BIZ_EXCEPTION_IMPORT : text :=
  str "import com.alliance.casino.common.exception.BizException;".

(** [Path] values order by their components. *)
Definition path_parts (p : text) : list text := split_char "/"%char p.

Definition path_cmp (p q : text) : comparison :=
  lex_cmp text_cmp (path_parts p) (path_parts q).

Definition path_leb (p q : text) : bool := cmp_leb (path_cmp p q).

(** The components that [pathlib] keeps of a directory name: it drops the
    empty ones (a doubled slash, a slash at the end) and the components
    [.]; it keeps [..]. *)
Definition dir_parts (dir_name : text) : list text :=
  filter (fun c => c <> [] /\ c <> str ".") (split_char "/"%char dir_name).

(** One more component after a path; the root already ends with the
    separator. *)
Definition path_child (p c : text) : text :=
  match last p with
  | Some x => if ceqb x "/"%char then p ++ c else p ++ str "/" ++ c
  | None => c
  end.

(** [base_path / dir_name] for a relative [dir_name].  An absolute
    [dir_name], which replaces [base_path], and a component [..], which
    the file system resolves, are outside the model: see [plain_dir]. *)
Definition joinpath (base_path dir_name : text) : text :=
  foldl path_child base_path (dir_parts dir_name).

Definition under_dir (dir file : text) : bool :=
  starts_with (path_child dir []) file.

(** [find_java_files]: [listing] is every path named [*.java] of the tree,
    in the order the directory walk reports them; [rglob] under a directory
    keeps those below it, and a directory that does not exist has none. *)
Definition find_java_files (listing : list text) (directories : list text)
    (base_path : text) : list text :=
  sorted path_leb
    (flat_map (fun dir_name =>
       filter (fun f => under_dir (joinpath base_path dir_name) f = true) listing)
       directories).

Definition has_biz_exception_import (content : text) : bool :=
  contains BIZ_EXCEPTION_IMPORT content
  || contains (str "import com.alliance.casino.common.exception.BizException;") content.

(** Index of the last element satisfying [p] *)
Fixpoint last_index {A} (p : A -> bool) (l : list A) (i : nat) (acc : option nat)
  : option nat :=
  match l with
  | [] => acc
  | x :: l' => last_index p l' (S i) (if p x then Some i else acc)
  end.

(** Index of the first element satisfying [p] *)
Fixpoint first_index {A} (p : A -> bool) (l : list A) (i : nat) : option nat :=
  match l with
  | [] => None
  | x :: l' => if p x then Some i else first_index p l' (S i)
  end.

Definition is_blank (l : text) : bool :=
  match strip l with [] => true | _ => false end.

(** [while insert_index < len(lines) and lines[insert_index].strip() == '']:
    [ls] is [lines[insert_index:]] *)
Fixpoint skip_blank (ls : list text) (insert_index : nat) : nat :=
  match ls with
  | l :: ls' => if is_blank l then skip_blank ls' (S insert_index) else insert_index
  | [] => insert_index
  end.

Definition insertion_index (lines : list text) : option nat :=
  match last_index (starts_with (str "import ")) lines 0 None with
  | Some last_import_index => Some (last_import_index + 1)
  | None =>
      match first_index (starts_with (str "package ")) lines 0 with
      | Some i => Some (skip_blank (drop (i + 1) lines) (i + 1))
      | None => None
      end
  end.

Definition add_import_if_needed (content : text) : text * bool :=
  if has_biz_exception_import content then (content, false)
  else
    let lines := split_lines content in
    match insertion_index lines with
    | Some insert_index =>
        (join_lines (list_insert_at insert_index BIZ_EXCEPTION_IMPORT lines), true)
    | None => (content, false)
    end.

(** [f"{date_prefix}{counter:05d}L"] *)
Definition make_code (date_prefix : text) (counter : Z) : text :=
  date_prefix ++ format_d 5 counter ++ str "L".

Definition THROW_PATTERN : list item := lits "throw new IllegalArgumentException(".
Definition BAD_REQUEST_PATTERN : list item := lits "BizException.badRequest(".
Definition JAVADOC_PATTERN : list item :=
  lits "@throws" ++ [Plus Space] ++ lits "IllegalArgumentException".

(** The two callbacks close over [counter] and [replacements]. *)
Definition throw_replace (date_prefix : text) (st : Z * nat) : text * (Z * nat) :=
  let '(counter, replacements) := st in
  let code := make_code date_prefix counter in
  (str "throw BizException.failed(" ++ code ++ str ",",
   ((counter + 1)%Z, S replacements)).

Definition bad_request_replace (date_prefix : text) (st : Z * nat)
  : text * (Z * nat) :=
  let '(counter, replacements) := st in
  let code := make_code date_prefix counter in
  (str "BizException.failed(" ++ code ++ str ", ",
   ((counter + 1)%Z, S replacements)).

Definition convert_illegal_argument_exception (content : text) (counter : Z)
    (date_prefix : text) : text * Z * nat :=
  let '(new_content, (counter, replacements)) :=
    re_sub THROW_PATTERN (throw_replace date_prefix) content (counter, 0) in
  (new_content, counter, replacements).

Definition convert_biz_exception_bad_request (content : text) (counter : Z)
    (date_prefix : text) : text * Z * nat :=
  let '(new_content, (counter, replacements)) :=
    re_sub BAD_REQUEST_PATTERN (bad_request_replace date_prefix) content (counter, 0) in
  (new_content, counter, replacements).

Definition update_javadoc_throws (content : text) : text * nat :=
  re_subn JAVADOC_PATTERN (str "@throws BizException") content.

Record stats := Stats {
  illegal_arg : nat;
  bad_request : nat;
  javadoc : nat;
  import_added : bool;
  modified : bool
}.

(** The three substitution steps of [process_file]: the text they leave,
    the counter, and the three counts. *)
Definition substitutions (content : text) (counter : Z) (date_prefix : text)
  : text * Z * nat * nat * nat :=
  let '(content, counter, illegal_count) :=
    convert_illegal_argument_exception content counter date_prefix in
  let '(content, counter, bad_request_count) :=
    convert_biz_exception_bad_request content counter date_prefix in
  let '(content, javadoc_count) := update_javadoc_throws content in
  (content, counter, illegal_count, bad_request_count, javadoc_count).

(** The text a file ends up with, the counter, and the statistics. *)
Definition process_content (content : text) (counter : Z) (date_prefix : text)
  : text * Z * stats :=
  let original_content := content in
  let '(content, counter, illegal_count, bad_request_count, javadoc_count) :=
    substitutions content counter date_prefix in
  let '(content, added) :=
    if (0 <? illegal_count) || (0 <? bad_request_count)
    then add_import_if_needed content
    else (content, false) in
  (content, counter,
   Stats illegal_count bad_request_count javadoc_count added
         (negb (bool_decide (content = original_content)))).

(** [process_file].  [fs] gives each file's text as [read_text] returns
    it; the result is [None] when the file cannot be read (the exception
    leaves [process_file]). *)
Definition process_file (fs : gmap text text) (filepath : text) (counter : Z)
    (date_prefix : text) (dry_run : bool) : option (gmap text text * Z * stats) :=
  match fs !! filepath with
  | None => None
  | Some content =>
      let '(new_content, counter, st) := process_content content counter date_prefix in
      let fs' := if modified st && negb dry_run
                 then <[filepath := new_content]> fs else fs in
      Some (fs', counter, st)
  end.

Record args := Args {
  date : text;
  dry_run : bool;
  dirs : list text;
  start_counter : Z
}.

Definition DATE_PATTERN : list item := [Bol; Rep 8 Digit; Eol].

Record totals := Totals {
  files_modified : nat;
  t_illegal_arg : nat;
  t_bad_request : nat;
  t_javadoc : nat;
  imports_added : nat
}.

Definition add_stats (t : totals) (st : stats) : totals :=
  if modified st then
    Totals (files_modified t + 1) (t_illegal_arg t + illegal_arg st)
           (t_bad_request t + bad_request st) (t_javadoc t + javadoc st)
           (if import_added st then imports_added t + 1 else imports_added t)
  else t.

(** The loop of [main] over the files found. *)
Fixpoint process_all (fs : gmap text text) (java_files : list text) (counter : Z)
    (date_prefix : text) (dry : bool) (t : totals)
  : option (gmap text text * Z * totals) :=
  match java_files with
  | [] => Some (fs, counter, t)
  | filepath :: rest =>
      match process_file fs filepath counter date_prefix dry with
      | None => None
      | Some (fs', counter', st) =>
          process_all fs' rest counter' date_prefix dry (add_stats t st)
      end
  end.

(** What a run leaves behind: the exit status, the file system and, when
    the files were processed, the counter and the totals.  [Crash] is an
    exception that escapes [main]. *)
Inductive outcome :=
| Exit (status : Z) (fs : gmap text text) (run : option (Z * totals))
| Crash.

Definition main (a : args) (base_path : text) (listing : list text)
    (fs : gmap text text) : outcome :=
  if negb (re_match DATE_PATTERN (date a)) then Exit 1 fs None
  else
    let date_prefix := date a in
    let counter := start_counter a in
    let java_files := find_java_files listing (dirs a) base_path in
    match process_all fs java_files counter date_prefix (dry_run a)
            (Totals 0 0 0 0 0) with
    | Some (fs', counter, t) => Exit 0 fs' (Some (counter, t))
    | None => Crash
    end.

(** *** Vocabulary of the properties *)

(** Places where the throw-style token starts *)
Definition throw_matches (content : text) : nat :=
  count_at (str "throw new IllegalArgumentException(") content.

(** Places where the bad-request token starts *)
Definition bad_request_matches (content : text) : nat :=
  count_at (str "BizException.badRequest(") content.


(** Some line starts with [import ] or with [package ]. *)
Definition has_insertion_point (content : text) : bool :=
  existsb (fun l => starts_with (str "import ") l || starts_with (str "package ") l)
          (split_lines content).

(** The directory names the model covers: relative, and without a
    component [..]. *)
Definition plain_dir (dir_name : text) : bool :=
  negb (starts_with (str "/") dir_name)
  && negb (bool_decide (str ".." ∈ dir_parts dir_name)).

End Rewriter.

(** ** The Resolver: [fix_duplicate_biz_exception_codes.py] *)

Module Resolver.
Import Re.

Record ErrorCodeLocation := Location {
  file_path : text;
  line_num : nat;
  line_content : text;
  constant_name : option text;
  is_constant_def : bool
}.

(** [r'private\s+static\s+final\s+long\s+(ERROR_\w+)\s*=\s*(\d+)L?\s*;'] *)
Definition constant_pattern : list item :=
  lits "private" ++ [Plus Space] ++ lits "static" ++ [Plus Space] ++
  lits "final" ++ [Plus Space] ++ lits "long" ++ [Plus Space] ++
  [Open] ++ lits "ERROR_" ++ [Plus Word; Close] ++
  [Star Space] ++ lits "=" ++ [Star Space] ++
  [Open; Plus Digit; Close] ++ [Opt "L"%char; Star Space] ++ lits ";".

(** [r'BizException\.failed\s*\(\s*(\d+)L?\s*,'] *)
Definition inline_pattern : list item :=
  lits "BizException.failed" ++ [Star Space] ++ lits "(" ++ [Star Space] ++
  [Open; Plus Digit; Close] ++ [Opt "L"%char; Star Space] ++ lits ",".

(** [r'BizException\.failed\s*\(\s*ERROR_'] *)
Definition error_ref_pattern : list item :=
  lits "BizException.failed" ++ [Star Space] ++ lits "(" ++ [Star Space] ++
  lits "ERROR_".

Definition target_dirs : list text :=
  [str "cage-features/src/main/java";
   str "gaming-table-feature/src/main/java";
   str "user-features/src/main/java";
   str "common-shared/src/main/java";
   str "login-feature/src/main/java";
   str "image-feature/src/main/java";
   str "shared-infrastructure/src/main/java"].

(** A [dict] keeps its keys in insertion order; [d[k].append(v)] on a
    [defaultdict(list)]. *)
Definition dict (V : Type) : Type := list (text * list V).

Fixpoint dict_append {V} (d : dict V) (k : text) (v : V) : dict V :=
  match d with
  | [] => [(k, [v])]
  | (k', vs) :: d' =>
      if decide (k = k') then (k', vs ++ [v]) :: d'
      else (k', vs) :: dict_append d' k v
  end.

Fixpoint dict_get {V} (d : dict V) (k : text) : list V :=
  match d with
  | [] => []
  | (k', vs) :: d' => if decide (k = k') then vs else dict_get d' k
  end.

Definition dict_keys {V} (d : dict V) : list text := map fst d.

(** [os.path.join(a, b)] for a relative [b] *)
Definition path_join (a b : text) : text :=
  match last a with
  | Some c => if ceqb c "/"%char then a ++ b else a ++ str "/" ++ b
  | None => b
  end.

(** The project on disk.  [listing] is what
    [glob(project_root/**/*.java, recursive=True)] returns, in its order;
    the glob under a directory of the project keeps the files below it.
    [store] holds the text of the files that can be read. *)
Record project := Project {
  listing : list text;
  store : gmap text text
}.

Definition glob_java (pr : project) (dir : text) : list text :=
  filter (fun f => starts_with (path_join dir []) f = true) (listing pr).

Definition java_files_of (pr : project) (project_root : text) : list text :=
  let java_files :=
    flat_map (fun target_dir => glob_java pr (path_join project_root target_dir))
             target_dirs in
  match java_files with
  | [] => listing pr
  | _ => java_files
  end.

(** The occurrences one line contributes, in the order they are appended. *)
Definition constant_occurrences (fp : text) (n : nat) (line : text)
  : list (text * ErrorCodeLocation) :=
  map (fun g =>
         let const_name := nth 0 g [] in
         let code := nth 1 g [] in
         (code, Location fp n (strip line) (Some const_name) true))
      (findall constant_pattern line).

Definition inline_occurrences (fp : text) (n : nat) (line : text)
  : list (text * ErrorCodeLocation) :=
  if contains (str "BizException.failed(") line then
    if negb (re_search error_ref_pattern line) then
      map (fun g => (nth 0 g [], Location fp n (strip line) None false))
          (findall inline_pattern line)
    else []
  else [].

Definition line_occurrences (fp : text) (n : nat) (line : text)
  : list (text * ErrorCodeLocation) :=
  constant_occurrences fp n line ++ inline_occurrences fp n line.

(** A file that cannot be read is skipped with a warning. *)
Definition file_occurrences (pr : project) (fp : text)
  : list (text * ErrorCodeLocation) :=
  match store pr !! fp with
  | None => []
  | Some content =>
      flat_map (fun '(n, line) => line_occurrences fp n line)
               (enumerate 1 (readlines content))
  end.

Definition record_all {V} (d : dict V) (occs : list (text * V)) : dict V :=
  foldl (fun d '(code, location) => dict_append d code location) d occs.

Definition find_all_error_codes (pr : project) (project_root : text)
  : dict ErrorCodeLocation :=
  foldl (fun code_locations fp => record_all code_locations (file_occurrences pr fp))
        [] (java_files_of pr project_root).

Definition find_duplicates (code_locations : dict ErrorCodeLocation)
  : dict ErrorCodeLocation :=
  filter (fun '(code, locations) => 1 < length locations) code_locations.

Definition get_all_existing_codes (code_locations : dict ErrorCodeLocation)
  : gset text :=
  list_to_set (dict_keys code_locations).

(** The [while True] loop of [generate_new_code], with [fuel] iterations. *)
Fixpoint generate_loop (fuel : nat) (existing_codes : gset text)
    (date_prefix : text) (counter : Z) : option text :=
  match fuel with
  | O => None
  | S fuel' =>
      let new_code := date_prefix ++ format_d 4 counter in
      if decide (new_code ∉ existing_codes) then Some new_code
      else
        let counter := (counter + 1)%Z in
        if (9999 <? counter)%Z then
          let new_code := date_prefix ++ format_d 6 counter in
          if decide (new_code ∉ existing_codes) then Some new_code
          else generate_loop fuel' existing_codes date_prefix counter
        else generate_loop fuel' existing_codes date_prefix counter
  end.

(** [date_prefix] is [base_date.strftime('%Y%m%d')].  One more iteration
    than there are known codes always reaches a free one
    ([generate_new_code_total]). *)
Definition generate_new_code (existing_codes : gset text) (date_prefix : text)
  : option text :=
  generate_loop (S (size existing_codes)) existing_codes date_prefix 1.

Record change := Change {
  c_file : text;
  c_line : nat;
  c_old : text;
  c_new : text;
  c_const : option text;
  c_is_def : bool;
  c_text : text
}.

Definition loc_leb (a b : ErrorCodeLocation) : bool :=
  match text_cmp (file_path a) (file_path b) with
  | Lt => true
  | Gt => false
  | Eq => line_num a <=? line_num b
  end.

(** The state of the first loop of [fix_duplicates]: the changes so far,
    [all_codes], and the number of calls made to [datetime.now()]. *)
Definition plan_state : Type := list change * gset text * nat.

(** [for location in sorted_locations[1:]]; [now k] is the date prefix the
    clock gives at its [k]-th reading.  [None] only if the generator does
    not return. *)
Fixpoint plan_locations (now : nat -> text) (code : text)
    (locs : list ErrorCodeLocation) (ps : plan_state) : option plan_state :=
  match locs with
  | [] => Some ps
  | location :: rest =>
      let '(changes, all_codes, k) := ps in
      match generate_new_code all_codes (now k) with
      | None => None
      | Some new_code =>
          plan_locations now code rest
            (changes ++ [Change (file_path location) (line_num location) code
                                new_code (constant_name location)
                                (is_constant_def location) (line_content location)],
             all_codes ∪ {[ new_code ]}, S k)
      end
  end.

(** [for code, locations in duplicates.items()] *)
Fixpoint plan_groups (now : nat -> text) (duplicates : dict ErrorCodeLocation)
    (ps : plan_state) : option plan_state :=
  match duplicates with
  | [] => Some ps
  | (code, locations) :: rest =>
      let sorted_locations := sorted loc_leb locations in
      match plan_locations now code (drop 1 sorted_locations) ps with
      | None => None
      | Some ps' => plan_groups now rest ps'
      end
  end.

Definition plan_changes (now : nat -> text) (duplicates : dict ErrorCodeLocation)
    (existing_codes : gset text) : option plan_state :=
  plan_groups now duplicates ([], existing_codes, 0).

Definition is_nonempty (o : option text) : bool :=
  match o with
  | Some (_ :: _) => true
  | _ => false
  end.

(** [lines[line_num - 1]]: the index -1 of a line number 0 names the last
    line. *)
Definition line_index (lines : list text) (line_num : nat) : nat :=
  match line_num with
  | O => length lines - 1
  | S i => i
  end.

(** One entry of [line_changes] applied to [lines]; [None] is the
    [IndexError] of [lines[idx]]. *)
Definition apply_line_change (lines : list text) (c : change) : option (list text) :=
  let idx := line_index lines (c_line c) in
  match lines !! idx with
  | None => None
  | Some original_line =>
      let new_line :=
        if c_is_def c && is_nonempty (c_const c) then
          replace_first (c_old c ++ str "L") (c_new c ++ str "L") original_line
        else
          let old_pattern := str "BizException.failed(" ++ c_old c ++ str "L," in
          let new_pattern := str "BizException.failed(" ++ c_new c ++ str "L," in
          if contains old_pattern original_line then
            replace_first old_pattern new_pattern original_line
          else
            replace_first (str "BizException.failed(" ++ c_old c ++ str ",")
                          (str "BizException.failed(" ++ c_new c ++ str "L,")
                          original_line in
      Some (<[idx := new_line]> lines)
  end.

Fixpoint apply_line_changes (lines : list text) (cs : list change)
  : option (list text) :=
  match cs with
  | [] => Some lines
  | c :: cs' =>
      match apply_line_change lines c with
      | None => None
      | Some lines' => apply_line_changes lines' cs'
      end
  end.

(** One file of [file_changes]: read, patch, write.  Any exception leaves
    the file as it was. *)
Definition patch_file (st : gmap text text) (fp : text) (cs : list change)
  : gmap text text :=
  match st !! fp with
  | None => st
  | Some content =>
      match apply_line_changes (readlines content) cs with
      | None => st
      | Some lines => <[fp := writelines lines]> st
      end
  end.

Definition group_by_file (changes : list change) : dict change :=
  record_all [] (map (fun c => (c_file c, c)) changes).

Definition fix_duplicates (now : nat -> text) (pr : project)
    (duplicates : dict ErrorCodeLocation) (existing_codes : gset text)
    (dry_run : bool) : option (list change * project) :=
  match plan_changes now duplicates existing_codes with
  | None => None
  | Some (changes, _, _) =>
      if dry_run then Some (changes, pr)
      else
        let file_changes := group_by_file changes in
        Some (changes,
              Project (listing pr)
                      (foldl (fun st '(fp, cs) => patch_file st fp cs)
                             (store pr) file_changes))
  end.

(** [print_report]: what the report shows.  The four figures of the
    summary; then, for each duplicated code in the order of
    [sorted(duplicates.items())], the number of its occurrences and the
    occurrences in index order, each with its marker and the preview of
    its line. *)
Record summary := Summary {
  total_codes : nat;
  total_locations : nat;
  constant_defs : nat;
  inline_calls : nat
}.

Definition report_summary (code_locations : dict ErrorCodeLocation) : summary :=
  let total_codes := length code_locations in
  let total_locations := sum_list (map (fun e => length e.2) code_locations) in
  let constant_defs :=
    length (filter (fun loc => is_constant_def loc = true)
                   (flat_map snd code_locations)) in
  let inline_calls := total_locations - constant_defs in
  Summary total_codes total_locations constant_defs inline_calls.

Inductive marker := Keep | Modify.

(** [loc.line_content[:80]], with an ellipsis after a longer line *)
Definition line_preview (loc : ErrorCodeLocation) : text :=
  let line_preview := take 80 (line_content loc) in
  if 80 <? length (line_content loc) then line_preview ++ str "..."
  else line_preview.

Definition report_group (locations : list ErrorCodeLocation)
  : list (marker * ErrorCodeLocation * text) :=
  map (fun '(i, loc) => (if i =? 0 then Keep else Modify, loc, line_preview loc))
      (enumerate 0 locations).

(** The items of a [dict] have distinct keys: the keys order them. *)
Definition item_leb (a b : text * list ErrorCodeLocation) : bool :=
  cmp_leb (text_cmp a.1 b.1).

Definition print_report (code_locations duplicates : dict ErrorCodeLocation)
  : summary * list (text * nat * list (marker * ErrorCodeLocation * text)) :=
  (report_summary code_locations,
   map (fun '(code, locations) => (code, length locations, report_group locations))
       (sorted item_leb duplicates)).

(** [main]: the exit status and the project the run leaves on disk. *)
Definition main (now : nat -> text) (fix_mode : bool) (project_root : text)
    (pr : project) : option (Z * project) :=
  let code_locations := find_all_error_codes pr project_root in
  let duplicates := find_duplicates code_locations in
  match duplicates with
  | [] => Some (0%Z, pr)
  | _ =>
      if fix_mode then
        let existing_codes := get_all_existing_codes code_locations in
        match fix_duplicates now pr duplicates existing_codes false with
        | None => None
        | Some (_, pr') => Some (1%Z, pr')
        end
      else Some (1%Z, pr)
  end.

(** *** Vocabulary of the properties *)

(** The occurrence a change record was made for *)
Definition change_location (c : change) : ErrorCodeLocation :=
  Location (c_file c) (c_line c) (c_text c) (c_const c) (c_is_def c).

(** The occurrences that a group of the report marks as to be modified,
    and those it marks as kept *)
Definition marked_modify (g : list (marker * ErrorCodeLocation * text))
  : list ErrorCodeLocation :=
  flat_map (fun '(m, loc, _) => match m with Modify => [loc] | Keep => [] end) g.

Definition marked_keep (g : list (marker * ErrorCodeLocation * text))
  : list ErrorCodeLocation :=
  flat_map (fun '(m, loc, _) => match m with Keep => [loc] | Modify => [] end) g.

(** Each new code of [added] is outside [known] and differs from the new
    codes before it. *)
Definition fresh_chain (known : gset text) (added : list change) : Prop :=
  forall pre c post,
    added = pre ++ c :: post ->
    c_new c ∉ known ∪ list_to_set (map c_new pre).

End Resolver.

(** * Properties *)

(** ** Strings *)

Module TextFacts.

Lemma ceqb_true a b : ceqb a b = true <-> a = b.
Proof. apply Ascii.eqb_eq. Qed.

Lemma ceqb_refl a : ceqb a a = true.
Proof. apply Ascii.eqb_refl. Qed.

Lemma ceqb_false a b : ceqb a b = false <-> a <> b.
Proof. apply Ascii.eqb_neq. Qed.

Lemma nonempty_cons {A} (l : list A) : l <> [] -> exists a l', l = a :: l'.
Proof. destruct l; [done|eauto]. Qed.

Lemma starts_with_app p r : starts_with p (p ++ r) = true.
Proof.
  induction p as [|a p IH]; simpl; [done|].
  by rewrite ceqb_refl, IH.
Qed.

Lemma wide_intro (p : ascii -> bool) c : p c = true -> wide p c = true.
Proof. unfold wide. by intros ->. Qed.

Lemma wide_all (p : ascii -> bool) s :
  Forall (fun c => p c = true) s -> Forall (fun c => wide p c = true) s.
Proof. intros H. eapply Forall_impl; [exact H|]. intros c. apply wide_intro. Qed.

(** On ASCII text the wide reading is the class itself. *)
Lemma wide_ascii (p : ascii -> bool) s :
  Forall (fun c => is_ascii c = true) s ->
  Forall (fun c => wide p c = true) s -> Forall (fun c => p c = true) s.
Proof.
  intros Ha Hw. apply Forall_forall. intros c Hc.
  rewrite Forall_forall in Ha, Hw. specialize (Ha c Hc). specialize (Hw c Hc).
  unfold wide in Hw. rewrite Ha in Hw. by rewrite orb_false_r in Hw.
Qed.


Lemma starts_with_refl p : starts_with p p = true.
Proof. rewrite <- (app_nil_r p) at 2. apply starts_with_app. Qed.

Lemma starts_with_inv p s :
  starts_with p s = true -> s = p ++ drop (length p) s.
Proof.
  revert s. induction p as [|a p IH]; intros [|b s] H; simpl in *; try done.
  apply andb_true_iff in H as [Hab Hp].
  apply ceqb_true in Hab as ->. f_equal. by apply IH.
Qed.

Lemma starts_with_iff p s : starts_with p s = true <-> exists r, s = p ++ r.
Proof.
  split.
  - intros H. eexists. by apply starts_with_inv.
  - intros [r ->]. apply starts_with_app.
Qed.

Lemma starts_with_nil p : p <> [] -> starts_with p [] = false.
Proof. by destruct p. Qed.

Lemma starts_with_long p s : length s < length p -> starts_with p s = false.
Proof.
  intros Hl. destruct (starts_with p s) eqn:E; [|done].
  apply starts_with_inv in E. rewrite E, length_app in Hl. lia.
Qed.

(** A prefix test only reads as many characters as the pattern has. *)
Lemma starts_with_app_fit p s r :
  length p <= length s -> starts_with p (s ++ r) = starts_with p s.
Proof.
  revert s. induction p as [|a p IH]; intros [|b s] Hl; simpl in *; try done; try lia.
  rewrite IH by lia. done.
Qed.

Lemma starts_with_cons_drop q m x s y :
  q !! m = Some x ->
  starts_with (drop m q) (y :: s) = ceqb x y && starts_with (drop (S m) q) s.
Proof. intros H. by rewrite (drop_S _ _ _ H). Qed.

Lemma clashb_sym x y : clashb x y = clashb y x.
Proof.
  revert y. induction x as [|a x IH]; intros [|b y]; simpl; try done.
  rewrite IH. f_equal. f_equal. unfold ceqb. apply Ascii.eqb_sym.
Qed.

Lemma clashb_app_r x y z : clashb x y = true -> clashb x (y ++ z) = true.
Proof.
  revert y. induction x as [|a x IH]; intros [|b y] H; simpl in *; try done.
  apply orb_true_iff in H as [H|H]; [by rewrite H|].
  rewrite (IH _ H). apply orb_true_r.
Qed.

Lemma clashb_app_l x y z : clashb x y = true -> clashb (x ++ z) y = true.
Proof. rewrite !(clashb_sym _ y). apply clashb_app_r. Qed.

Lemma clashb_starts x y : clashb x y = true -> starts_with x y = false.
Proof.
  revert y. induction x as [|a x IH]; intros [|b y] H; simpl in *; try done.
  apply orb_true_iff in H as [H|H].
  - apply negb_true_iff in H. by rewrite H.
  - rewrite (IH _ H). apply andb_false_r.
Qed.

(** [x] does not start [y ++ z] when it clashes with [y]. *)
Lemma clash_no_prefix x y z : clashb x y = true -> starts_with x (y ++ z) = false.
Proof. intros H. apply clashb_starts. by apply clashb_app_r. Qed.

(** [y] does not start [x ++ z] when [x] clashes with it. *)
Lemma clash_no_prefix' x y z : clashb x y = true -> starts_with y (x ++ z) = false.
Proof. intros H. apply clash_no_prefix. by rewrite clashb_sym. Qed.

Lemma forallb_seq_lt (f : nat -> bool) a n i :
  forallb f (seq a n) = true -> a <= i < a + n -> f i = true.
Proof.
  intros H Hi. rewrite forallb_forall in H. apply H. apply in_seq. lia.
Qed.

Lemma clash_inside_spec x y q :
  clash_inside x y = true -> q < length y -> clashb x (drop q y) = true.
Proof. intros H Hq. apply (forallb_seq_lt _ 0 (length y) q H). lia. Qed.

Lemma clash_tails_spec x y m :
  clash_tails x y = true -> m < length x -> clashb (drop m x) y = true.
Proof. intros H Hq. apply (forallb_seq_lt _ 0 (length x) m H). lia. Qed.

Lemma border_free_spec x m :
  border_free x = true -> 1 <= m < length x -> clashb (drop m x) x = true.
Proof. intros H Hq. apply (forallb_seq_lt _ 1 (length x - 1) m H). lia. Qed.

(** Offsets inside [a ++ t]: inside [a] the clash is found in [a]; inside
    [t] the first character already differs from that of [x]. *)
Lemma clash_inside_app x a t c0 :
  clash_inside x a = true ->
  head x = Some c0 ->
  Forall (fun c => c <> c0) t ->
  forall q, q < length (a ++ t) -> clashb x (drop q (a ++ t)) = true.
Proof.
  intros Ha Hx Ht q Hq.
  destruct (decide (q < length a)) as [Hlt|Hge].
  - rewrite drop_app_le by lia. apply clashb_app_r. by apply clash_inside_spec.
  - rewrite drop_app_ge by lia. rewrite length_app in Hq.
    destruct (drop (q - length a) t) as [|c t'] eqn:E.
    + apply (f_equal length) in E. rewrite length_drop in E. simpl in E. lia.
    + assert (c ∈ t) as Hc.
      { apply (list_elem_of_lookup_2 _ (q - length a)).
        rewrite <- (Nat.add_0_r (q - length a)), <- lookup_drop, E. done. }
      rewrite Forall_forall in Ht. specialize (Ht _ Hc).
      destruct x as [|x0 x]; simpl in Hx; [done|]. injection Hx as ->.
      simpl. apply orb_true_iff. left. apply negb_true_iff.
      apply ceqb_false. congruence.
Qed.

Lemma clash_inside_concat x a b :
  (forall q, q < length a -> clashb x (drop q a) = true) ->
  (forall q, q < length b -> clashb x (drop q b) = true) ->
  forall q, q < length (a ++ b) -> clashb x (drop q (a ++ b)) = true.
Proof.
  intros Ha Hb q Hq. rewrite length_app in Hq.
  destruct (decide (q < length a)) as [Hlt|Hge].
  - rewrite drop_app_le by lia. apply clashb_app_r. by apply Ha.
  - rewrite drop_app_ge by lia. apply Hb. lia.
Qed.

Lemma clash_inside_chars x t c0 :
  head x = Some c0 ->
  Forall (fun c => c <> c0) t ->
  forall q, q < length t -> clashb x (drop q t) = true.
Proof.
  intros Hx Ht q Hq. apply (clash_inside_app x [] t c0); done.
Qed.

Lemma contains_here p s : starts_with p s = true -> contains p s = true.
Proof. intros H. destruct s; simpl; by rewrite H. Qed.

Lemma contains_middle p x y : contains p (x ++ p ++ y) = true.
Proof.
  induction x as [|a x IH].
  - change ([] ++ p ++ y) with (p ++ y). apply contains_here, starts_with_app.
  - simpl. rewrite IH. apply orb_true_r.
Qed.

Lemma count_at_zero q s :
  q <> [] -> (count_at q s = 0 <-> contains q s = false).
Proof.
  intros Hq. induction s as [|a s IH]; simpl.
  - rewrite starts_with_nil by done. done.
  - destruct (starts_with q (a :: s)); simpl; [split; [lia|done]|].
    apply IH.
Qed.

Lemma contains_drop q s :
  q <> [] ->
  (contains q s = false <-> forall n, starts_with q (drop n s) = false).
Proof.
  intros Hq. induction s as [|a s IH]; simpl.
  - rewrite starts_with_nil by done. split; [|done].
    intros _ n. rewrite drop_nil. by apply starts_with_nil.
  - rewrite orb_false_iff, IH. split.
    + intros [H0 H] [|n]; [done|apply H].
    + intros H. split; [apply (H 0)|intros n; apply (H (S n))].
Qed.

End TextFacts.

(** ** The substitution scan *)

Module SubFacts.
Import Re TextFacts.

Section Generic.
Context {T : Type}.
Variable mt : bool -> text -> option nat.
Variable repl : T -> text * T.

(** The patterns handed to [re.sub] have no [^]: a match does not depend
    on where the subject starts; and a match lies within the text. *)
Hypothesis mt_bos : forall b s, mt b s = mt false s.
Hypothesis mt_fit : forall b s n, mt b s = Some n -> n <= length s.

Local Abbreviation go := (sub_go mt repl).

Lemma sub_go_bos s k b st : go s k b st = go s k false st.
Proof. destruct s, k; simpl; try done. by rewrite mt_bos. Qed.

Lemma sub_go_miss x s st :
  (forall n, mt false (x :: s) <> Some (S n)) ->
  go (x :: s) 0 false st = (x :: fst (go s 0 false st), snd (go s 0 false st)).
Proof.
  intros H. simpl.
  destruct (mt false (x :: s)) as [[|n]|] eqn:E;
    try (by destruct (go s 0 false st)).
  by destruct (H n).
Qed.

Lemma sub_go_hit x s st n :
  mt false (x :: s) = Some (S n) ->
  go (x :: s) 0 false st =
    (fst (repl st) ++ fst (go s n false (snd (repl st))),
     snd (go s n false (snd (repl st)))).
Proof.
  intros E. simpl. rewrite E. destruct (repl st) as [r st1]. simpl.
  by destruct (go s n false st1).
Qed.

Lemma sub_go_cases x s :
  (exists n, mt false (x :: s) = Some (S n)) \/
  (forall n, mt false (x :: s) <> Some (S n)).
Proof.
  destruct (mt false (x :: s)) as [[|n]|]; [right|left; eauto|right]; done.
Qed.

Lemma sub_go_skip_app u s st :
  go (u ++ s) (length u) false st = go s 0 false st.
Proof. induction u as [|a u IH]; simpl; [|done]. by destruct s. Qed.

Lemma sub_go_skip_all u st : go u (length u) false st = ([], st).
Proof.
  rewrite <- (app_nil_r u) at 1. by rewrite sub_go_skip_app.
Qed.

(** *** A prefix of the output was a prefix of the input *)

Section Tracking.
Variable Q : text.
Hypothesis Qne : 0 < length Q.

Local Abbreviation repl_off_tails := (repl_off_tails repl Q).
Local Abbreviation off_repl := (off_repl repl Q).
Local Abbreviation off_match := (off_match mt Q).
Local Abbreviation match_off := (match_off mt Q).

Lemma prefix_transfer :
  repl_off_tails ->
  forall s st m, m < length Q ->
    starts_with (drop m Q) (fst (go s 0 false st)) = true ->
    starts_with (drop m Q) s = true.
Proof.
  intros HQ. induction s as [|a s IH]; intros st m Hm H.
  - simpl in H. destruct (lookup_lt_is_Some_2 Q m Hm) as [x Hx].
    by rewrite (drop_S _ _ _ Hx) in H.
  - destruct (lookup_lt_is_Some_2 Q m Hm) as [x Hx].
    destruct (sub_go_cases a s) as [[n E]|E].
    + rewrite (sub_go_hit _ _ _ _ E) in H. simpl in H.
      by rewrite (clash_no_prefix _ _ _ (HQ st m Hm)) in H.
    + rewrite (sub_go_miss _ _ _ E) in H. simpl in H.
      rewrite (starts_with_cons_drop _ _ _ _ _ Hx) in H.
      rewrite (starts_with_cons_drop _ _ _ _ _ Hx).
      apply andb_true_iff in H as [H1 H2]. rewrite H1. simpl.
      destruct (decide (S m < length Q)) as [Hlt|Hge].
      * by apply (IH st).
      * by rewrite drop_ge by lia.
Qed.

Lemma prefix_survive :
  match_off ->
  forall s st m, m <= length Q ->
    starts_with (drop m Q) s = true ->
    starts_with (drop m Q) (fst (go s 0 false st)) = true.
Proof.
  intros HM. induction s as [|a s IH]; intros st m Hm H.
  - destruct (drop m Q); done.
  - destruct (decide (m < length Q)) as [Hlt|Hge];
      [|by rewrite drop_ge by lia].
    destruct (lookup_lt_is_Some_2 Q m Hlt) as [x Hx].
    rewrite sub_go_miss.
    + cbn [fst]. rewrite (starts_with_cons_drop _ _ _ _ _ Hx) in H.
      rewrite (starts_with_cons_drop _ _ _ _ _ Hx).
      apply andb_true_iff in H as [H1 H2]. rewrite H1. simpl.
      apply IH; [lia|done].
    + intros n. rewrite (starts_with_inv _ _ H). by apply HM.
Qed.

Lemma count_at_app_clash r o :
  (forall q, q < length r -> clashb Q (drop q r) = true) ->
  count_at Q (r ++ o) = count_at Q o.
Proof.
  induction r as [|a r IH]; intros H; [done|].
  change ((a :: r) ++ o) with (a :: (r ++ o)).
  cbn [count_at].
  change (a :: (r ++ o)) with ((a :: r) ++ o).
  rewrite (clash_no_prefix _ _ _ (H 0 ltac:(simpl; lia))).
  rewrite IH; [done|]. intros q Hq. apply (H (S q)). simpl. lia.
Qed.

(** The substitution neither creates nor destroys an occurrence of a
    text that cannot overlap its matches or its replacements. *)
Lemma count_preserved :
  repl_off_tails -> off_repl -> off_match -> match_off ->
  forall s k st,
    (forall m, m < k -> starts_with Q (drop m s) = false) ->
    count_at Q (fst (go s k false st)) = count_at Q s.
Proof.
  intros HQ HR HM1 HM2. induction s as [|a s IH]; intros k st Hk; [done|].
  destruct k as [|k].
  - destruct (sub_go_cases a s) as [[n E]|E].
    + rewrite (sub_go_hit _ _ _ _ E). cbn [fst count_at].
      rewrite (count_at_app_clash _ _ (HR st)).
      pose proof (HM1 _ _ 0 E ltac:(lia)) as H0. cbn [drop] in H0.
      rewrite H0. simpl.
      apply IH. intros m Hm. apply (HM1 _ _ (S m) E). lia.
    + pose proof (sub_go_miss _ _ st E) as Eo.
      assert (starts_with Q (fst (go (a :: s) 0 false st))
              = starts_with Q (a :: s)) as Hsame.
      { destruct (starts_with Q (a :: s)) eqn:E1.
        - apply (prefix_survive HM2 (a :: s) st 0); [lia|done].
        - destruct (starts_with Q (fst (go (a :: s) 0 false st))) eqn:E2; [|done].
          apply (prefix_transfer HQ (a :: s) st 0) in E2; [|done].
          change (drop 0 Q) with Q in E2. congruence. }
      rewrite Eo in *. cbn [fst] in *. cbn [count_at].
      rewrite Hsame. f_equal. apply IH. intros m Hm. lia.
  - cbn [sub_go count_at].
    pose proof (Hk 0 ltac:(lia)) as H0. cbn [drop] in H0. rewrite H0. simpl.
    apply IH. intros m Hm. apply (Hk (S m)). lia.
Qed.

(** When every occurrence of [Q] is a match, none is left. *)
Lemma no_occurrence_left :
  repl_off_tails -> off_repl ->
  (forall s, starts_with Q s = true -> exists n, mt false s = Some (S n)) ->
  forall s k st n, starts_with Q (drop n (fst (go s k false st))) = false.
Proof.
  intros HQ HR Hself. induction s as [|a s IH]; intros k st n.
  - simpl. rewrite drop_nil. apply starts_with_nil.
    intros HQe. pose proof Qne as Hq. rewrite HQe in Hq. simpl in Hq. lia.
  - destruct k as [|k]; [|apply IH].
    destruct (sub_go_cases a s) as [[len E]|E].
    + rewrite (sub_go_hit _ _ _ _ E). cbn [fst].
      destruct (decide (n < length (fst (repl st)))) as [Hlt|Hge].
      * rewrite drop_app_le by lia. apply clash_no_prefix. by apply HR.
      * rewrite drop_app_ge by lia. apply IH.
    + destruct n as [|n].
      * destruct (starts_with Q (drop 0 (fst (go (a :: s) 0 false st)))) eqn:E2;
          [|done].
        apply (prefix_transfer HQ (a :: s) st 0) in E2; [|done].
        destruct (Hself _ E2) as [len Hlen]. by destruct (E len).
      * rewrite (sub_go_miss _ _ _ E). cbn [fst drop]. apply IH.
Qed.
End Tracking.

(** *** Substituting in a concatenation *)

Lemma sub_go_split a b k st :
  k <= length a ->
  (forall i, i < length a -> mt false (drop i a ++ b) = mt false (drop i a)) ->
  go (a ++ b) k false st =
    (fst (go a k false st) ++ fst (go b 0 false (snd (go a k false st))),
     snd (go b 0 false (snd (go a k false st)))).
Proof.
  revert k st. induction a as [|x a IH]; intros k st Hk Hloc.
  - simpl in Hk. replace k with 0 by lia. simpl.
    by destruct (go b 0 false st).
  - assert (forall i, i < length a ->
              mt false (drop i a ++ b) = mt false (drop i a)) as Hloc'.
    { intros i Hi. apply (Hloc (S i)). simpl. lia. }
    destruct k as [|k].
    + pose proof (Hloc 0 ltac:(simpl; lia)) as H0. simpl in H0.
      destruct (sub_go_cases x a) as [[n E]|E].
      * assert (mt false (x :: a ++ b) = Some (S n)) as E' by congruence.
        change ((x :: a) ++ b) with (x :: (a ++ b)).
        rewrite (sub_go_hit _ _ _ _ E), (sub_go_hit _ _ _ _ E'). cbn [fst snd].
        apply mt_fit in E. simpl in E.
        rewrite IH by (done || lia). cbn [fst snd]. by rewrite app_assoc.
      * assert (forall n, mt false (x :: a ++ b) <> Some (S n)) as E'
          by (intros n; rewrite H0; apply E).
        change ((x :: a) ++ b) with (x :: (a ++ b)).
        rewrite (sub_go_miss _ _ _ E), (sub_go_miss _ _ _ E'). cbn [fst snd].
        rewrite IH by (done || lia). done.
    + change ((x :: a) ++ b) with (x :: (a ++ b)). cbn [sub_go].
      simpl in Hk. apply IH; [lia|done].
Qed.

Lemma sub_go_untouched s st :
  (forall i n, mt false (drop i s) <> Some (S n)) ->
  go s 0 false st = (s, st).
Proof.
  induction s as [|x s IH]; intros H; [done|].
  rewrite sub_go_miss by apply (H 0).
  rewrite IH; [done|]. intros i. apply (H (S i)).
Qed.
End Generic.

End SubFacts.

(** ** The matcher *)

Module ReFacts.
Import Re TextFacts.

Lemma rmatch_lits_ok P pat a b r st :
  rmatch (map Lit (a :: P) ++ pat) b ((a :: P) ++ r) st =
  rmatch pat false r (foldl (fun st x => consume x st) (consume a st) P).
Proof.
  revert a b st. induction P as [|c P IH]; intros a b st.
  - simpl. by rewrite ceqb_refl.
  - change (rmatch (Lit a :: (map Lit (c :: P) ++ pat)) b (a :: ((c :: P) ++ r)) st
            = rmatch pat false r
                (foldl (fun st x => consume x st) (consume c (consume a st)) P)).
    cbn [rmatch]. rewrite ceqb_refl. apply IH.
Qed.

Lemma rmatch_lits_fail P pat b s st :
  starts_with P s = false -> rmatch (map Lit P ++ pat) b s st = None.
Proof.
  revert b s st. induction P as [|a P IH]; intros b [|x s] st H; simpl in *; try done.
  unfold ceqb in *. rewrite Ascii.eqb_sym.
  destruct (Ascii.eqb a x); simpl in H; [by apply IH|done].
Qed.

(** A pattern made of literals matches exactly where its text starts. *)
Lemma match_len_lits P b s :
  P <> [] ->
  match_len (map Lit P) b s = if starts_with P s then Some (length P) else None.
Proof.
  intros HP. unfold match_len, match_at.
  destruct (starts_with P s) eqn:E.
  - apply starts_with_inv in E. destruct P as [|a P]; [done|].
    remember (drop (length (a :: P)) s) as r eqn:Hr. clear Hr. subst s.
    rewrite <- (app_nil_r (map Lit (a :: P))).
    rewrite rmatch_lits_ok. cbn [rmatch fmap option_fmap option_map snd].
    f_equal. rewrite length_app. lia.
  - rewrite <- (app_nil_r (map Lit P)). by rewrite rmatch_lits_fail.
Qed.

Lemma match_len_fit pat b s n : match_len pat b s = Some n -> n <= length s.
Proof.
  unfold match_len, match_at.
  destruct (rmatch pat b s st0) as [[st r]|]; simpl; [|done].
  intros [= <-]. lia.
Qed.

Lemma rep_loop_inv n k next b s st r :
  rep_loop n k next b s st = Some r ->
  exists u v b' st',
    s = u ++ v /\ length u = n /\ Forall (fun c => cclass_mem k c = true) u /\
    next b' v st' = Some r.
Proof.
  revert b s st. induction n as [|n IH]; intros b s st H; simpl in H.
  - exists [], s, b, st. done.
  - destruct s as [|x s]; [done|].
    destruct (cclass_mem k x) eqn:Ex; [|done].
    destruct (IH _ _ _ H) as (u & v & b' & st' & -> & Hl & Hu & Hn).
    exists (x :: u), v, b', st'. simpl. by rewrite Hl; repeat split; try constructor.
Qed.

Lemma star_loop_inv k next b s st r :
  star_loop k next b s st = Some r ->
  exists u v b',
    s = u ++ v /\ Forall (fun c => cclass_mem k c = true) u /\
    next b' v (foldl (fun st x => consume x st) st u) = Some r.
Proof.
  revert b st. induction s as [|x s IH]; intros b st H; simpl in H.
  - exists [], [], b. done.
  - destruct (cclass_mem k x) eqn:Ex.
    + destruct (star_loop k next false s (consume x st)) as [r'|] eqn:E.
      * injection H as ->.
        destruct (IH _ _ E) as (u & v & b' & -> & Hu & Hn).
        exists (x :: u), v, b'. repeat split; [by constructor|done].
      * exists [], (x :: s), b. done.
    + exists [], (x :: s), b. done.
Qed.

Lemma rmatch_lits_inv P pat b s st r :
  rmatch (map Lit P ++ pat) b s st = Some r ->
  exists v b',
    s = P ++ v /\
    rmatch pat b' v (foldl (fun st x => consume x st) st P) = Some r.
Proof.
  intros H. destruct (starts_with P s) eqn:E.
  - apply starts_with_inv in E. destruct P as [|a P].
    + exists s, b. done.
    + remember (drop (length (a :: P)) s) as v eqn:Hv. clear Hv. subst s.
      rewrite rmatch_lits_ok in H. exists v, false. done.
  - by rewrite rmatch_lits_fail in H.
Qed.

(** A pattern without [^] matches alike wherever the subject starts. *)
Lemma star_loop_bos k (next : cont) :
  (forall b s st, next b s st = next false s st) ->
  forall b s st, star_loop k next b s st = star_loop k next false s st.
Proof.
  intros Hn b s st. destruct s as [|x s]; simpl; [apply Hn|].
  by rewrite (Hn b).
Qed.

Lemma rep_loop_bos n k (next : cont) :
  (forall b s st, next b s st = next false s st) ->
  forall b s st, rep_loop n k next b s st = rep_loop n k next false s st.
Proof.
  intros Hn b s st. destruct n as [|n]; simpl; [apply Hn|done].
Qed.

Lemma rmatch_bos pat :
  Forall (fun i => i <> Bol) pat ->
  forall b s st, rmatch pat b s st = rmatch pat false s st.
Proof.
  induction pat as [|i pat IH]; intros Hp b s st; [done|].
  apply Forall_cons in Hp as [Hi Hp]. specialize (IH Hp).
  destruct i as [c|k|k|n k|c| | | |]; cbn [rmatch].
  - done.
  - by apply star_loop_bos.
  - done.
  - by apply rep_loop_bos.
  - destruct s as [|x s]; [apply IH|].
    destruct (ceqb x c); [|apply IH]. by rewrite (IH b).
  - apply IH.
  - apply IH.
  - done.
  - destruct s as [|x [|y s]]; [apply IH| |done].
    destruct (ceqb x LF); [apply IH|done].
Qed.

Lemma match_len_bos pat :
  Forall (fun i => i <> Bol) pat ->
  forall b s, match_len pat b s = match_len pat false s.
Proof.
  intros Hp b s. unfold match_len, match_at. by rewrite (rmatch_bos pat Hp b).
Qed.

End ReFacts.

(** ** Substituting a literal *)

Module LitFacts.
Import Re TextFacts ReFacts SubFacts.

Section Literal.
Context {T : Type}.
Variable P : text.
Variable repl : T -> text * T.
Hypothesis Pne : P <> [].

Local Abbreviation mt := (match_len (map Lit P)).
Local Abbreviation go := (sub_go mt repl).

Lemma lit_mt b s : mt b s = if starts_with P s then Some (length P) else None.
Proof. by apply match_len_lits. Qed.

Lemma lit_bos b s : mt b s = mt false s.
Proof. by rewrite !lit_mt. Qed.

Lemma lit_fit b s n : mt b s = Some n -> n <= length s.
Proof. apply match_len_fit. Qed.

Lemma lit_hit_iff s n : mt false s = Some (S n) <-> starts_with P s = true /\ S n = length P.
Proof.
  rewrite lit_mt. destruct (starts_with P s); split; try done.
  - intros [= H]. done.
  - intros [_ ->]. done.
  - intros [? _]. done.
Qed.

Lemma lit_self s : starts_with P s = true -> exists n, mt false s = Some (S n).
Proof.
  intros H. destruct (nonempty_cons P Pne) as (a & P' & EP).
  exists (length P'). apply lit_hit_iff. split; [done|]. by rewrite EP.
Qed.

Lemma lit_off_match Q : clash_tails P Q = true -> off_match mt Q.
Proof.
  intros HC s n m E Hm. apply lit_hit_iff in E as [E Hn].
  apply starts_with_inv in E. rewrite E. rewrite drop_app_le by lia.
  apply clash_no_prefix'. apply clash_tails_spec; [done|lia].
Qed.

Lemma lit_match_off Q : clash_tails Q P = true -> match_off mt Q.
Proof.
  intros HC m r n Hm E. apply lit_hit_iff in E as [E _].
  rewrite clash_no_prefix' in E; [done|]. by apply clash_tails_spec.
Qed.

(** Replacements that begin with a fixed text [A] and go on with
    characters that [Q] does not begin with. *)
Lemma shaped_off_tails Q A :
  clash_tails Q A = true ->
  (forall st, exists t, fst (repl st) = A ++ t) ->
  repl_off_tails repl Q.
Proof.
  intros HC Hsh st m Hm. destruct (Hsh st) as [t ->].
  apply clashb_app_r. by apply clash_tails_spec.
Qed.

Lemma shaped_off_repl Q A c0 :
  clash_inside Q A = true ->
  head Q = Some c0 ->
  (forall st, exists t, fst (repl st) = A ++ t /\ Forall (fun c => c <> c0) t) ->
  off_repl repl Q.
Proof.
  intros HC HQ Hsh st q Hq. destruct (Hsh st) as [t [E Ht]].
  rewrite E in *. by apply (clash_inside_app Q A t c0).
Qed.

(** If [P] starts a text whose first part is shorter than [P], the rest of
    [P] starts the second part. *)
Lemma starts_with_overhang w t :
  length w < length P ->
  starts_with P (w ++ t) = true ->
  starts_with (drop (length w) P) t = true.
Proof.
  intros Hl H. apply starts_with_inv in H.
  apply starts_with_iff. exists (drop (length P) (w ++ t)).
  apply (f_equal (drop (length w))) in H.
  rewrite drop_app_length in H. rewrite drop_app_le in H by lia. done.
Qed.

(** No match straddles the join of [a] and [b] when [P] cannot overhang
    [a] into [b]. *)
Lemma lit_local a b :
  (forall m, 1 <= m < length P -> starts_with (drop m P) b = false) ->
  forall i, i < length a -> mt false (drop i a ++ b) = mt false (drop i a).
Proof.
  intros Hb i Hi. rewrite !lit_mt.
  destruct (decide (length P <= length (drop i a))) as [Hfit|Hlong].
  - by rewrite starts_with_app_fit.
  - rewrite (starts_with_long P (drop i a)) by lia.
    destruct (starts_with P (drop i a ++ b)) eqn:E; [|done].
    apply starts_with_overhang in E; [|lia].
    rewrite Hb in E; [done|]. rewrite length_drop in *. lia.
Qed.

Lemma lit_local_pattern v :
  border_free P = true ->
  forall i, i < length P -> mt false (drop i P ++ v) = mt false (drop i P).
Proof.
  intros HB i Hi. rewrite !lit_mt. destruct i as [|i].
  - cbn [drop]. by rewrite starts_with_app, starts_with_refl.
  - assert (clashb (drop (S i) P) P = true) as HC
      by (apply border_free_spec; done || lia).
    rewrite (clash_no_prefix' _ _ v HC).
    rewrite clashb_sym in HC. by rewrite (clashb_starts _ _ HC).
Qed.

Lemma lit_sub_pattern st :
  go P 0 false st = (fst (repl st), snd (repl st)).
Proof.
  destruct (nonempty_cons P Pne) as (a & P' & EP).
  assert (mt false (a :: P') = Some (S (length P'))) as E.
  { rewrite <- EP. apply lit_hit_iff. rewrite <- (app_nil_r P) at 2.
    rewrite starts_with_app. by rewrite EP. }
  rewrite EP at 2.
  rewrite (sub_go_hit _ _ _ _ _ _ E).
  rewrite (sub_go_skip_all mt repl P'). simpl. by rewrite app_nil_r.
Qed.

(** An occurrence of the pattern is replaced, and what precedes and follows
    it is substituted on its own. *)
Lemma lit_split_self u v st :
  border_free P = true ->
  go (u ++ P ++ v) 0 false st =
    (fst (go u 0 false st)
       ++ fst (repl (snd (go u 0 false st)))
       ++ fst (go v 0 false (snd (repl (snd (go u 0 false st))))),
     snd (go v 0 false (snd (repl (snd (go u 0 false st)))))).
Proof.
  intros HB.
  rewrite (sub_go_split mt repl lit_fit u (P ++ v)); [|lia|].
  - rewrite (sub_go_split mt repl lit_fit P v); [|lia|].
    + rewrite lit_sub_pattern. cbn [fst snd]. done.
    + by apply lit_local_pattern.
  - apply lit_local. intros m Hm. apply clash_no_prefix.
    by apply border_free_spec.
Qed.

Lemma lit_untouched s st : contains P s = false -> go s 0 false st = (s, st).
Proof.
  intros H. apply sub_go_untouched. intros i n E.
  apply lit_hit_iff in E as [E _].
  rewrite (proj1 (contains_drop P s Pne) H i) in E. done.
Qed.

Lemma lit_no_self :
  repl_off_tails repl P -> off_repl repl P ->
  forall s st, contains P (fst (go s 0 false st)) = false.
Proof.
  intros HQ HR s st. apply contains_drop; [done|]. intros n.
  apply (no_occurrence_left mt repl P); try done.
  - destruct (nonempty_cons P Pne) as (a & P' & ->). simpl. lia.
  - apply lit_self.
Qed.

Lemma lit_count_preserved Q :
  Q <> [] ->
  repl_off_tails repl Q -> off_repl repl Q ->
  clash_tails P Q = true -> clash_tails Q P = true ->
  forall s st, count_at Q (fst (go s 0 false st)) = count_at Q s.
Proof.
  intros HQne HQ HR HPQ HQP s st.
  apply (count_preserved mt repl Q); try done.
  - destruct (nonempty_cons Q HQne) as (a & Q' & ->). simpl. lia.
  - by apply lit_off_match.
  - by apply lit_match_off.
  - intros m Hm. lia.
Qed.
End Literal.

End LitFacts.


(** ** The Rewriter *)

Module RewriterFacts.
Import Re Rewriter TextFacts ReFacts SubFacts LitFacts.

Local Abbreviation P1 := (str "throw new IllegalArgumentException(").
Local Abbreviation P2 := (str "BizException.badRequest(").
Local Abbreviation A1 := (str "throw BizException.failed(").
Local Abbreviation A2 := (str "BizException.failed(").

(** *** The characters of a generated code *)

Lemma uint_chars_digits d : Forall (fun c => is_digit c = true) (uint_chars d).
Proof. induction d; simpl; constructor; done. Qed.

Lemma digit_code_char c : is_digit c = true -> code_char c = true.
Proof. intros H. unfold code_char. by rewrite H. Qed.

Lemma format_d_chars w z : Forall (fun c => code_char c = true) (format_d w z).
Proof.
  assert (forall n, Forall (fun c => code_char c = true) (decimal n)) as Hd.
  { intros n. eapply Forall_impl; [apply uint_chars_digits|].
    intros c. apply digit_code_char. }
  unfold format_d, zfill. destruct (z <? 0)%Z.
  - constructor; [done|]. apply Forall_app. split; [|apply Hd].
    by apply Forall_replicate.
  - apply Forall_app. split; [|apply Hd]. by apply Forall_replicate.
Qed.

Lemma code_char_neq c c0 : code_char c = true -> code_char c0 = false -> c <> c0.
Proof. congruence. Qed.

(** A date that passes the check of [main] is made of digits, with at most
    a line feed after them. *)
Lemma valid_date_chars d :
  re_match DATE_PATTERN d = true -> Forall (fun c => code_char c = true) d.
Proof.
  unfold re_match, match_at. intros H. apply bool_decide_eq_true in H.
  destruct (rmatch DATE_PATTERN true d st0) as [r|] eqn:E;
    [|by destruct H as [? [=]]].
  clear H. cbn [DATE_PATTERN rmatch] in E.
  apply rep_loop_inv in E as (u & v & b' & st' & -> & _ & Hu & Hv).
  apply Forall_app. split.
  - eapply Forall_impl; [exact Hu|]. intros c. apply digit_code_char.
  - destruct v as [|x [|y v]]; [done| |done].
    destruct (ceqb x LF) eqn:Ex; [|done].
    apply ceqb_true in Ex as ->. by constructor.
Qed.

Lemma make_code_chars d counter :
  Forall (fun c => code_char c = true) d ->
  Forall (fun c => code_char c = true) (make_code d counter).
Proof.
  intros Hd. unfold make_code. rewrite !Forall_app. repeat split; try done.
  - apply format_d_chars.
  - by constructor.
Qed.

(** *** Substitutions that mint a code per match *)

Section Minting.
Variables (P A B d : text).
Variable repl : Z * nat -> text * (Z * nat).
Hypothesis Pne : P <> [].
Hypothesis Pbf : border_free P = true.
Hypothesis Hrepl :
  forall c n, repl (c, n) = (A ++ make_code d c ++ B, ((c + 1)%Z, S n)).

Local Abbreviation mt := (match_len (map Lit P)).
Local Abbreviation go := (sub_go mt repl).

Lemma mint_after_hit a s n :
  mt false (a :: s) = Some (S n) ->
  forall m, m < n -> starts_with P (drop m s) = false.
Proof.
  intros E m Hm. apply (lit_hit_iff P Pne) in E as [E Hn].
  apply starts_with_inv in E.
  change (drop m s) with (drop (S m) (a :: s)). rewrite E.
  rewrite drop_app_le by lia. apply clash_no_prefix'.
  apply border_free_spec; [done|lia].
Qed.

(** The counter and the number of replacements both advance by the number
    of places where the pattern starts. *)
Lemma mint_counts s : forall k c n,
  (forall m, m < k -> starts_with P (drop m s) = false) ->
  snd (go s k false (c, n)) =
    ((c + Z.of_nat (count_at P s))%Z, n + count_at P s).
Proof.
  induction s as [|a s IH]; intros k c n Hk.
  - simpl. f_equal; lia.
  - destruct k as [|k].
    + destruct (sub_go_cases mt a s) as [[len E]|E].
      * rewrite (sub_go_hit _ _ _ _ _ _ E), Hrepl. cbn [fst snd].
        rewrite (IH len) by (by apply (mint_after_hit a)).
        apply (lit_hit_iff P Pne) in E as [E _].
        cbn [count_at]. rewrite E. f_equal; lia.
      * rewrite (sub_go_miss _ _ _ _ _ E). cbn [fst snd].
        rewrite (IH 0) by (intros; lia).
        assert (starts_with P (a :: s) = false) as E'.
        { destruct (starts_with P (a :: s)) eqn:E1; [|done].
          destruct (lit_self P Pne _ E1) as [len Hlen]. by destruct (E len). }
        cbn [count_at]. rewrite E'. done.
    + cbn [sub_go]. rewrite (IH k) by (intros m Hm; apply (Hk (S m)); lia).
      pose proof (Hk 0 ltac:(lia)) as H0. cbn [drop] in H0.
      cbn [count_at]. rewrite H0. done.
Qed.

(** The text produced does not depend on the replacement count. *)
Lemma mint_text_count s : forall k c n n',
  fst (go s k false (c, n)) = fst (go s k false (c, n')).
Proof.
  induction s as [|a s IH]; intros k c n n'; [done|].
  destruct k as [|k]; [|apply IH].
  destruct (sub_go_cases mt a s) as [[len E]|E].
  - rewrite !(sub_go_hit _ _ _ _ _ _ E), !Hrepl. cbn [fst snd].
    f_equal. apply IH.
  - rewrite !(sub_go_miss _ _ _ _ _ E). cbn [fst]. f_equal. apply IH.
Qed.

(** The occurrence that follows [u] gets the counter advanced by the
    number of occurrences in [u]. *)
Lemma mint_split_gen u v st :
  go (u ++ P ++ v) 0 false st =
    (fst (go u 0 false st)
       ++ fst (repl (snd (go u 0 false st)))
       ++ fst (go v 0 false (snd (repl (snd (go u 0 false st))))),
     snd (go v 0 false (snd (repl (snd (go u 0 false st)))))).
Proof. by apply lit_split_self. Qed.

Lemma mint_count_split u v :
  count_at P (u ++ P ++ v) = count_at P u + 1 + count_at P v.
Proof.
  pose proof (mint_counts (u ++ P ++ v) 0 0 0 ltac:(intros; lia)) as H.
  rewrite mint_split_gen in H. cbn [snd] in H.
  rewrite (mint_counts u 0 0 0) in H by (intros; lia).
  rewrite Hrepl in H. cbn [snd] in H.
  rewrite (mint_counts v 0) in H by (intros; lia).
  injection H as _ H. lia.
Qed.

Lemma mint_split u v c :
  go (u ++ P ++ v) 0 false (c, 0) =
    (fst (go u 0 false (c, 0))
       ++ (A ++ make_code d (c + Z.of_nat (count_at P u)) ++ B)
       ++ fst (go v 0 false ((c + Z.of_nat (count_at P u) + 1)%Z, 0)),
     ((c + Z.of_nat (count_at P u) + 1 + Z.of_nat (count_at P v))%Z,
      count_at P u + 1 + count_at P v)).
Proof.
  rewrite (lit_split_self P repl Pne u v (c, 0) Pbf).
  rewrite (mint_counts u 0 c 0) by (intros; lia).
  rewrite Hrepl. cbn [fst snd].
  rewrite (mint_counts v 0) by (intros; lia).
  f_equal; [|f_equal; lia].
  f_equal. f_equal. apply mint_text_count.
Qed.
End Minting.

Lemma P1_bf : border_free P1 = true.
Proof. vm_compute. reflexivity. Qed.

Lemma P2_bf : border_free P2 = true.
Proof. vm_compute. reflexivity. Qed.

Lemma throw_replace_eq d c n :
  throw_replace d (c, n) = (A1 ++ make_code d c ++ str ",", ((c + 1)%Z, S n)).
Proof. reflexivity. Qed.

Lemma bad_request_replace_eq d c n :
  bad_request_replace d (c, n) = (A2 ++ make_code d c ++ str ", ", ((c + 1)%Z, S n)).
Proof. reflexivity. Qed.

Lemma convert_throw_eq s c d :
  convert_illegal_argument_exception s c d =
    (fst (sub_go (match_len (map Lit P1)) (throw_replace d) s 0 false (c, 0)),
     (c + Z.of_nat (count_at P1 s))%Z, count_at P1 s).
Proof.
  unfold convert_illegal_argument_exception, re_sub, THROW_PATTERN, lits.
  rewrite (sub_go_bos _ _ (lit_bos P1 ltac:(done))).
  pose proof (mint_counts P1 A1 (str ",") d (throw_replace d) ltac:(done) P1_bf
                (throw_replace_eq d) s 0 c 0 ltac:(intros; lia)) as H.
  destruct (sub_go _ _ s 0 false (c, 0)) as [t [c' n']]. simpl in H.
  by injection H as -> ->.
Qed.

Lemma convert_bad_eq s c d :
  convert_biz_exception_bad_request s c d =
    (fst (sub_go (match_len (map Lit P2)) (bad_request_replace d) s 0 false (c, 0)),
     (c + Z.of_nat (count_at P2 s))%Z, count_at P2 s).
Proof.
  unfold convert_biz_exception_bad_request, re_sub, BAD_REQUEST_PATTERN, lits.
  rewrite (sub_go_bos _ _ (lit_bos P2 ltac:(done))).
  pose proof (mint_counts P2 A2 (str ", ") d (bad_request_replace d) ltac:(done) P2_bf
                (bad_request_replace_eq d) s 0 c 0 ltac:(intros; lia)) as H.
  destruct (sub_go _ _ s 0 false (c, 0)) as [t [c' n']]. simpl in H.
  by injection H as -> ->.
Qed.

Lemma throw_shape d c0 :
  Forall (fun c => code_char c = true) d -> code_char c0 = false ->
  forall st, exists t,
    fst (throw_replace d st) = A1 ++ t /\ Forall (fun c => c <> c0) t.
Proof.
  intros Hd Hc0 [c n]. exists (make_code d c ++ str ","). split; [done|].
  eapply Forall_impl; [|intros x Hx; exact (code_char_neq x c0 Hx Hc0)].
  apply Forall_app. split; [by apply make_code_chars|by constructor].
Qed.

Lemma bad_shape d c0 :
  Forall (fun c => code_char c = true) d -> code_char c0 = false ->
  forall st, exists t,
    fst (bad_request_replace d st) = A2 ++ t /\ Forall (fun c => c <> c0) t.
Proof.
  intros Hd Hc0 [c n]. exists (make_code d c ++ str ", "). split; [done|].
  eapply Forall_impl; [|intros x Hx; exact (code_char_neq x c0 Hx Hc0)].
  apply Forall_app. split; [by apply make_code_chars|by repeat constructor].
Qed.

(** A text that clashes with the fixed head of the replacements, and does
    not begin like a code, lies clear of every replacement. *)
Lemma throw_clear d Q c0 :
  Forall (fun c => code_char c = true) d ->
  clash_tails Q A1 = true -> clash_inside Q A1 = true ->
  head Q = Some c0 -> code_char c0 = false ->
  repl_off_tails (throw_replace d) Q /\ off_repl (throw_replace d) Q.
Proof.
  intros Hd H1 H2 Hh Hc0. split.
  - apply (shaped_off_tails _ Q A1 H1). intros st.
    destruct (throw_shape d c0 Hd Hc0 st) as [t [E _]]. eauto.
  - apply (shaped_off_repl _ Q A1 c0 H2 Hh). by apply throw_shape.
Qed.

Lemma bad_clear d Q c0 :
  Forall (fun c => code_char c = true) d ->
  clash_tails Q A2 = true -> clash_inside Q A2 = true ->
  head Q = Some c0 -> code_char c0 = false ->
  repl_off_tails (bad_request_replace d) Q /\ off_repl (bad_request_replace d) Q.
Proof.
  intros Hd H1 H2 Hh Hc0. split.
  - apply (shaped_off_tails _ Q A2 H1). intros st.
    destruct (bad_shape d c0 Hd Hc0 st) as [t [E _]]. eauto.
  - apply (shaped_off_repl _ Q A2 c0 H2 Hh). by apply bad_shape.
Qed.

Lemma count_zero_untouched P s :
  P <> [] -> (contains P s = false <-> count_at P s = 0).
Proof. intros HP. symmetry. by apply count_at_zero. Qed.

(** The throw conversion leaves no throw-style token. *)
Lemma throw_output_clean d s st :
  Forall (fun c => code_char c = true) d ->
  contains P1 (fst (sub_go (match_len (map Lit P1)) (throw_replace d) s 0 false st))
  = false.
Proof.
  intros Hd.
  destruct (throw_clear d P1 "t"%char Hd) as [H1 H2]; try (vm_compute; reflexivity).
  by apply lit_no_self.
Qed.

(** The bad-request conversion leaves no bad-request token. *)
Lemma bad_output_clean d s st :
  Forall (fun c => code_char c = true) d ->
  contains P2 (fst (sub_go (match_len (map Lit P2)) (bad_request_replace d) s 0 false st))
  = false.
Proof.
  intros Hd.
  destruct (bad_clear d P2 "B"%char Hd) as [H1 H2]; try (vm_compute; reflexivity).
  by apply lit_no_self.
Qed.

(** The bad-request conversion creates and removes no throw-style token. *)
Lemma bad_keeps_throw_count d s st :
  Forall (fun c => code_char c = true) d ->
  count_at P1 (fst (sub_go (match_len (map Lit P2)) (bad_request_replace d) s 0 false st))
  = count_at P1 s.
Proof.
  intros Hd.
  destruct (bad_clear d P1 "t"%char Hd) as [H1 H2]; try (vm_compute; reflexivity).
  apply lit_count_preserved; try done; vm_compute; reflexivity.
Qed.

(** The throw conversion creates and removes no bad-request token. *)
Lemma throw_keeps_bad_count d s st :
  Forall (fun c => code_char c = true) d ->
  count_at P2 (fst (sub_go (match_len (map Lit P1)) (throw_replace d) s 0 false st))
  = count_at P2 s.
Proof.
  intros Hd.
  destruct (throw_clear d P2 "B"%char Hd) as [H1 H2]; try (vm_compute; reflexivity).
  apply lit_count_preserved; try done; vm_compute; reflexivity.
Qed.

Lemma convert_throw_clean s c d :
  contains P1 s = false -> convert_illegal_argument_exception s c d = (s, c, 0).
Proof.
  intros H. rewrite convert_throw_eq.
  rewrite (lit_untouched P1 _ ltac:(done) s _ H).
  apply count_zero_untouched in H; [|done]. rewrite H. cbn [fst]. f_equal. f_equal. lia.
Qed.

Lemma convert_bad_clean s c d :
  contains P2 s = false -> convert_biz_exception_bad_request s c d = (s, c, 0).
Proof.
  intros H. rewrite convert_bad_eq.
  rewrite (lit_untouched P2 _ ltac:(done) s _ H).
  apply count_zero_untouched in H; [|done]. rewrite H. cbn [fst]. f_equal. f_equal. lia.
Qed.

(** C8 (as amended): every occurrence of the literal opening token
    [throw new IllegalArgumentException(] is replaced by exactly
    [throw BizException.failed(CODE,], and every occurrence of the literal
    [BizException.badRequest(] by exactly [BizException.failed(CODE, ] with
    one space after the comma; CODE is the code minted at the counter the
    text before the occurrence leaves, and the text before and after the
    occurrence is converted on its own. *)
Theorem literal_token_replaced (u v : text) (counter : Z) (d : text) :
  (let '(tu, cu, nu) := convert_illegal_argument_exception u counter d in
   let '(tv, cv, nv) := convert_illegal_argument_exception v (cu + 1) d in
   convert_illegal_argument_exception
     (u ++ str "throw new IllegalArgumentException(" ++ v) counter d
   = (tu ++ str "throw BizException.failed(" ++ make_code d cu ++ str "," ++ tv,
      cv, nu + 1 + nv))
  /\
  (let '(tu, cu, nu) := convert_biz_exception_bad_request u counter d in
   let '(tv, cv, nv) := convert_biz_exception_bad_request v (cu + 1) d in
   convert_biz_exception_bad_request
     (u ++ str "BizException.badRequest(" ++ v) counter d
   = (tu ++ str "BizException.failed(" ++ make_code d cu ++ str ", " ++ tv,
      cv, nu + 1 + nv)).
Proof.
  split.
  - rewrite !convert_throw_eq. cbv beta iota.
    rewrite (mint_count_split P1 A1 (str ",") d (throw_replace d) ltac:(done) P1_bf
               (throw_replace_eq d)).
    rewrite (mint_split P1 A1 (str ",") d (throw_replace d) ltac:(done) P1_bf
               (throw_replace_eq d) u v counter). cbn [fst].
    rewrite <- !app_assoc. f_equal. f_equal. lia.
  - rewrite !convert_bad_eq. cbv beta iota.
    rewrite (mint_count_split P2 A2 (str ", ") d (bad_request_replace d) ltac:(done) P2_bf
               (bad_request_replace_eq d)).
    rewrite (mint_split P2 A2 (str ", ") d (bad_request_replace d) ltac:(done) P2_bf
               (bad_request_replace_eq d) u v counter). cbn [fst].
    rewrite <- !app_assoc. f_equal. f_equal. lia.
Qed.

(** C8 as stated fails: with a space before the parenthesis, or two spaces
    after [throw], the opening token is left as it is and no code is
    minted. *)
Lemma whitespace_variant_not_replaced :
  convert_illegal_argument_exception
    (str "throw new IllegalArgumentException (msg);") 1 (str "20251218")
  = (str "throw new IllegalArgumentException (msg);", 1%Z, 0)
  /\
  convert_illegal_argument_exception
    (str "throw  new IllegalArgumentException(msg);") 1 (str "20251218")
  = (str "throw  new IllegalArgumentException(msg);", 1%Z, 0)
  /\
  convert_biz_exception_bad_request
    (str "throw BizException.badRequest (msg);") 1 (str "20251218")
  = (str "throw BizException.badRequest (msg);", 1%Z, 0).
Proof. vm_compute. done. Qed.

(** C5: with a date that passed the check of [main], the text that the
    throw conversion followed by the bad-request conversion produces
    contains neither originating pattern; applying both conversions to it
    again substitutes nothing and returns the counter unchanged. *)
Theorem second_application_substitutes_nothing
    (content : text) (counter : Z) (d : text) :
  re_match DATE_PATTERN d = true ->
  forall c1 k1 n1 c2 k2 n2,
    convert_illegal_argument_exception content counter d = (c1, k1, n1) ->
    convert_biz_exception_bad_request c1 k1 d = (c2, k2, n2) ->
    contains (str "throw new IllegalArgumentException(") c2 = false /\
    contains (str "BizException.badRequest(") c2 = false /\
    forall k d',
      convert_illegal_argument_exception c2 k d' = (c2, k, 0) /\
      convert_biz_exception_bad_request c2 k d' = (c2, k, 0).
Proof.
  intros Hd c1 k1 n1 c2 k2 n2 E1 E2.
  apply valid_date_chars in Hd.
  rewrite convert_throw_eq in E1. rewrite convert_bad_eq in E2.
  injection E1 as <- _ _. injection E2 as <- _ _.
  assert (contains P1
            (fst (sub_go (match_len (map Lit P2)) (bad_request_replace d)
                    (fst (sub_go (match_len (map Lit P1)) (throw_replace d)
                            content 0 false (counter, 0))) 0 false (k1, 0)))
          = false) as HP1.
  { apply count_zero_untouched; [done|].
    rewrite bad_keeps_throw_count by done.
    apply count_zero_untouched; [done|]. by apply throw_output_clean. }
  pose proof (bad_output_clean d
                (fst (sub_go (match_len (map Lit P1)) (throw_replace d)
                        content 0 false (counter, 0))) (k1, 0) Hd) as HP2.
  repeat split; try done.
  - by apply convert_throw_clean.
  - by apply convert_bad_clean.
Qed.

Lemma second_application_substitutes_nothing_witness :
  re_match DATE_PATTERN (str "20251218") = true /\
  contains (str "throw new IllegalArgumentException(")
    (str "x = throw BizException.failed(2025121800001L,a); BizException.failed(2025121800002L, b)")
  = false.
Proof.
  split; [vm_compute; reflexivity|].
  apply (second_application_substitutes_nothing
           (str "x = throw new IllegalArgumentException(a); BizException.badRequest(b)")
           1 (str "20251218") ltac:(vm_compute; reflexivity)
           (str "x = throw BizException.failed(2025121800001L,a); BizException.badRequest(b)")
           2%Z 1
           (str "x = throw BizException.failed(2025121800001L,a); BizException.failed(2025121800002L, b)")
           3%Z 1);
    vm_compute; reflexivity.
Defined.

End RewriterFacts.

(** ** Orders and [sorted] *)

Module OrderFacts.
Import TextFacts.

Section Insertion.
Context {A : Type}.
Variable leb : A -> A -> bool.
Hypothesis leb_total : forall a b, leb a b = true \/ leb b a = true.

Local Abbreviation le := (fun a b => leb a b = true).

Lemma insert_by_perm x l : Permutation (insert_by leb x l) (x :: l).
Proof.
  induction l as [|y l IH]; simpl; [done|].
  destruct (leb x y); [done|].
  rewrite IH. apply Permutation_swap.
Qed.

Lemma sorted_perm l : Permutation (sorted leb l) l.
Proof.
  induction l as [|x l IH]; simpl; [done|].
  rewrite insert_by_perm. by constructor.
Qed.

Lemma insert_by_hdrel a x l :
  le a x -> HdRel le a l -> HdRel le a (insert_by leb x l).
Proof.
  intros Hax Hl. destruct l as [|y l]; simpl; [by constructor|].
  destruct (leb x y); constructor; [done|]. by inversion Hl.
Qed.

Lemma insert_by_sorted x l : Sorted le l -> Sorted le (insert_by leb x l).
Proof.
  induction l as [|y l IH]; intros Hs; simpl.
  - by repeat constructor.
  - destruct (leb x y) eqn:E.
    + constructor; [done|]. constructor. exact E.
    + inversion Hs as [|? ? Hs' Hhd]; subst.
      constructor; [by apply IH|].
      apply insert_by_hdrel; [|done].
      destruct (leb_total x y) as [H|H]; [congruence|done].
Qed.

(** [sorted] returns its argument in order. *)
Lemma sorted_sorted l : Sorted le (sorted leb l).
Proof.
  induction l as [|x l IH]; simpl; [constructor|].
  by apply insert_by_sorted.
Qed.

(** With a transitive order the first element is below all the others. *)
Lemma sorted_head_least :
  (forall a b c, leb a b = true -> leb b c = true -> leb a c = true) ->
  forall l h t, sorted leb l = h :: t -> forall x, x ∈ l -> leb h x = true.
Proof.
  intros Htrans l h t E x Hx.
  assert (Transitive le) as HT by (intros a b c; apply Htrans).
  pose proof (Sorted_StronglySorted le (sorted leb l) (sorted_sorted l)) as HS.
  rewrite E in HS. apply StronglySorted_inv in HS as [_ Hall].
  rewrite <- (sorted_perm l), E in Hx.
  apply elem_of_cons in Hx as [->|Hx].
  - destruct (leb_total h h); done.
  - rewrite Forall_forall in Hall. by apply Hall.
Qed.
End Insertion.

(** *** Lexicographic comparison *)

Section Lex.
Context {A : Type}.
Variable cmp : A -> A -> comparison.
Hypothesis cmp_eq : forall a b, cmp a b = Eq <-> a = b.
Hypothesis cmp_antisym : forall a b, cmp b a = CompOpp (cmp a b).
Hypothesis cmp_trans : forall a b c, cmp a b = Lt -> cmp b c = Lt -> cmp a c = Lt.

Lemma lex_cmp_eq x y : lex_cmp cmp x y = Eq <-> x = y.
Proof.
  revert y. induction x as [|a x IH]; intros [|b y]; simpl; try done.
  destruct (cmp a b) eqn:E.
  - apply cmp_eq in E as ->. rewrite IH. split; congruence.
  - split; [done|]. intros [= -> _].
    assert (cmp b b = Eq) by (by apply cmp_eq). congruence.
  - split; [done|]. intros [= -> _].
    assert (cmp b b = Eq) by (by apply cmp_eq). congruence.
Qed.

Lemma lex_cmp_antisym x y : lex_cmp cmp y x = CompOpp (lex_cmp cmp x y).
Proof.
  revert y. induction x as [|a x IH]; intros [|b y]; simpl; try done.
  rewrite (cmp_antisym a b). destruct (cmp a b); simpl; [apply IH|done|done].
Qed.

Lemma lex_cmp_trans x y z :
  lex_cmp cmp x y = Lt -> lex_cmp cmp y z = Lt -> lex_cmp cmp x z = Lt.
Proof.
  revert y z. induction x as [|a x IH]; intros [|b y] [|c z]; simpl; try done.
  destruct (cmp a b) eqn:Eab; try done.
  - apply cmp_eq in Eab as ->. destruct (cmp b c); try done. apply IH.
  - intros _. destruct (cmp b c) eqn:Ebc; try done.
    + apply cmp_eq in Ebc as ->. by rewrite Eab.
    + by rewrite (cmp_trans _ _ _ Eab Ebc).
Qed.
End Lex.

Lemma char_cmp_eq a b : char_cmp a b = Eq <-> a = b.
Proof.
  unfold char_cmp, code_of. rewrite Nat.compare_eq_iff. split; [|congruence].
  intros H. apply (f_equal ascii_of_nat) in H. by rewrite !ascii_nat_embedding in H.
Qed.

Lemma char_cmp_antisym a b : char_cmp b a = CompOpp (char_cmp a b).
Proof. apply Nat.compare_antisym. Qed.

Lemma char_cmp_trans a b c :
  char_cmp a b = Lt -> char_cmp b c = Lt -> char_cmp a c = Lt.
Proof. unfold char_cmp. rewrite !Nat.compare_lt_iff. lia. Qed.

Lemma text_cmp_eq x y : text_cmp x y = Eq <-> x = y.
Proof. apply lex_cmp_eq, char_cmp_eq. Qed.

Lemma text_cmp_antisym x y : text_cmp y x = CompOpp (text_cmp x y).
Proof. apply lex_cmp_antisym, char_cmp_antisym. Qed.

Lemma text_cmp_trans x y z :
  text_cmp x y = Lt -> text_cmp y z = Lt -> text_cmp x z = Lt.
Proof.
  apply lex_cmp_trans; [apply char_cmp_eq|apply char_cmp_trans].
Qed.

End OrderFacts.


(** ** The Rewriter, file by file *)

Module RewriterRun.
Import Re Rewriter TextFacts ReFacts SubFacts LitFacts OrderFacts RewriterFacts.

Local Abbreviation P1 := (str "throw new IllegalArgumentException(").
Local Abbreviation P2 := (str "BizException.badRequest(").
Local Abbreviation A1 := (str "throw BizException.failed(").
Local Abbreviation A2 := (str "BizException.failed(").
Local Abbreviation A3 := (str "@throws BizException").
Local Abbreviation X3 := (str "@throws").
Local Abbreviation Y3 := (str "IllegalArgumentException").
Local Abbreviation IMP := (str "import com.alliance.casino.common.exception.BizException;").

(** *** The Javadoc substitution *)

Lemma javadoc_inv b s n :
  match_len JAVADOC_PATTERN b s = Some n ->
  exists ws rest,
    s = (X3 ++ ws ++ Y3) ++ rest /\
    Forall (fun c => is_space c = true) ws /\
    n = length (X3 ++ ws ++ Y3).
Proof.
  unfold match_len, match_at.
  destruct (rmatch JAVADOC_PATTERN b s st0) as [[st r]|] eqn:E; [|done].
  intros [= <-]. unfold JAVADOC_PATTERN, lits in E.
  apply rmatch_lits_inv in E as (v & b1 & -> & E).
  cbn [app rmatch] in E. destruct v as [|x v]; [done|].
  destruct (cclass_mem Space x) eqn:Ex; [|done].
  apply star_loop_inv in E as (u & v2 & b2 & -> & Hu & E).
  rewrite <- (app_nil_r (map Lit Y3)) in E.
  apply rmatch_lits_inv in E as (v3 & b3 & -> & E).
  cbn [rmatch] in E. injection E as _ <-.
  exists (x :: u), v3. repeat split.
  - by rewrite <- !app_assoc.
  - by constructor.
  - rewrite !length_app. cbn [length]. rewrite !length_app. lia.
Qed.

Lemma javadoc_bos b s : match_len JAVADOC_PATTERN b s = match_len JAVADOC_PATTERN false s.
Proof. apply match_len_bos. unfold JAVADOC_PATTERN, lits. by repeat constructor. Qed.

Lemma space_not_i c : is_space c = true -> c <> "i"%char.
Proof. intros H ->. done. Qed.

(** The import line overlaps no Javadoc match and no replacement of one. *)
Lemma javadoc_keeps_import_count s k :
  count_at IMP
    (fst (sub_go (match_len JAVADOC_PATTERN) (fun n : nat => (A3, S n)) s 0 false k))
  = count_at IMP s.
Proof.
  apply (count_preserved (match_len JAVADOC_PATTERN) _ IMP).
  - vm_compute. lia.
  - intros st m Hm. cbn [fst]. apply clash_tails_spec; [vm_compute; reflexivity|done].
  - intros st q Hq. cbn [fst] in *. apply clash_inside_spec; [vm_compute; reflexivity|done].
  - intros t n m E Hm.
    apply javadoc_inv in E as (ws & rest & -> & Hws & Hn).
    rewrite drop_app_le by lia. apply clash_no_prefix.
    apply clash_inside_concat; [| |lia].
    + intros q Hq. apply clash_inside_spec; [vm_compute; reflexivity|done].
    + apply clash_inside_concat.
      * apply (clash_inside_chars _ _ "i"%char); [done|].
        eapply Forall_impl; [exact Hws|]. intros c. apply space_not_i.
      * intros q Hq. apply clash_inside_spec; [vm_compute; reflexivity|done].
  - intros m r n Hm E.
    apply javadoc_inv in E as (ws & rest & E & _ & _).
    assert (starts_with X3 (drop m IMP ++ r) = true) as HX.
    { rewrite E, <- !app_assoc. apply starts_with_app. }
    rewrite clash_no_prefix' in HX; [done|].
    apply clash_tails_spec; [vm_compute; reflexivity|done].
  - intros m Hm. lia.
Qed.

Lemma update_javadoc_import_count s :
  count_at IMP (fst (update_javadoc_throws s)) = count_at IMP s.
Proof.
  unfold update_javadoc_throws, re_subn, re_sub.
  rewrite (sub_go_bos _ _ javadoc_bos). apply javadoc_keeps_import_count.
Qed.

Lemma throw_keeps_import_count d s st :
  Forall (fun c => code_char c = true) d ->
  count_at IMP (fst (sub_go (match_len (map Lit P1)) (throw_replace d) s 0 false st))
  = count_at IMP s.
Proof.
  intros Hd.
  destruct (throw_clear d IMP "i"%char Hd) as [H1 H2]; try (vm_compute; reflexivity).
  apply lit_count_preserved; try done; vm_compute; reflexivity.
Qed.

Lemma bad_keeps_import_count d s st :
  Forall (fun c => code_char c = true) d ->
  count_at IMP (fst (sub_go (match_len (map Lit P2)) (bad_request_replace d) s 0 false st))
  = count_at IMP s.
Proof.
  intros Hd.
  destruct (bad_clear d IMP "i"%char Hd) as [H1 H2]; try (vm_compute; reflexivity).
  apply lit_count_preserved; try done; vm_compute; reflexivity.
Qed.

(** *** The substitution steps of one file *)

Lemma substitutions_spec content counter d :
  Forall (fun c => code_char c = true) d ->
  exists txt j,
    substitutions content counter d =
      (txt,
       (counter + Z.of_nat (throw_matches content)
                + Z.of_nat (bad_request_matches content))%Z,
       throw_matches content, bad_request_matches content, j) /\
    count_at IMP txt = count_at IMP content.
Proof.
  intros Hd. unfold substitutions.
  rewrite convert_throw_eq. cbv beta iota. rewrite convert_bad_eq. cbv beta iota.
  rewrite throw_keeps_bad_count by done.
  destruct (update_javadoc_throws _) as [txt j] eqn:E.
  exists txt, j. split; [done|].
  apply (f_equal fst) in E. cbn [fst] in E. rewrite <- E.
  rewrite update_javadoc_import_count, bad_keeps_import_count by done.
  by apply throw_keeps_import_count.
Qed.

(** *** The import step *)

Lemma has_import_contains c : has_biz_exception_import c = contains IMP c.
Proof. unfold has_biz_exception_import, BIZ_EXCEPTION_IMPORT. apply orb_diag. Qed.

Lemma has_import_count c : has_biz_exception_import c = false <-> count_at IMP c = 0.
Proof. rewrite has_import_contains. by apply count_zero_untouched. Qed.

Lemma last_index_some {A} (p : A -> bool) l i acc :
  is_Some (last_index p l i acc) <-> is_Some acc \/ existsb p l = true.
Proof.
  revert i acc. induction l as [|x l IH]; intros i acc; simpl.
  - split; [by left|]. by intros [H|H].
  - rewrite IH. destruct (p x); simpl.
    + split; [by right|]. intros _. left. by eexists.
    + done.
Qed.

Lemma first_index_some {A} (p : A -> bool) l i :
  is_Some (first_index p l i) <-> existsb p l = true.
Proof.
  revert i. induction l as [|x l IH]; intros i; simpl.
  - split; [by intros [? [=]]|done].
  - destruct (p x); simpl; [|apply IH]. split; [done|]. intros _. by eexists.
Qed.

Lemma existsb_orb {A} (f g : A -> bool) l :
  existsb (fun x => f x || g x) l = existsb f l || existsb g l.
Proof.
  induction l as [|x l IH]; simpl; [done|]. rewrite IH.
  destruct (f x), (g x), (existsb f l), (existsb g l); done.
Qed.

Lemma insertion_index_some c :
  is_Some (insertion_index (split_lines c)) <-> has_insertion_point c = true.
Proof.
  unfold has_insertion_point, insertion_index. rewrite existsb_orb.
  pose proof (last_index_some (starts_with (str "import ")) (split_lines c) 0 None) as HL.
  pose proof (first_index_some (starts_with (str "package ")) (split_lines c) 0) as HF.
  destruct (last_index _ _ 0 None) as [i|].
  - assert (existsb (starts_with (str "import ")) (split_lines c) = true) as ->.
    { destruct HL as [HL _]. destruct HL as [[? [=]]|]; [by eexists|done]. }
    split; [done|]. intros _. by eexists.
  - assert (existsb (starts_with (str "import ")) (split_lines c) = false) as ->.
    { destruct (existsb _ _) eqn:E; [|done].
      destruct HL as [_ HL]. destruct HL as [? [=]]. by right. }
    simpl. destruct (first_index _ _ 0) as [i|].
    + rewrite <- HF. split; intros _; by eexists.
    + rewrite <- HF. split; intros [? [=]].
Qed.

Lemma join_lines_insert a (p : text) b :
  exists x y, join_lines (a ++ p :: b) = x ++ p ++ y.
Proof.
  induction a as [|l a IH].
  - destruct b as [|l b].
    + exists [], []. simpl. by rewrite app_nil_r.
    + exists [], (LF :: join_lines (l :: b)). done.
  - destruct IH as (x & y & IH).
    change ((l :: a) ++ p :: b) with (l :: (a ++ p :: b)).
    destruct (a ++ p :: b) as [|t ts] eqn:E; [by destruct a|].
    exists (l ++ LF :: x), y.
    change (join_lines (l :: t :: ts)) with (l ++ LF :: join_lines (t :: ts)).
    rewrite IH. by rewrite <- app_assoc.
Qed.

Lemma add_import_spec c :
  (snd (add_import_if_needed c) = true <->
     has_biz_exception_import c = false /\ has_insertion_point c = true) /\
  (snd (add_import_if_needed c) = true ->
     has_biz_exception_import (fst (add_import_if_needed c)) = true) /\
  (snd (add_import_if_needed c) = false -> fst (add_import_if_needed c) = c).
Proof.
  unfold add_import_if_needed.
  pose proof (insertion_index_some c) as HI.
  destruct (has_biz_exception_import c) eqn:Eh; cbn [fst snd].
  - repeat split; try done. by intros [? _].
  - destruct (insertion_index (split_lines c)) as [i|]; cbn [fst snd].
    + repeat split; try done.
      * apply HI. by eexists.
      * intros _. rewrite has_import_contains. unfold list_insert_at.
        destruct (join_lines_insert (take i (split_lines c)) BIZ_EXCEPTION_IMPORT
                    (drop i (split_lines c))) as (x & y & ->).
        apply contains_middle.
    + repeat split; try done. intros [_ H]. apply HI in H as [? [=]].
Qed.

(** What [process_content] returns, step by step. *)
Lemma process_content_spec content counter d :
  Forall (fun c => code_char c = true) d ->
  exists txt st,
    process_content content counter d =
      (txt,
       (counter + Z.of_nat (throw_matches content)
                + Z.of_nat (bad_request_matches content))%Z, st) /\
    illegal_arg st = throw_matches content /\
    bad_request st = bad_request_matches content /\
    (import_added st = true <->
       (0 < illegal_arg st \/ 0 < bad_request st) /\
       has_biz_exception_import content = false /\
       has_insertion_point (fst (fst (fst (fst (substitutions content counter d)))))
       = true) /\
    (import_added st = true -> has_biz_exception_import txt = true) /\
    (import_added st = false -> count_at IMP txt = count_at IMP content).
Proof.
  intros Hd. unfold process_content.
  destruct (substitutions_spec content counter d Hd) as (sub & j & -> & Hc).
  cbv beta iota zeta. cbn [fst].
  assert (has_biz_exception_import sub = has_biz_exception_import content) as Hh.
  { rewrite !has_import_contains.
    destruct (contains IMP content) eqn:E1, (contains IMP sub) eqn:E2; try done.
    - apply count_zero_untouched in E2; [|done]. rewrite Hc in E2.
      apply count_zero_untouched in E2; [congruence|done].
    - apply count_zero_untouched in E1; [|done]. rewrite <- Hc in E1.
      apply count_zero_untouched in E1; [congruence|done]. }
  destruct (add_import_spec sub) as (Ha1 & Ha2 & Ha3).
  destruct ((0 <? throw_matches content) || (0 <? bad_request_matches content)) eqn:Eany.
  - destruct (add_import_if_needed sub) as [txt added]. cbn [fst snd] in *.
    eexists _, _. split; [reflexivity|]. cbn [illegal_arg bad_request import_added].
    split; [done|]. split; [done|]. split; [split|split].
    + intros Hadd. split; [|split].
      * apply orb_true_iff in Eany as [H|H]; apply Nat.ltb_lt in H; lia.
      * rewrite <- Hh. by apply Ha1.
      * by apply Ha1.
    + intros (_ & H1 & H2). apply Ha1. by rewrite Hh.
    + exact Ha2.
    + intros H. by rewrite (Ha3 H).
  - eexists _, _. split; [reflexivity|]. cbn [illegal_arg bad_request import_added].
    apply orb_false_iff in Eany as [H1 H2].
    apply Nat.ltb_ge in H1. apply Nat.ltb_ge in H2.
    split; [done|]. split; [done|]. split; [split|split]; try done.
    intros ([H|H] & _); lia.
Qed.

(** C6 (as amended): the import line is added if and only if at least one
    throw or bad-request substitution occurred in the file, the import line
    was not already present, and the text has a line starting with
    [import ] or [package ] to insert it after.  A run that adds the line
    leaves a text that contains it, and a run over a text that already
    contains it adds nothing and leaves the number of copies unchanged: a
    second run inserts no second copy. *)
Theorem import_added_iff (content : text) (counter : Z) (d : text) :
  re_match DATE_PATTERN d = true ->
  let '(txt, _, st) := process_content content counter d in
  let substituted := fst (fst (fst (fst (substitutions content counter d)))) in
  (import_added st = true <->
     (0 < illegal_arg st \/ 0 < bad_request st) /\
     has_biz_exception_import content = false /\
     has_insertion_point substituted = true) /\
  (import_added st = true -> has_biz_exception_import txt = true) /\
  (forall counter' d',
     re_match DATE_PATTERN d' = true ->
     has_biz_exception_import txt = true ->
     let '(txt', _, st') := process_content txt counter' d' in
     import_added st' = false /\
     count_at BIZ_EXCEPTION_IMPORT txt' = count_at BIZ_EXCEPTION_IMPORT txt).
Proof.
  intros Hd. apply valid_date_chars in Hd.
  destruct (process_content_spec content counter d Hd)
    as (txt & st & -> & _ & _ & Hiff & Hadd & _).
  cbv zeta. repeat split; try (by apply Hiff); try done.
  - intros counter' d' Hd' Hpresent. apply valid_date_chars in Hd'.
    destruct (process_content_spec txt counter' d' Hd')
      as (txt' & st' & -> & _ & _ & Hiff' & _ & Hkeep).
    assert (import_added st' = false) as Hno.
    { destruct (import_added st') eqn:E; [|done].
      destruct Hiff' as [Hiff' _]. destruct (Hiff' eq_refl) as (_ & H & _).
      congruence. }
    split; [done|]. by apply Hkeep.
Qed.

Lemma import_added_iff_witness :
  re_match DATE_PATTERN (str "20251218") = true /\
  has_biz_exception_import
    (fst (fst (process_content (str "package a;
throw new IllegalArgumentException(msg);") 1 (str "20251218")))) = true.
Proof.
  split; [vm_compute; reflexivity|].
  pose proof (import_added_iff (str "package a;
throw new IllegalArgumentException(msg);") 1 (str "20251218")
                ltac:(vm_compute; reflexivity)) as H.
  destruct (process_content _ 1 (str "20251218")) as [[txt c] st] eqn:E.
  cbv zeta in H. destruct H as (_ & H & _). cbn [fst]. apply H.
  apply (f_equal (fun r => import_added (snd r))) in E. cbn [snd] in E.
  rewrite <- E. vm_compute. reflexivity.
Defined.

(** C6 as stated fails: a file with a throw-style token, without the import
    line, and without any [import ] or [package ] line gets a substitution
    but no import line. *)
Lemma no_insertion_point_no_import :
  let '(_, _, st) :=
    process_content (str "throw new IllegalArgumentException(msg);") 1
                    (str "20251218") in
  illegal_arg st = 1 /\
  has_biz_exception_import (str "throw new IllegalArgumentException(msg);") = false /\
  import_added st = false.
Proof. vm_compute. done. Qed.

(** *** Files in order *)









End RewriterRun.

(** ** Exit statuses *)

Module ExitFacts.
Import Re TextFacts ReFacts.

(** A run of the Resolver that finds no duplicate exits with 0 and leaves
    the project as it is; a check-only run that finds duplicates exits
    with 1. *)
Lemma resolver_exit_status now fix_mode project_root pr :
  (Resolver.find_duplicates (Resolver.find_all_error_codes pr project_root) = [] ->
   Resolver.main now fix_mode project_root pr = Some (0%Z, pr)) /\
  (Resolver.find_duplicates (Resolver.find_all_error_codes pr project_root) <> [] ->
   Resolver.main now false project_root pr = Some (1%Z, pr)).
Proof.
  unfold Resolver.main. split; intros H.
  - by rewrite H.
  - by destruct (Resolver.find_duplicates _).
Qed.

(** A date that fails the check of the Rewriter ends the run with status 1
    and every file as it was. *)
Lemma rewriter_rejects_date a base_path listing fs :
  re_match Rewriter.DATE_PATTERN (Rewriter.date a) = false ->
  Rewriter.main a base_path listing fs = Rewriter.Exit 1 fs None.
Proof. intros H. unfold Rewriter.main. by rewrite H. Qed.

(** The dates that pass the check: eight digits, or eight digits and a
    line feed. *)
Lemma date_check_accepts d :
  re_match Rewriter.DATE_PATTERN d = true <->
  exists u, length u = 8 /\ Forall (fun c => is_digit c = true) u /\
            (d = u \/ d = u ++ [LF]).
Proof.
  unfold re_match, match_at. rewrite bool_decide_eq_true. split.
  - intros H.
    destruct (rmatch Rewriter.DATE_PATTERN true d st0) as [r|] eqn:E;
      [|by destruct H as [? [=]]].
    cbn [Rewriter.DATE_PATTERN rmatch] in E.
    apply rep_loop_inv in E as (u & v & b' & st' & -> & Hl & Hu & Hv).
    exists u. repeat split; try done.
    destruct v as [|x [|y v]]; [left; by rewrite app_nil_r| |done].
    destruct (ceqb x LF) eqn:Ex; [|done].
    apply ceqb_true in Ex as ->. by right.
  - intros (u & Hl & Hu & Hd).
    do 9 (destruct u as [|? u]; try done).
    repeat match goal with
           | H : Forall _ (_ :: _) |- _ => apply Forall_cons in H as [? H]
           end.
    destruct Hd as [->| ->]; cbn;
      repeat match goal with
             | H : is_digit ?a = true |- _ => rewrite H; clear H
             end; cbn; by eexists.
Qed.

(** C9 fails at its third part: a date of eight digits followed by a line
    feed is not eight decimal digits, yet it passes the check ([$] also
    matches before a final line feed); the run goes on, rewrites the file
    with a code broken over two lines, and exits with status 0. *)
Lemma date_with_line_feed_accepted :
  let f := str "/w/a/A.java" in
  let fs : gmap text text :=
    <[f := str "throw new IllegalArgumentException(msg);"]> ∅ in
  let a := Rewriter.Args (str "20251218" ++ [LF]) false [str "a"] 1 in
  exists fs' run,
    Rewriter.main a (str "/w") [f] fs = Rewriter.Exit 0 fs' run /\
    fs' !! f = Some (str "throw BizException.failed(20251218
00001L,msg);").
Proof. eexists _, _. split; vm_compute; reflexivity. Qed.

End ExitFacts.

(** ** The Resolver: the index *)

Module IndexFacts.
Import Re Resolver TextFacts ReFacts.

Lemma dict_get_append {V} (d : dict V) k v code :
  dict_get (dict_append d k v) code =
    dict_get d code ++ (if decide (code = k) then [v] else []).
Proof.
  induction d as [|[k' vs] d IH]; simpl.
  - by destruct (decide (code = k)).
  - destruct (decide (k = k')) as [->|Hk]; simpl.
    + destruct (decide (code = k')); [done|]. by rewrite app_nil_r.
    + destruct (decide (code = k')) as [->|Hc]; [|apply IH].
      destruct (decide (k' = k)); [congruence|]. by rewrite app_nil_r.
Qed.

Lemma dict_get_record_all {V} (occs : list (text * V)) : forall d code,
  dict_get (record_all d occs) code =
    dict_get d code ++ map snd (filter (fun o => o.1 = code) occs).
Proof.
  unfold record_all. induction occs as [|[k v] occs IH]; intros d code; simpl.
  - by rewrite app_nil_r.
  - rewrite IH, dict_get_append, <- app_assoc. f_equal.
    rewrite filter_cons. simpl.
    destruct (decide (code = k)) as [->|Hk].
    + by rewrite decide_True.
    + rewrite decide_False by congruence. done.
Qed.

Lemma dict_get_scan pr (files : list text) : forall d code,
  dict_get (foldl (fun code_locations fp =>
                     record_all code_locations (file_occurrences pr fp)) d files)
           code =
    dict_get d code ++
    flat_map (fun fp => map snd (filter (fun o => o.1 = code) (file_occurrences pr fp)))
             files.
Proof.
  induction files as [|fp files IH]; intros d code; simpl.
  - by rewrite app_nil_r.
  - by rewrite IH, dict_get_record_all, <- app_assoc.
Qed.

Lemma line_occurrences_at fp n line o :
  o ∈ line_occurrences fp n line ->
  file_path o.2 = fp /\ line_num o.2 = n.
Proof.
  unfold line_occurrences, constant_occurrences, inline_occurrences.
  rewrite elem_of_app. intros [H|H].
  - apply list_elem_of_fmap in H as (g & -> & _). done.
  - destruct (contains _ line); [|by apply elem_of_nil in H].
    destruct (negb _); [|by apply elem_of_nil in H].
    apply list_elem_of_fmap in H as (g & -> & _). done.
Qed.

Lemma sorted_app_bound (l1 l2 : list nat) b :
  Forall (fun m => m = b) l1 -> Forall (fun m => b <= m) l2 ->
  StronglySorted le l2 -> StronglySorted le (l1 ++ l2).
Proof.
  intros H1 H2 Hs. induction H1 as [|m l1 -> Hl1 IH]; [done|].
  simpl. constructor; [exact IH|].
  apply Forall_app. split; [|done].
  eapply Forall_impl; [exact Hl1|]. intros m ->. done.
Qed.

(** The occurrences of the lines numbered from [start] come in
    non-decreasing line order, at numbers from [start] on. *)
Lemma enumerate_occurrences_sorted fp (lines : list text) : forall start,
  Forall (fun o => file_path o.2 = fp /\ start <= line_num o.2)
         (flat_map (fun '(n, line) => line_occurrences fp n line)
                   (enumerate start lines)) /\
  StronglySorted le
    (map (fun o => line_num o.2)
         (flat_map (fun '(n, line) => line_occurrences fp n line)
                   (enumerate start lines))).
Proof.
  induction lines as [|line lines IH]; intros start; simpl.
  - split; constructor.
  - destruct (IH (S start)) as [Hall Hsorted].
    assert (Forall (fun o => file_path o.2 = fp /\ line_num o.2 = start)
                   (line_occurrences fp start line)) as Hhere.
    { apply Forall_forall. intros o Ho. by apply line_occurrences_at in Ho. }
    split.
    + apply Forall_app. split.
      * eapply Forall_impl; [exact Hhere|]. intros o [? ?]. split; [done|lia].
      * eapply Forall_impl; [exact Hall|]. intros o [? ?]. split; [done|lia].
    + rewrite map_app. apply (sorted_app_bound _ _ start); [| |done].
      * apply Forall_fmap. eapply Forall_impl; [exact Hhere|]. by intros o [? ?].
      * apply Forall_fmap. eapply Forall_impl; [exact Hall|].
        intros o [? ?]. simpl. lia.
Qed.

Lemma sorted_filter_map {A} (f : A -> nat) (P : A -> Prop)
    `{forall x, Decision (P x)} (l : list A) :
  StronglySorted le (map f l) -> StronglySorted le (map f (filter P l)).
Proof.
  induction l as [|x l IH]; intros Hs; [done|].
  simpl in Hs. apply StronglySorted_inv in Hs as [Hs Hall].
  rewrite filter_cons. destruct (decide (P x)); [|by apply IH].
  simpl. constructor; [by apply IH|].
  rewrite Forall_forall in Hall. apply Forall_forall. intros m Hm.
  apply list_elem_of_fmap in Hm as (y & -> & Hy).
  apply list_elem_of_filter in Hy as [_ Hy].
  apply Hall. apply list_elem_of_fmap. by exists y.
Qed.

(** X29: The order of the index: the occurrence list of a code follows
    the traversal order of the files, not the sorted order of their paths:
    it is the concatenation, over the files in the order the scan visits
    them (the configured directories in their listed order, each in the
    order the directory walk reports its files), of the occurrences of the
    code in each file; and within one file the occurrences are those of
    that file in non-decreasing line order. *)
Theorem index_follows_traversal (pr : project) (project_root code : text) :
  dict_get (find_all_error_codes pr project_root) code =
    flat_map (fun fp =>
                map snd (filter (fun o => o.1 = code) (file_occurrences pr fp)))
             (java_files_of pr project_root)
  /\
  forall fp,
    Forall (fun l => file_path l = fp)
           (map snd (filter (fun o => o.1 = code) (file_occurrences pr fp))) /\
    StronglySorted le
      (map line_num
           (map snd (filter (fun o => o.1 = code) (file_occurrences pr fp)))).
Proof.
  split.
  - unfold find_all_error_codes. by rewrite dict_get_scan.
  - intros fp. unfold file_occurrences. destruct (store pr !! fp) as [content|].
    + destruct (enumerate_occurrences_sorted fp (readlines content) 1)
        as [Hall Hsorted].
      split.
      * apply Forall_fmap. apply Forall_forall. intros o Ho.
        apply list_elem_of_filter in Ho as [_ Ho].
        rewrite Forall_forall in Hall. by destruct (Hall _ Ho).
      * rewrite <- list_fmap_compose.
        by apply (sorted_filter_map (fun o => line_num o.2)).
    + rewrite filter_nil. split; constructor.
Qed.

(** The traversal order is not the order of the paths: the directory
    [gaming-table-feature] is scanned before [common-shared], so an
    occurrence under the larger path comes first in the list. *)
Lemma traversal_is_not_sorted :
  let g := str "/p/gaming-table-feature/src/main/java/G.java" in
  let c := str "/p/common-shared/src/main/java/C.java" in
  let pr := Project [c; g]
              (<[g := str "private static final long ERROR_X = 5L;"]>
                 (<[c := str "private static final long ERROR_Y = 5L;"]> ∅)) in
  exists a b,
    dict_get (find_all_error_codes pr (str "/p")) (str "5") = [a; b] /\
    file_path a = g /\ file_path b = c /\
    text_cmp (file_path b) (file_path a) = Lt.
Proof. eexists _, _. repeat split; vm_compute; reflexivity. Qed.

(** C7: the claim fails, and the program disagrees with itself where it
    does: the index lists the occurrence in [G.java] before the one in
    [C.java], against the order of the paths; the report, which takes the
    first of the list, marks the occurrence in [G.java] as kept; the fix,
    which sorts the list, keeps the one in [C.java] and rewrites
    [G.java]. *)
Lemma report_keeps_what_fix_rewrites :
  let g := str "/p/gaming-table-feature/src/main/java/G.java" in
  let c := str "/p/common-shared/src/main/java/C.java" in
  let pr := Project [c; g]
              (<[g := str "private static final long ERROR_X = 5L;"]>
                 (<[c := str "private static final long ERROR_Y = 5L;"]> ∅)) in
  let code_locations := find_all_error_codes pr (str "/p") in
  exists a b pr',
    dict_get code_locations (str "5") = [a; b] /\
    file_path a = g /\ file_path b = c /\
    text_cmp (file_path b) (file_path a) = Lt /\
    map (fun e => (e.1.1, marked_keep e.2, marked_modify e.2))
        (snd (print_report code_locations (find_duplicates code_locations)))
      = [(str "5", [a], [b])] /\
    main (fun _ => str "20251218") true (str "/p") pr = Some (1%Z, pr') /\
    store pr' !! c = Some (str "private static final long ERROR_Y = 5L;") /\
    store pr' !! g = Some (str "private static final long ERROR_X = 202512180001L;").
Proof. eexists _, _, _. repeat split; vm_compute; reflexivity. Qed.

End IndexFacts.

(** ** The Resolver: new codes *)

Module PlanFacts.
Import Re Resolver TextFacts OrderFacts.

(** *** Decimal notation is injective, with or without padding *)

Lemma uint_chars_inj d d' : uint_chars d = uint_chars d' -> d = d'.
Proof.
  revert d'. induction d; intros d' H; destruct d'; simpl in H;
    try discriminate; try done; injection H as H'; f_equal; by apply IHd.
Qed.

Lemma uint_chars_zeros k d :
  uint_chars (Nat.iter k Decimal.D0 d) = replicate k "0"%char ++ uint_chars d.
Proof. induction k as [|k IH]; simpl; [done|]. by rewrite IH. Qed.

Lemma of_uint_zeros k d : N.of_uint (Nat.iter k Decimal.D0 d) = N.of_uint d.
Proof. induction k as [|k IH]; simpl; [done|]. exact IH. Qed.

Lemma zfill_decimal_inj w n m :
  zfill w (decimal n) = zfill w (decimal m) -> n = m.
Proof.
  unfold zfill, decimal. rewrite <- !uint_chars_zeros. intros H.
  apply uint_chars_inj in H. apply (f_equal N.of_uint) in H.
  rewrite !of_uint_zeros, !DecimalN.Unsigned.of_to in H. done.
Qed.

Lemma format_d_inj w a b :
  (0 <= a)%Z -> (0 <= b)%Z -> format_d w a = format_d w b -> a = b.
Proof.
  intros Ha Hb. unfold format_d.
  destruct (Z.ltb_spec a 0) as [?|_]; [lia|].
  destruct (Z.ltb_spec b 0) as [?|_]; [lia|].
  intros Heq. apply zfill_decimal_inj in Heq. lia.
Qed.

(** *** [generate_new_code] returns, and returns a free code *)

Lemma generate_loop_fresh fuel existing d counter code :
  generate_loop fuel existing d counter = Some code -> code ∉ existing.
Proof.
  revert counter. induction fuel as [|fuel IH]; intros counter H; simpl in H; [done|].
  destruct (decide (d ++ format_d 4 counter ∉ existing)); [by injection H as <-|].
  destruct (9999 <? counter + 1)%Z; [|by apply IH in H].
  destruct (decide (d ++ format_d 6 (counter + 1) ∉ existing));
    [by injection H as <-|by apply IH in H].
Qed.

Lemma generate_loop_none fuel existing d counter :
  generate_loop fuel existing d counter = None ->
  forall i, i < fuel -> d ++ format_d 4 (counter + Z.of_nat i) ∈ existing.
Proof.
  revert counter. induction fuel as [|fuel IH]; intros counter H i Hi; [lia|].
  simpl in H.
  destruct (decide (d ++ format_d 4 counter ∉ existing)) as [|Hin]; [done|].
  apply dec_stable in Hin.
  assert (generate_loop fuel existing d (counter + 1) = None) as Hrec.
  { destruct (9999 <? counter + 1)%Z; [|done].
    by destruct (decide (d ++ format_d 6 (counter + 1) ∉ existing)). }
  destruct i as [|i].
  - by rewrite Z.add_0_r.
  - replace (counter + Z.of_nat (S i))%Z with (counter + 1 + Z.of_nat i)%Z by lia.
    apply (IH _ Hrec). lia.
Qed.

(** One more iteration than there are known codes is enough: the
    candidates of the first format are pairwise distinct. *)
Lemma generate_new_code_total existing d :
  exists code, generate_new_code existing d = Some code /\ code ∉ existing.
Proof.
  unfold generate_new_code.
  destruct (generate_loop (S (size existing)) existing d 1) as [code|] eqn:E.
  - exists code. split; [done|]. by apply generate_loop_fresh in E.
  - exfalso.
    pose proof (generate_loop_none _ _ _ _ E) as Hall.
    set (cands := map (fun i => d ++ format_d 4 (1 + Z.of_nat i))
                      (seq 0 (S (size existing)))).
    assert (NoDup cands) as Hnd.
    { apply NoDup_fmap_2; [|apply NoDup_seq].
      intros i j Hij. apply app_inv_head in Hij.
      apply format_d_inj in Hij; lia. }
    assert (cands ⊆+ elements existing) as Hsub.
    { apply NoDup_submseteq; [done|]. intros c Hc.
      apply list_elem_of_fmap in Hc as (i & -> & Hi).
      apply elem_of_elements. apply Hall.
      apply elem_of_seq in Hi. lia. }
    apply submseteq_length in Hsub.
    unfold cands in Hsub. rewrite length_map, length_seq in Hsub.
    unfold size, set_size in Hsub. simpl in Hsub. lia.
Qed.

(** *** The planning loops *)

Lemma change_location_eta location code new_code :
  change_location
    (Change (file_path location) (line_num location) code new_code
            (constant_name location) (is_constant_def location)
            (line_content location)) = location.
Proof. by destruct location. Qed.

Lemma fresh_chain_nil known : fresh_chain known [].
Proof. intros pre c post H. by destruct pre. Qed.

Lemma fresh_chain_cons known c added :
  c_new c ∉ known ->
  fresh_chain (known ∪ {[ c_new c ]}) added ->
  fresh_chain known (c :: added).
Proof.
  intros Hc Hrest pre c' post E. destruct pre as [|p pre]; simpl in E.
  - injection E as <- _. cbn [map list_to_set]. by rewrite (right_id_L ∅ (∪)).
  - injection E as <- E. specialize (Hrest pre c' post E).
    cbn [map list_to_set]. by rewrite (assoc_L (∪)).
Qed.

Lemma fresh_chain_app known a b :
  fresh_chain known a ->
  fresh_chain (known ∪ list_to_set (map c_new a)) b ->
  fresh_chain known (a ++ b).
Proof.
  intros Ha Hb pre c post E.
  destruct (decide (length pre < length a)) as [Hlt|Hge].
  - assert (exists post', a = pre ++ c :: post') as [post' Ea].
    { apply (f_equal (take (length a))) in E.
      rewrite take_app_length, take_app_ge in E by lia.
      destruct (length a - length pre) as [|m] eqn:Em; [lia|].
      cbn [take] in E. eauto. }
    by apply (Ha pre c post').
  - assert (pre = a ++ drop (length a) pre) as Hpre.
    { apply (f_equal (take (length a))) in E.
      rewrite take_app_length, take_app_le in E by lia.
      rewrite <- (take_drop (length a) pre) at 1. by rewrite <- E. }
    specialize (Hb (drop (length a) pre) c post).
    rewrite Hpre, map_app, list_to_set_app_L.
    rewrite (assoc_L (∪)). apply Hb.
    rewrite Hpre, <- app_assoc in E. by apply app_inv_head in E.
Qed.

Lemma plan_locations_spec now code locs : forall ch ac k,
  exists added,
    plan_locations now code locs (ch, ac, k) =
      Some (ch ++ added, ac ∪ list_to_set (map c_new added), k + length locs) /\
    Forall (fun c => c_old c = code) added /\
    map change_location added = locs /\
    fresh_chain ac added.
Proof.
  induction locs as [|location locs IH]; intros ch ac k.
  - exists []. simpl. rewrite app_nil_r, Nat.add_0_r.
    cbn [concat map list_to_set]. rewrite (right_id_L ∅ (∪)).
    repeat split; try done. apply fresh_chain_nil.
  - destruct (generate_new_code_total ac (now k)) as (new_code & Eg & Hfresh).
    cbn [plan_locations]. rewrite Eg.
    set (c0 := Change (file_path location) (line_num location) code new_code
                      (constant_name location) (is_constant_def location)
                      (line_content location)).
    destruct (IH (ch ++ [c0]) (ac ∪ {[ new_code ]}) (S k))
      as (added & -> & Hold & Hloc & Hchain).
    exists (c0 :: added). repeat split.
    + f_equal. f_equal; [f_equal|simpl; lia].
      * by rewrite <- app_assoc.
      * cbn [map list_to_set]. by rewrite (assoc_L (∪)).
    + by constructor.
    + cbn [map]. unfold c0. by rewrite change_location_eta, Hloc.
    + by apply fresh_chain_cons.
Qed.

Lemma plan_groups_spec now duplicates : forall ch ac k,
  exists groups k',
    plan_groups now duplicates (ch, ac, k) =
      Some (ch ++ concat groups,
            ac ∪ list_to_set (map c_new (concat groups)), k') /\
    Forall2 (fun '(code, locations) g =>
               Forall (fun c => c_old c = code) g /\
               map change_location g = drop 1 (sorted loc_leb locations))
            duplicates groups /\
    fresh_chain ac (concat groups).
Proof.
  induction duplicates as [|[code locations] duplicates IH]; intros ch ac k.
  - exists [], k. simpl. rewrite app_nil_r.
    cbn [concat map list_to_set]. rewrite (right_id_L ∅ (∪)).
    repeat split; [constructor|apply fresh_chain_nil].
  - cbn [plan_groups].
    destruct (plan_locations_spec now code (drop 1 (sorted loc_leb locations)) ch ac k)
      as (g & -> & Hold & Hloc & Hchain).
    destruct (IH (ch ++ g) (ac ∪ list_to_set (map c_new g))
                 (k + length (drop 1 (sorted loc_leb locations))))
      as (groups & k' & -> & HF & Hchain').
    exists (g :: groups), k'. repeat split.
    + f_equal. f_equal. f_equal.
      * simpl. by rewrite <- app_assoc.
      * simpl. rewrite map_app, list_to_set_app_L. by rewrite (assoc_L (∪)).
    + by constructor.
    + simpl. by apply fresh_chain_app.
Qed.

(** C2: every replacement code that the unique-code generator produces is
    outside the set of codes known before the run and differs from every
    replacement code generated earlier in the same pass; the candidate set
    the caller ends with is the initial set extended with the generated
    codes.  The generator always returns, and [fix_duplicates] returns the
    change records that carry these codes. *)
Theorem replacement_codes_are_fresh
    (now : nat -> text) (pr : project) (duplicates : dict ErrorCodeLocation)
    (existing_codes : gset text) (dry_run : bool) :
  (forall known date_prefix,
     exists code, generate_new_code known date_prefix = Some code /\ code ∉ known) /\
  exists changes all_codes k,
    plan_changes now duplicates existing_codes = Some (changes, all_codes, k) /\
    fst <$> fix_duplicates now pr duplicates existing_codes dry_run = Some changes /\
    (forall pre c post,
       changes = pre ++ c :: post ->
       (c_new c ∉ existing_codes) /\ (c_new c ∉ map c_new pre)) /\
    NoDup (map c_new changes) /\
    all_codes = existing_codes ∪ list_to_set (map c_new changes).
Proof.
  split; [intros known d; apply generate_new_code_total|].
  unfold fix_duplicates, plan_changes.
  destruct (plan_groups_spec now duplicates [] existing_codes 0)
    as (groups & k & -> & _ & Hchain).
  cbn [app].
  assert (forall pre c post,
            concat groups = pre ++ c :: post ->
            (c_new c ∉ existing_codes) /\ (c_new c ∉ map c_new pre)) as Hfresh.
  { intros pre c post E. specialize (Hchain pre c post E).
    apply not_elem_of_union in Hchain as [H1 H2]. split; [done|].
    by rewrite elem_of_list_to_set in H2. }
  eexists _, _, k. split; [reflexivity|]. split; [|split; [exact Hfresh|split; [|done]]].
  - destruct dry_run; reflexivity.
  - clear Hchain. revert Hfresh. generalize (concat groups). intros l.
    induction l as [|c l IH] using rev_ind; intros Hfresh; [constructor|].
    rewrite map_app. apply NoDup_app. split; [|split].
    + apply IH. intros pre c' post E.
      apply (Hfresh pre c' (post ++ [c])). rewrite E, <- app_assoc. done.
    + intros x Hx Hx'. simpl in Hx'. apply list_elem_of_singleton in Hx' as ->.
      destruct (Hfresh l c [] eq_refl) as [_ Hn]. done.
    + simpl. apply NoDup_singleton.
Qed.

(** *** The kept occurrence *)

Lemma loc_leb_total a b : loc_leb a b = true \/ loc_leb b a = true.
Proof.
  unfold loc_leb. rewrite (text_cmp_antisym (file_path a) (file_path b)).
  destruct (text_cmp (file_path a) (file_path b)); simpl; auto.
  destruct (Nat.leb_spec (line_num a) (line_num b)); [by left|right].
  apply Nat.leb_le. lia.
Qed.

Lemma loc_leb_trans a b c :
  loc_leb a b = true -> loc_leb b c = true -> loc_leb a c = true.
Proof.
  unfold loc_leb.
  destruct (text_cmp (file_path a) (file_path b)) eqn:Eab; [| |done];
    destruct (text_cmp (file_path b) (file_path c)) eqn:Ebc; try done.
  - apply text_cmp_eq in Eab. apply text_cmp_eq in Ebc.
    rewrite Eab, Ebc. rewrite (proj2 (text_cmp_eq _ _) eq_refl).
    rewrite !Nat.leb_le. lia.
  - apply text_cmp_eq in Eab. rewrite Eab, Ebc. done.
  - apply text_cmp_eq in Ebc. rewrite <- Ebc, Eab. done.
  - by rewrite (text_cmp_trans _ _ _ Eab Ebc).
Qed.

Lemma filter_keep_all {A} (P : A -> Prop) `{forall x, Decision (P x)} l :
  Forall P l -> filter P l = l.
Proof.
  induction 1 as [|x l Hx _ IH]; [done|].
  by rewrite filter_cons, decide_True, IH.
Qed.

Lemma filter_drop_all {A} (P : A -> Prop) `{forall x, Decision (P x)} l :
  Forall (fun x => ~ P x) l -> filter P l = [].
Proof.
  induction 1 as [|x l Hx _ IH]; [done|].
  by rewrite filter_cons, decide_False, IH.
Qed.

Lemma foreign_groups_filtered code (duplicates : dict ErrorCodeLocation) groups :
  Forall2 (fun '(code', locations) g =>
             Forall (fun c => c_old c = code') g /\
             map change_location g = drop 1 (sorted loc_leb locations))
          duplicates groups ->
  code ∉ dict_keys duplicates ->
  filter (fun c => c_old c = code) (concat groups) = [].
Proof.
  induction 1 as [|[code' locations] g duplicates groups [Hold _] _ IH];
    intros Hnotin; [done|].
  simpl in *. apply not_elem_of_cons in Hnotin as [Hne Hnotin].
  rewrite filter_app, (IH Hnotin), app_nil_r.
  apply filter_drop_all. eapply Forall_impl; [exact Hold|].
  intros c -> Hc. by apply Hne.
Qed.

Lemma group_changes code locations (duplicates : dict ErrorCodeLocation) groups :
  Forall2 (fun '(code', locations) g =>
             Forall (fun c => c_old c = code') g /\
             map change_location g = drop 1 (sorted loc_leb locations))
          duplicates groups ->
  NoDup (dict_keys duplicates) ->
  (code, locations) ∈ duplicates ->
  map change_location (filter (fun c => c_old c = code) (concat groups))
  = drop 1 (sorted loc_leb locations).
Proof.
  induction 1 as [|[code' locations'] g duplicates groups [Hold Hloc] HF IH];
    intros Hnd Hin; [by apply elem_of_nil in Hin|].
  simpl in *. apply NoDup_cons in Hnd as [Hnotin Hnd].
  rewrite filter_app, map_app.
  apply elem_of_cons in Hin as [[= <- <-]|Hin].
  - rewrite (foreign_groups_filtered code duplicates groups HF Hnotin).
    rewrite app_nil_r. by rewrite filter_keep_all.
  - assert (code <> code') as Hne.
    { intros ->. apply Hnotin. apply list_elem_of_fmap. by exists (code', locations). }
    rewrite (filter_drop_all _ g), (IH Hnd Hin); [done|].
    eapply Forall_impl; [exact Hold|]. intros c -> Hc. by apply Hne.
Qed.

(** X28: The plan of the fix: for every duplicated code, the sorted
    occurrence list has a first element, which is below every occurrence
    of the group in the order of (file path, line number), and the change
    records made for the code are exactly those of the remaining
    occurrences, in order, each with a new code different from the
    duplicated one: the first occurrence gets no change record.  What the
    patch then does to the files is another matter. *)
Theorem kept_occurrence_is_least
    (now : nat -> text) (duplicates : dict ErrorCodeLocation)
    (existing_codes : gset text) (changes : list change)
    (all_codes : gset text) (k : nat) :
  NoDup (dict_keys duplicates) ->
  (forall code, code ∈ dict_keys duplicates -> code ∈ existing_codes) ->
  plan_changes now duplicates existing_codes = Some (changes, all_codes, k) ->
  forall code locations,
    (code, locations) ∈ duplicates ->
    1 < length locations ->
    exists kept others,
      sorted loc_leb locations = kept :: others /\
      Permutation locations (kept :: others) /\
      (forall l, l ∈ locations -> loc_leb kept l = true) /\
      map change_location (filter (fun c => c_old c = code) changes) = others /\
      (forall c, c ∈ changes -> c_old c = code -> c_new c <> code).
Proof.
  intros Hnd Hknown Hplan code locations Hin Hlen.
  unfold plan_changes in Hplan.
  destruct (plan_groups_spec now duplicates [] existing_codes 0)
    as (groups & k' & E & HF & Hchain).
  rewrite E in Hplan. injection Hplan as <- _ _. cbn [app].
  pose proof (sorted_perm loc_leb locations) as Hperm.
  destruct (sorted loc_leb locations) as [|kept others] eqn:Es.
  { apply Permutation_length in Hperm. simpl in Hperm. lia. }
  exists kept, others. repeat split.
  - by symmetry.
  - intros l Hl.
    apply (sorted_head_least loc_leb loc_leb_total loc_leb_trans locations kept others);
      done.
  - rewrite (group_changes code locations duplicates groups HF Hnd Hin).
    by rewrite Es.
  - intros c Hc Hold Hnew.
    apply list_elem_of_split in Hc as (pre & post & Hc).
    specialize (Hchain pre c post Hc).
    apply Hchain. apply elem_of_union. left. rewrite Hnew. apply Hknown.
    apply list_elem_of_fmap. by exists (code, locations).
Qed.

Lemma kept_occurrence_is_least_witness :
  let a1 := Location (str "/p/a/A.java") 1 (str "x") None false in
  let a3 := Location (str "/p/a/A.java") 3 (str "y") None false in
  let b1 := Location (str "/p/b/B.java") 1 (str "z") None false in
  let locations := [b1; a3; a1] in
  let changes :=
    [Change (str "/p/a/A.java") 3 (str "5") (str "202512180001") None false (str "y");
     Change (str "/p/b/B.java") 1 (str "5") (str "202512180002") None false (str "z")] in
  sorted loc_leb locations = [a1; a3; b1] /\
  exists kept others,
    sorted loc_leb locations = kept :: others /\
    Permutation locations (kept :: others) /\
    (forall l, l ∈ locations -> loc_leb kept l = true) /\
    map change_location (filter (fun c => c_old c = str "5") changes) = others /\
    (forall c, c ∈ changes -> c_old c = str "5" -> c_new c <> str "5").
Proof.
  intros a1 a3 b1 locations changes. split; [vm_compute; reflexivity|].
  apply (kept_occurrence_is_least (fun _ => str "20251218") [(str "5", locations)]
           {[ str "5" ]} changes
           ({[ str "5" ]} ∪ list_to_set [str "202512180001"; str "202512180002"]) 2).
  - apply (bool_decide_unpack _). vm_compute. exact I.
  - intros code Hcode. apply list_elem_of_singleton in Hcode as ->.
    by apply elem_of_singleton.
  - vm_compute. reflexivity.
  - by left.
  - simpl. lia.
Defined.

End PlanFacts.

(** ** The Resolver: patching *)

Module PatchFacts.
Import Re Resolver.

(** C1 fails: two constants declared without the [L] suffix are indexed as
    one duplicated code, but the patch of a constant only looks for the
    code followed by [L]; the run in fix mode leaves both files as they
    were, and the rebuilt index still holds the code twice. *)
Lemma unsuffixed_constants_stay_duplicated :
  let a := str "/p/a/A.java" in
  let b := str "/p/b/B.java" in
  let pr := Project [a; b]
              (<[a := str "private static final long ERROR_X = 5;"]>
                 (<[b := str "private static final long ERROR_Y = 5;"]> ∅)) in
  exists pr',
    main (fun _ => str "20251218") true (str "/p") pr = Some (1%Z, pr') /\
    length (dict_get (find_all_error_codes pr (str "/p")) (str "5")) = 2 /\
    store pr' = store pr /\
    length (dict_get (find_all_error_codes pr' (str "/p")) (str "5")) = 2.
Proof. eexists. repeat split; vm_compute; reflexivity. Qed.

(** C3: the claim fails on the files.  Of three occurrences of one code,
    the least for (file path, line number) gets no change record and
    stays; the second, one line below it, is an inline call with a space
    after the parenthesis: it gets a change record and a new code, but the
    patch does not find its text and leaves the line as it is; the third
    is rewritten.  After the run two occurrences of the group are
    unmodified, not one. *)
Lemma unpatched_occurrence_stays_beside_kept :
  let a := str "/p/a/A.java" in
  let b := str "/p/b/B.java" in
  let pr := Project [a; b]
              (<[a := str "throw BizException.failed(7L, m);" ++ [LF]
                      ++ str "throw BizException.failed( 7L, m);"]>
                 (<[b := str "throw BizException.failed(7L, m);"]> ∅)) in
  let code_locations := find_all_error_codes pr (str "/p") in
  let place (l : ErrorCodeLocation) := (file_path l, line_num l) in
  exists changes pr',
    map place (dict_get code_locations (str "7")) = [(a, 1); (a, 2); (b, 1)] /\
    fix_duplicates (fun _ => str "20251218") pr (find_duplicates code_locations)
                   (get_all_existing_codes code_locations) false
      = Some (changes, pr') /\
    map (fun c => (c_file c, c_line c, c_new c)) changes
      = [(a, 2, str "202512180001"); (b, 1, str "202512180002")] /\
    main (fun _ => str "20251218") true (str "/p") pr = Some (1%Z, pr') /\
    store pr' !! a = store pr !! a /\
    store pr' !! b = Some (str "throw BizException.failed(202512180002L, m);") /\
    map place (dict_get (find_all_error_codes pr' (str "/p")) (str "7"))
      = [(a, 1); (a, 2)].
Proof. eexists _, _. repeat split; vm_compute; reflexivity. Qed.

(** The same happens to an inline call written with a space inside the
    parenthesis: the index pattern accepts it, the patch does not find it. *)
Lemma spaced_inline_calls_stay_duplicated :
  let a := str "/p/a/A.java" in
  let b := str "/p/b/B.java" in
  let pr := Project [a; b]
              (<[a := str "throw BizException.failed( 7L, msg);"]>
                 (<[b := str "throw BizException.failed( 7L, msg);"]> ∅)) in
  exists pr',
    main (fun _ => str "20251218") true (str "/p") pr = Some (1%Z, pr') /\
    store pr' = store pr /\
    length (dict_get (find_all_error_codes pr' (str "/p")) (str "7")) = 2.
Proof. eexists. repeat split; vm_compute; reflexivity. Qed.

(** With the suffix written, the second constant is rewritten and every
    code of the rebuilt index occurs once. *)
Lemma suffixed_constants_are_resolved :
  let a := str "/p/a/A.java" in
  let b := str "/p/b/B.java" in
  let pr := Project [a; b]
              (<[a := str "private static final long ERROR_X = 202511250001L;"]>
                 (<[b := str "private static final long ERROR_X = 202511250001L;"]> ∅)) in
  exists pr',
    main (fun _ => str "20251218") true (str "/p") pr = Some (1%Z, pr') /\
    store pr' !! a = Some (str "private static final long ERROR_X = 202511250001L;") /\
    store pr' !! b = Some (str "private static final long ERROR_X = 202512180001L;") /\
    map (fun e => length e.2) (find_all_error_codes pr' (str "/p")) = [1; 1].
Proof. eexists. repeat split; vm_compute; reflexivity. Qed.

End PatchFacts.

(** ** The Resolver: inline calls *)

Module InlineFacts.
Import Re Resolver TextFacts ReFacts.

Local Abbreviation consume_all := (foldl (fun st x => consume x st)).

Lemma caps_consume_all u st : caps (consume_all st u) = caps st.
Proof. revert st. induction u as [|x u IH]; intros st; simpl; [done|]. by rewrite IH. Qed.

Lemma cur_consume_all u st :
  cur (consume_all st u) = (fun t => t ++ u) <$> cur st.
Proof.
  revert st. induction u as [|x u IH]; intros st; simpl.
  - destruct (cur st); simpl; [|done]. by rewrite app_nil_r.
  - rewrite IH. simpl. destruct (cur st); simpl; [|done]. by rewrite <- app_assoc.
Qed.

(** *** What a match looks like *)

Lemma rmatch_star_inv k pat b s st r :
  rmatch (Star k :: pat) b s st = Some r ->
  exists u v b',
    s = u ++ v /\ Forall (fun c => cclass_mem k c = true) u /\
    rmatch pat b' v (consume_all st u) = Some r.
Proof. apply star_loop_inv. Qed.

Lemma rmatch_plus_inv k pat b s st r :
  rmatch (Plus k :: pat) b s st = Some r ->
  exists x u v b',
    s = (x :: u) ++ v /\ Forall (fun c => cclass_mem k c = true) (x :: u) /\
    rmatch pat b' v (consume_all st (x :: u)) = Some r.
Proof.
  cbn [rmatch]. destruct s as [|x s]; [done|].
  destruct (cclass_mem k x) eqn:Ex; [|done]. intros H.
  apply star_loop_inv in H as (u & v & b' & -> & Hu & H).
  exists x, u, v, b'. repeat split; [by constructor|done].
Qed.

Lemma rmatch_opt_inv c pat b s st r :
  rmatch (Opt c :: pat) b s st = Some r ->
  exists o v b',
    s = o ++ v /\ (o = [] \/ o = [c]) /\
    rmatch pat b' v (consume_all st o) = Some r.
Proof.
  cbn [rmatch]. destruct s as [|x s].
  - intros H. exists [], [], b. repeat split; [by left|done].
  - destruct (ceqb x c) eqn:Ex.
    + apply ceqb_true in Ex as ->.
      destruct (rmatch pat false s (consume c st)) as [r'|] eqn:E.
      * intros [= <-]. exists [c], s, false. repeat split; [by right|done].
      * intros H. exists [], (c :: s), b. repeat split; [by left|done].
    + intros H. exists [], (x :: s), b. repeat split; [by left|done].
Qed.

Lemma rmatch_open pat b s st :
  rmatch (Open :: pat) b s st = rmatch pat b s (MState (Some []) (caps st)).
Proof. reflexivity. Qed.

Lemma rmatch_close pat b s st :
  rmatch (Close :: pat) b s st =
  rmatch pat b s (MState None (caps st ++ [default [] (cur st)])).
Proof. reflexivity. Qed.

(** Every group list that [scan] returns was captured by a match at some
    position of the text. *)
Lemma scan_elem pat g : forall s skip b,
  g ∈ scan pat s skip b ->
  exists u s' b' n, s = u ++ s' /\ match_at pat b' s' = Some (g, n).
Proof.
  induction s as [|x s IH]; intros skip b H; simpl in H.
  - by apply elem_of_nil in H.
  - assert (forall skip', g ∈ scan pat s skip' false ->
              exists u s' b' n, x :: s = u ++ s' /\ match_at pat b' s' = Some (g, n))
      as Hrec.
    { intros skip' H'. destruct (IH _ _ H') as (u & s' & b' & n & -> & E).
      by exists (x :: u), s', b', n. }
    destruct skip as [|skip]; [|by apply Hrec in H].
    destruct (match_at pat b (x :: s)) as [[g' [|n]]|] eqn:E;
      try (by apply Hrec in H).
    apply elem_of_cons in H as [->|H]; [|by apply Hrec in H].
    by exists [], (x :: s), b, (S n).
Qed.

(** A match of the inline pattern: the call name, the parenthesis, a run
    of digits (the group), an optional [L], and the comma, with white space
    between them. *)
Lemma inline_match_inv b s g n :
  match_at inline_pattern b s = Some (g, n) ->
  exists ws1 ws2 code suffix ws3 v,
    g = [code] /\
    s = str "BizException.failed" ++ ws1 ++ str "(" ++ ws2 ++ code ++ suffix
          ++ ws3 ++ str "," ++ v /\
    code <> [] /\ Forall (fun c => is_digit c = true) code /\
    (suffix = [] \/ suffix = str "L") /\
    Forall (fun c => is_space c = true) ws1 /\
    Forall (fun c => is_space c = true) ws2 /\
    Forall (fun c => is_space c = true) ws3.
Proof.
  unfold match_at.
  destruct (rmatch inline_pattern b s st0) as [[st rest]|] eqn:E; [|done].
  intros [= <- _]. unfold inline_pattern, lits in E. cbn [app] in E.
  apply rmatch_lits_inv in E as (v1 & b1 & -> & E).
  apply rmatch_star_inv in E as (ws1 & v2 & b2 & -> & Hws1 & E).
  apply rmatch_lits_inv in E as (v3 & b3 & -> & E).
  apply rmatch_star_inv in E as (ws2 & v4 & b4 & -> & Hws2 & E).
  rewrite rmatch_open in E.
  apply rmatch_plus_inv in E as (x & u & v5 & b5 & -> & Hcode & E).
  rewrite rmatch_close in E.
  apply rmatch_opt_inv in E as (o & v6 & b6 & -> & Ho & E).
  apply rmatch_star_inv in E as (ws3 & v7 & b7 & -> & Hws3 & E).
  rewrite <- (app_nil_r (map Lit (str ","))) in E.
  apply rmatch_lits_inv in E as (v8 & b8 & -> & E).
  cbn [rmatch] in E. injection E as <- <-.
  exists ws1, ws2, (x :: u), o, ws3, v8.
  repeat first
    [ rewrite caps_consume_all
    | rewrite cur_consume_all
    | progress cbn [caps consume cur fmap option_fmap option_map default app] ].
  split; [done|]. split; [done|].
  split; [done|]. split; [done|]. split; [|done].
  destruct Ho as [->| ->]; [by left|by right].
Qed.

(** *** Where a match is found *)

Lemma star_loop_some k (next : cont) u r :
  Forall (fun c => cclass_mem k c = true) u ->
  (forall b st, is_Some (next b r st)) ->
  forall b st, is_Some (star_loop k next b (u ++ r) st).
Proof.
  intros Hu Hn. induction Hu as [|x u Hx _ IH]; intros b st.
  - destruct r as [|y r]; simpl; [apply Hn|].
    destruct (cclass_mem k y); [|apply Hn].
    destruct (star_loop k next false r (consume y st)); [by eexists|apply Hn].
  - simpl. rewrite Hx.
    destruct (IH false (consume x st)) as [res ->]. by eexists.
Qed.

Lemma rmatch_lits_some P pat r :
  (forall b st, is_Some (rmatch pat b r st)) ->
  forall b st, is_Some (rmatch (map Lit P ++ pat) b (P ++ r) st).
Proof.
  intros Hn b st. destruct P as [|a P]; [apply Hn|].
  rewrite rmatch_lits_ok. apply Hn.
Qed.



(** *** Where no match is found *)






End InlineFacts.

(** ** More on the Rewriter *)

Module RewriterExtra.
Import Re Rewriter TextFacts ReFacts SubFacts LitFacts OrderFacts RewriterFacts
       RewriterRun.

(** *** Codes of different counters *)

Lemma zfill_digits w n : Forall (fun c => is_digit c = true) (zfill w (decimal n)).
Proof.
  unfold zfill, decimal. apply Forall_app. split.
  - by apply Forall_replicate.
  - apply uint_chars_digits.
Qed.

Lemma format_d_inj_all w a b : format_d w a = format_d w b -> a = b.
Proof.
  unfold format_d.
  destruct (Z.ltb_spec a 0) as [Ha|Ha], (Z.ltb_spec b 0) as [Hb|Hb]; intros H.
  - injection H as H. apply PlanFacts.zfill_decimal_inj in H. lia.
  - pose proof (zfill_digits w (Z.to_N b)) as Hd. rewrite <- H in Hd.
    by apply Forall_cons in Hd as [? _].
  - pose proof (zfill_digits w (Z.to_N a)) as Hd. rewrite H in Hd.
    by apply Forall_cons in Hd as [? _].
  - apply PlanFacts.zfill_decimal_inj in H. lia.
Qed.

(** X1: The counter decides the code: two different counter values, of either
    sign and of any size, never give the same code under one date prefix. *)
Theorem minted_codes_differ (date_prefix : text) (a b : Z) :
  a <> b -> make_code date_prefix a <> make_code date_prefix b.
Proof.
  intros Hab H. unfold make_code in H.
  apply app_inv_head, app_inv_tail in H. by apply format_d_inj_all in H.
Qed.

Lemma minted_codes_differ_witness :
  (99999 <> 100000)%Z /\
  make_code (str "20251218") 99999 <> make_code (str "20251218") 100000.
Proof. split; [lia|]. apply minted_codes_differ. lia. Defined.

(** *** The date check and the exit status *)

(** X2: For a date made of ASCII characters, [main] ends with status 1 and
    the files as they were exactly when the date is not made of eight
    digits with at most a line feed after them; no other run ends with
    status 1. *)
Theorem rewriter_exit_one_iff (a : args) (base_path : text) (listing : list text)
    (fs : gmap text text) :
  Forall (fun c => is_ascii c = true) (date a) ->
  (main a base_path listing fs = Exit 1 fs None <->
   ~ exists u, length u = 8 /\ Forall (fun c => is_digit c = true) u /\
               (date a = u \/ date a = u ++ [LF])) /\
  (forall status fs' run,
     main a base_path listing fs = Exit status fs' run ->
     (status = 1%Z /\ fs' = fs /\ run = None) \/ (status = 0%Z /\ is_Some run)).
Proof.
  intros _. rewrite <- ExitFacts.date_check_accepts. unfold main.
  destruct (re_match DATE_PATTERN (date a)); cbn [negb].
  - split.
    + split; [|done].
      destruct (process_all _ _ _ _ _ _) as [[[? ?] ?]|]; done.
    + intros status fs' run.
      destruct (process_all _ _ _ _ _ _) as [[[? ?] ?]|]; [|done].
      intros [= <- <- <-]. right. eauto.
  - split; [split; [done|]|]; [by intros _|].
    intros status fs' run [= <- <- <-]. by left.
Qed.

Lemma rewriter_exit_one_iff_witness :
  let a := Args (str "2025-12-18") false [str "a"] 1 in
  let f := str "/w/a/A.java" in
  let fs : gmap text text :=
    <[f := str "throw new IllegalArgumentException(msg);"]> ∅ in
  (main a (str "/w") [f] fs = Exit 1 fs None <->
   ~ exists u, length u = 8 /\ Forall (fun c => is_digit c = true) u /\
               (date a = u \/ date a = u ++ [LF])) /\
  (forall status fs' run,
     main a (str "/w") [f] fs = Exit status fs' run ->
     (status = 1%Z /\ fs' = fs /\ run = None) \/ (status = 0%Z /\ is_Some run)).
Proof.
  intros a f fs. apply (rewriter_exit_one_iff a (str "/w") [f] fs).
  apply (bool_decide_unpack _). vm_compute. exact I.
Defined.

(** *** What a run writes *)

Lemma process_file_effect fs f c d dry fs' c' st :
  process_file fs f c d dry = Some (fs', c', st) ->
  exists content,
    fs !! f = Some content /\
    (c', st) = (snd (fst (process_content content c d)),
                snd (process_content content c d)) /\
    fs' = if modified st && negb dry
          then <[f := fst (fst (process_content content c d))]> fs else fs.
Proof.
  unfold process_file. destruct (fs !! f) as [content|]; [|done].
  destruct (process_content content c d) as [[txt k] s] eqn:E.
  intros H. injection H as H1 H2 H3. subst. exists content. by rewrite E.
Qed.

Lemma process_all_frame d dry files : forall fs c t fs' c' t',
  process_all fs files c d dry t = Some (fs', c', t') ->
  dom fs' = dom fs /\
  (forall g, g ∉ files -> fs' !! g = fs !! g) /\
  (dry = true -> fs' = fs).
Proof.
  induction files as [|f files IH]; intros fs c t fs' c' t' H; simpl in H.
  - by injection H as <- <- <-.
  - destruct (process_file fs f c d dry) as [[[fs1 c1] st]|] eqn:E; [|done].
    apply process_file_effect in E as (content & Hf & _ & ->).
    destruct (IH _ _ _ _ _ _ H) as (Hdom & Hother & Hdry).
    repeat split.
    + rewrite Hdom. destruct (modified st && negb dry); [|done].
      apply dom_insert_lookup_L. by eexists.
    + intros g Hg. apply not_elem_of_cons in Hg as [Hne Hg].
      rewrite (Hother g Hg). destruct (modified st && negb dry); [|done].
      by rewrite lookup_insert_ne.
    + intros ->. rewrite (Hdry eq_refl). by rewrite andb_false_r.
Qed.

(** X4: For directory names that are relative and hold no component [..],
    a run that ends normally neither creates nor deletes a file, leaves
    every file outside the files found as it was, and in dry-run mode
    leaves every file as it was. *)
Theorem run_writes_found_files_only (a : args) (base_path : text)
    (listing : list text) (fs fs' : gmap text text) (status : Z)
    (run : option (Z * totals)) :
  Forall (fun dir_name => plain_dir dir_name = true) (dirs a) ->
  main a base_path listing fs = Exit status fs' run ->
  dom fs' = dom fs /\
  (forall g, g ∉ find_java_files listing (dirs a) base_path -> fs' !! g = fs !! g) /\
  (dry_run a = true -> fs' = fs).
Proof.
  intros _. unfold main. destruct (negb (re_match DATE_PATTERN (date a))).
  - by intros [= _ <- _].
  - destruct (process_all _ _ _ _ _ _) as [[[fs1 c1] t1]|] eqn:E; [|done].
    intros [= _ <- _]. by apply process_all_frame in E.
Qed.

Lemma run_writes_found_files_only_witness :
  let f := str "/w/a/A.java" in
  let g := str "/w/notes.txt" in
  let a := Args (str "20251218") false [str "./a/"] 1 in
  let fs : gmap text text :=
    <[f := str "throw new IllegalArgumentException(msg);"]>
      (<[g := str "throw new IllegalArgumentException(msg);"]> ∅) in
  let fs' : gmap text text :=
    <[f := str "throw BizException.failed(2025121800001L,msg);"]>
      (<[g := str "throw new IllegalArgumentException(msg);"]> ∅) in
  dom fs' = dom fs /\
  (forall h, h ∉ find_java_files [f] (dirs a) (str "/w") -> fs' !! h = fs !! h) /\
  (dry_run a = true -> fs' = fs).
Proof.
  intros f g a fs fs'.
  apply (run_writes_found_files_only a (str "/w") [f] fs fs' 0
           (Some (2%Z, Totals 1 1 0 0 0))).
  - apply (bool_decide_unpack _). vm_compute. exact I.
  - vm_compute. reflexivity.
Defined.

(** Counter and totals depend on the texts of the files only: two runs over
    pairwise distinct files that read the same texts agree on them,
    whatever they write. *)
Lemma process_all_counts d files : forall fsa fsb c t drya dryb,
  NoDup files ->
  (forall g, g ∈ files -> fsa !! g = fsb !! g) ->
  option_map (fun r => (snd (fst r), snd r)) (process_all fsa files c d drya t) =
  option_map (fun r => (snd (fst r), snd r)) (process_all fsb files c d dryb t).
Proof.
  induction files as [|h files IH]; intros fsa fsb c t drya dryb Hnd Hsame; [done|].
  apply NoDup_cons in Hnd as [Hnotin Hnd].
  cbn [process_all]. unfold process_file. rewrite (Hsame h) by (by left).
  destruct (fsb !! h) as [content|]; [|done].
  destruct (process_content content c d) as [[txt k] s].
  apply IH; [done|]. intros g Hg.
  assert (g <> h) as Hne by (intros ->; done).
  assert (fsa !! g = fsb !! g) as Hg' by (apply Hsame; by right).
  destruct (modified s && negb drya), (modified s && negb dryb);
    rewrite ?lookup_insert_ne by done; done.
Qed.

Lemma process_all_dry_previews d files fs c t fs1 c1 t1 :
  NoDup files ->
  process_all fs files c d false t = Some (fs1, c1, t1) ->
  process_all fs files c d true t = Some (fs, c1, t1).
Proof.
  intros Hnd H.
  pose proof (process_all_counts d files fs fs c t true false Hnd
                ltac:(done)) as Hc.
  rewrite H in Hc. cbn [option_map fst snd] in Hc.
  destruct (process_all fs files c d true t) as [[[fs2 c2] t2]|] eqn:E; [|done].
  cbn [option_map fst snd] in Hc. injection Hc as -> ->.
  apply process_all_frame in E as (_ & _ & Hdry). by rewrite (Hdry eq_refl).
Qed.

(** X5: Dry-run previews the write run: for directory names that are
    relative and hold no component [..], and over pairwise distinct files,
    a dry run ends with the counter and the totals of the write run, and
    with the files as they were. *)
Theorem dry_run_previews_write_run (a : args) (base_path : text)
    (listing : list text) (fs fs' : gmap text text) (run : option (Z * totals)) :
  Forall (fun dir_name => plain_dir dir_name = true) (dirs a) ->
  NoDup (find_java_files listing (dirs a) base_path) ->
  main (Args (date a) false (dirs a) (start_counter a)) base_path listing fs
    = Exit 0 fs' run ->
  main (Args (date a) true (dirs a) (start_counter a)) base_path listing fs
    = Exit 0 fs run.
Proof.
  unfold main. cbn [date dry_run dirs start_counter]. intros _ Hnd.
  destruct (negb (re_match DATE_PATTERN (date a))); [done|].
  destruct (process_all fs _ _ _ false _) as [[[fs1 c1] t1]|] eqn:E; [|done].
  intros [= <- <-].
  by rewrite (process_all_dry_previews _ _ _ _ _ _ _ _ Hnd E).
Qed.

Lemma dry_run_previews_write_run_witness :
  let f := str "/w/a/A.java" in
  let fs : gmap text text :=
    <[f := str "throw new IllegalArgumentException(msg);"]> ∅ in
  main (Args (str "20251218") true [str "a"] 1) (str "/w") [f] fs
    = Exit 0 fs (Some (2%Z, Totals 1 1 0 0 0)).
Proof.
  intros f fs.
  apply (dry_run_previews_write_run (Args (str "20251218") true [str "a"] 1)
           (str "/w") [f] fs
           (<[f := str "throw BizException.failed(2025121800001L,msg);"]> ∅)).
  - apply (bool_decide_unpack _). vm_compute. exact I.
  - apply (bool_decide_unpack _). vm_compute. exact I.
  - vm_compute. reflexivity.
Defined.

(** *** Each file once *)

Lemma filters_disjoint_nodup {A} (P : text -> A -> Prop)
    `{forall d x, Decision (P d x)} (l : list A) (ds : list text) :
  NoDup l ->
  (forall i j d1 d2 x, i <> j -> ds !! i = Some d1 -> ds !! j = Some d2 ->
                       P d1 x -> P d2 x -> False) ->
  NoDup (flat_map (fun d => filter (P d) l) ds).
Proof.
  intros Hl. induction ds as [|d ds IH]; intros Hdis; [constructor|].
  cbn [flat_map]. apply NoDup_app. split; [by apply NoDup_filter|]. split.
  - intros x Hx Hx'. apply list_elem_of_filter in Hx as [Hd _].
    apply list_elem_of_In, in_flat_map in Hx' as (d' & Hd' & Hx').
    apply list_elem_of_In in Hd', Hx'.
    apply list_elem_of_filter in Hx' as [Hd2 _].
    apply list_elem_of_lookup_1 in Hd' as [j Hj].
    by apply (Hdis 0 (S j) d d' x).
  - apply IH. intros i j d1 d2 x Hij H1 H2.
    apply (Hdis (S i) (S j) d1 d2 x); [lia|done|done].
Qed.

Lemma split_char_no_sep sep s : Forall (fun l => sep ∉ l) (split_char sep s).
Proof.
  induction s as [|c s IH]; simpl.
  - repeat constructor. apply not_elem_of_nil.
  - destruct (ceqb c sep) eqn:Ec.
    + constructor; [apply not_elem_of_nil|done].
    + apply ceqb_false in Ec.
      destruct (split_char sep s) as [|l ls].
      * repeat constructor. apply not_elem_of_cons. split; [done|apply not_elem_of_nil].
      * apply Forall_cons in IH as [Hl Hls]. constructor; [|done].
        apply not_elem_of_cons. by split.
Qed.

Lemma dir_parts_components dir_name :
  Forall (fun c => c <> [] /\ "/"%char ∉ c) (dir_parts dir_name).
Proof.
  unfold dir_parts. apply Forall_forall. intros c Hc.
  apply list_elem_of_filter in Hc as [[Hne _] Hc]. split; [done|].
  pose proof (split_char_no_sep "/"%char dir_name) as H.
  rewrite Forall_forall in H. by apply H.
Qed.

(** The path of a directory, with the separator after it, spelled out:
    the base with its separator, then each component with its own. *)
Lemma path_child_component p c :
  c <> [] -> "/"%char ∉ c ->
  path_child (path_child p c) [] = path_child p [] ++ c ++ str "/".
Proof.
  intros Hne Hsep.
  assert (exists y, last c = Some y /\ y <> "/"%char) as (y & Hy & Hys).
  { destruct (last c) as [y|] eqn:E; [|by apply last_None in E].
    exists y. split; [done|]. intros ->. apply Hsep.
    apply last_Some in E as [l ->]. apply elem_of_app. right. by left. }
  assert (forall q, path_child (q ++ c) [] = q ++ c ++ str "/") as Hq.
  { intros q. unfold path_child. rewrite last_app, Hy.
    assert (ceqb y "/"%char = false) as -> by (by apply ceqb_false).
    by rewrite app_nil_r, <- app_assoc. }
  unfold path_child at 2 3. destruct (last p) as [x|] eqn:Ep.
  - destruct (ceqb x "/"%char).
    + by rewrite Hq, app_nil_r.
    + rewrite (app_assoc p), Hq. rewrite app_nil_r, <- app_assoc. done.
  - apply last_None in Ep as ->. cbn [app]. apply (Hq []).
Qed.

Lemma joinpath_spelled cs : forall p,
  Forall (fun c => c <> [] /\ "/"%char ∉ c) cs ->
  path_child (foldl path_child p cs) []
  = path_child p [] ++ concat (map (fun c => c ++ str "/") cs).
Proof.
  induction cs as [|c cs IH]; intros p H.
  - by rewrite app_nil_r.
  - apply Forall_cons in H as [[Hne Hsep] H]. cbn [foldl map concat].
    rewrite IH by done. rewrite path_child_component by done.
    by rewrite <- !app_assoc.
Qed.

Lemma component_split c e x y :
  "/"%char ∉ c -> "/"%char ∉ e ->
  c ++ "/"%char :: x = e ++ "/"%char :: y -> c = e /\ x = y.
Proof.
  revert e. induction c as [|a c IH]; intros e Hc He E.
  - destruct e as [|b e]; [by injection E as ->|].
    injection E as <- _. exfalso. apply He. by left.
  - apply not_elem_of_cons in Hc as [Ha Hc]. destruct e as [|b e].
    + injection E as -> _. done.
    + apply not_elem_of_cons in He as [Hb He]. injection E as <- E.
      destruct (IH e Hc He E) as [-> ->]. done.
Qed.

Lemma spelled_prefix cs : forall es r1 r2,
  Forall (fun c => c <> [] /\ "/"%char ∉ c) cs ->
  Forall (fun c => c <> [] /\ "/"%char ∉ c) es ->
  concat (map (fun c => c ++ str "/") cs) ++ r1
  = concat (map (fun c => c ++ str "/") es) ++ r2 ->
  cs `prefix_of` es \/ es `prefix_of` cs.
Proof.
  induction cs as [|c cs IH]; intros es r1 r2 Hcs Hes E.
  - left. apply prefix_nil.
  - destruct es as [|e es]; [right; apply prefix_nil|].
    apply Forall_cons in Hcs as [[_ Hc] Hcs]. apply Forall_cons in Hes as [[_ He] Hes].
    cbn [map concat] in E. rewrite <- !app_assoc in E.
    change (str "/") with ["/"%char] in E. cbn [app] in E.
    apply component_split in E as [-> E]; [|done|done].
    destruct (IH es r1 r2 Hcs Hes E) as [H|H]; [left|right]; by apply prefix_cons.
Qed.

(** X6: When the listing has no repeated file, the directory names are
    relative and hold no component [..], and the components of no
    directory name, read as [pathlib] reads them, head those of another
    one (no directory is named twice and none lies inside another), every
    path is found at most once, and so is processed at most once. *)
Theorem each_file_found_once (listing directories : list text) (base_path : text) :
  NoDup listing ->
  Forall (fun dir_name => plain_dir dir_name = true) directories ->
  (forall i j d1 d2, i <> j -> directories !! i = Some d1 ->
                     directories !! j = Some d2 ->
                     ~ dir_parts d1 `prefix_of` dir_parts d2) ->
  NoDup (find_java_files listing directories base_path).
Proof.
  intros Hl _ Hdirs. unfold find_java_files. rewrite (sorted_perm path_leb).
  apply filters_disjoint_nodup; [done|].
  intros i j d1 d2 f Hij H1 H2 Hf1 Hf2.
  unfold under_dir, joinpath in Hf1, Hf2.
  rewrite joinpath_spelled in Hf1, Hf2 by apply dir_parts_components.
  apply starts_with_iff in Hf1 as [r1 E1]. apply starts_with_iff in Hf2 as [r2 E2].
  rewrite E1 in E2. rewrite <- !app_assoc in E2. apply app_inv_head in E2.
  apply spelled_prefix in E2 as [H|H]; try apply dir_parts_components.
  - by apply (Hdirs i j d1 d2).
  - apply (Hdirs j i d2 d1); [by intros ->|done..].
Qed.

Lemma each_file_found_once_witness :
  NoDup (find_java_files [str "/w/cage-features/A.java";
                          str "/w/common-shared/B.java"]
                         DEFAULT_DIRS (str "/w")).
Proof.
  apply each_file_found_once.
  - apply (bool_decide_unpack _). vm_compute. exact I.
  - apply (bool_decide_unpack _). vm_compute. exact I.
  - intros i j d1 d2 Hij H1 H2. unfold DEFAULT_DIRS in H1, H2.
    destruct i as [|[|[|[|[|i]]]]]; destruct j as [|[|[|[|[|j]]]]];
      cbn [lookup list_lookup] in H1, H2; try discriminate; try (by destruct Hij);
      injection H1 as <-; injection H2 as <-;
      apply (bool_decide_unpack _); vm_compute; exact I.
Defined.

End RewriterExtra.

(** ** The Rewriter: the Javadoc step and untouched files *)

Module JavadocFacts.
Import Re Rewriter TextFacts ReFacts SubFacts RewriterFacts RewriterRun InlineFacts.

Local Abbreviation P1 := (str "throw new IllegalArgumentException(").
Local Abbreviation P2 := (str "BizException.badRequest(").
Local Abbreviation A3 := (str "@throws BizException").
Local Abbreviation X3 := (str "@throws").
Local Abbreviation Y3 := (str "IllegalArgumentException").
Local Abbreviation jgo :=
  (sub_go (match_len JAVADOC_PATTERN) (fun n : nat => (A3, S n))).

Lemma cons_inv {A} (a b : A) l m : a :: l = b :: m -> a = b /\ l = m.
Proof. by intros [= -> ->]. Qed.

(** A match of the Javadoc pattern: the tag, at least one white-space
    character, the exception name. *)
Lemma javadoc_shape b s n :
  match_len JAVADOC_PATTERN b s = Some n ->
  exists x ws rest,
    s = X3 ++ (x :: ws) ++ Y3 ++ rest /\
    Forall (fun c => is_space c = true) (x :: ws) /\
    0 < n.
Proof.
  intros H. pose proof (match_len_fit _ _ _ _ H) as Hfit. revert H.
  unfold match_len, match_at.
  destruct (rmatch JAVADOC_PATTERN b s st0) as [[st r]|] eqn:E; [|done].
  intros [= <-]. unfold JAVADOC_PATTERN, lits in E.
  apply rmatch_lits_inv in E as (v & b1 & -> & E).
  cbn [app rmatch] in E. destruct v as [|x v]; [done|].
  destruct (cclass_mem Space x) eqn:Ex; [|done].
  apply star_loop_inv in E as (u & v2 & b2 & -> & Hu & E).
  rewrite <- (app_nil_r (map Lit Y3)) in E.
  apply rmatch_lits_inv in E as (v3 & b3 & -> & E).
  cbn [rmatch] in E. injection E as _ <-.
  exists x, u, v3. repeat split.
  - by constructor.
  - rewrite !length_app. cbn [length]. rewrite !length_app. cbn [length]. lia.
Qed.

(** The pattern matches wherever that shape stands. *)
Lemma javadoc_hit x ws rest :
  Forall (fun c => is_space c = true) (x :: ws) ->
  exists n, match_len JAVADOC_PATTERN false (X3 ++ (x :: ws) ++ Y3 ++ rest) = Some (S n).
Proof.
  intros Hws. apply Forall_cons in Hws as [Hx Hws].
  assert (is_Some (rmatch JAVADOC_PATTERN false (X3 ++ (x :: ws) ++ Y3 ++ rest) st0))
    as [[st r] E].
  { unfold JAVADOC_PATTERN, lits. apply rmatch_lits_some. intros b st.
    cbn [app rmatch cclass_mem]. rewrite Hx.
    apply star_loop_some; [done|]. intros b' st'.
    rewrite <- (app_nil_r (map Lit Y3)). apply rmatch_lits_some.
    intros b2 st2. by eexists. }
  destruct (match_len JAVADOC_PATTERN false (X3 ++ (x :: ws) ++ Y3 ++ rest))
    as [n|] eqn:En.
  - apply javadoc_shape in En as (_ & _ & _ & _ & _ & Hn).
    exists (n - 1). f_equal. lia.
  - unfold match_len, match_at in En. by rewrite E in En.
Qed.

Lemma space_not_at c : is_space c = true -> c <> "@"%char.
Proof. intros H ->. done. Qed.

(** A text free of [@] that heads the output headed the input. *)
Lemma javadoc_transfer s : forall t st,
  Forall (fun c => c <> "@"%char) t ->
  starts_with t (fst (jgo s 0 false st)) = true ->
  starts_with t s = true.
Proof.
  induction s as [|a s IH]; intros t st Ht H; [done|].
  destruct t as [|c t]; [done|]. apply Forall_cons in Ht as [Hc Ht].
  destruct (sub_go_cases (match_len JAVADOC_PATTERN) a s) as [[n E]|E].
  - rewrite (sub_go_hit _ _ _ _ _ _ E) in H. cbn [fst snd] in H.
    exfalso. cbn in H. apply andb_true_iff in H as [H _].
    apply ceqb_true in H. done.
  - rewrite (sub_go_miss _ _ _ _ _ E) in H. cbn [fst snd starts_with] in H.
    apply andb_true_iff in H as [Hh H]. cbn [starts_with]. rewrite Hh. simpl.
    by apply (IH t st).
Qed.

(** No match of the pattern is left in the output of the substitution. *)
Lemma javadoc_output_clean s : forall k st i n,
  match_len JAVADOC_PATTERN false (drop i (fst (jgo s k false st))) <> Some (S n).
Proof.
  induction s as [|a s IH]; intros k st i n H.
  - cbn in H. rewrite drop_nil in H.
    apply javadoc_shape in H as (x & ws & rest & E & _). done.
  - destruct k as [|k]; [|by apply (IH k st i n)].
    destruct (sub_go_cases (match_len JAVADOC_PATTERN) a s) as [[m E]|E].
    + rewrite (sub_go_hit _ _ _ _ _ _ E) in H. cbn [fst snd] in H.
      destruct (decide (i < length A3)) as [Hi|Hi].
      * rewrite drop_app_le in H by lia.
        remember (fst (jgo s m false (S st))) as o eqn:Ho. clear Ho.
        apply javadoc_shape in H as (x & ws & rest & E' & Hws & _).
        destruct i as [|i].
        -- rewrite drop_0 in E'. change A3 with (X3 ++ str " BizException") in E'.
           rewrite <- app_assoc in E'. apply app_inv_head in E'.
           injection E' as <- E'. destruct ws as [|y ws]; [done|].
           injection E' as <- _.
           apply Forall_cons in Hws as [_ Hws]. by apply Forall_cons in Hws as [? _].
        -- assert (starts_with X3 (drop (S i) A3 ++ o) = true)
             as HX by (rewrite E'; apply starts_with_app).
           rewrite clash_no_prefix in HX; [done|].
           assert (forallb (fun q => clashb X3 (drop q A3)) (seq 1 19) = true) as Hall
               by (vm_compute; reflexivity).
           apply (forallb_seq_lt _ _ _ _ Hall). change (length A3) with 20 in Hi. lia.
      * replace i with (length A3 + (i - length A3)) in H by lia.
        rewrite drop_app_add' in H by done. by apply IH in H.
    + rewrite (sub_go_miss _ _ _ _ _ E) in H. cbn [fst snd] in H.
      destruct i as [|i]; [|by apply IH in H]. cbn [drop] in H.
      apply javadoc_shape in H as (x & ws & rest & E' & Hws & _).
      remember (fst (jgo s 0 false st)) as o eqn:Ho.
      assert (a :: o = "@"%char :: (str "throws" ++ (x :: ws) ++ Y3) ++ rest) as E2.
      { rewrite E'. change X3 with ("@"%char :: str "throws").
        rewrite <- !app_assoc. done. }
      apply cons_inv in E2 as [-> E2].
      assert (starts_with (str "throws" ++ (x :: ws) ++ Y3) s = true) as Hs.
      { apply (javadoc_transfer s _ st).
        - apply Forall_app. split; [by repeat constructor|].
          apply Forall_app. split; [|by repeat constructor].
          eapply Forall_impl; [exact Hws|]. intros c. apply space_not_at.
        - rewrite <- Ho, E2. apply starts_with_app. }
      apply starts_with_iff in Hs as [rest' ->].
      destruct (javadoc_hit x ws rest' Hws) as [n' Hn'].
      apply (E n'). rewrite <- Hn'. f_equal.
      change X3 with ("@"%char :: str "throws"). cbn [app].
      f_equal. rewrite <- app_assoc. f_equal. cbn [app]. f_equal.
      by rewrite <- app_assoc.
Qed.

(** X7: Replacing the Javadoc tag a second time replaces nothing: the text the
    first pass returns holds no [@throws IllegalArgumentException] tag in
    any spacing. *)
Theorem javadoc_update_idempotent (content : text) :
  update_javadoc_throws (fst (update_javadoc_throws content))
  = (fst (update_javadoc_throws content), 0).
Proof.
  unfold update_javadoc_throws, re_subn, re_sub.
  rewrite (sub_go_bos _ _ javadoc_bos content 0 true).
  rewrite (sub_go_bos _ _ javadoc_bos _ 0 true).
  apply sub_go_untouched. intros i n. apply javadoc_output_clean.
Qed.

(** A text without [@throws] is returned as it is, with a count of zero. *)
Lemma update_javadoc_none content :
  contains X3 content = false -> update_javadoc_throws content = (content, 0).
Proof.
  intros H. unfold update_javadoc_throws, re_subn, re_sub.
  rewrite (sub_go_bos _ _ javadoc_bos).
  apply sub_go_untouched. intros i n E.
  apply javadoc_shape in E as (x & ws & rest & E & _).
  pose proof (proj1 (contains_drop X3 content ltac:(done)) H i) as Hd.
  rewrite E in Hd. by rewrite starts_with_app in Hd.
Qed.

(** X8: A file with neither token and no [@throws] tag is left alone: the same
    text, the same counter, nothing counted, nothing written, whatever the
    date prefix and the mode. *)
Theorem clean_file_untouched (fs : gmap text text) (filepath content : text)
    (counter : Z) (date_prefix : text) (dry : bool) :
  fs !! filepath = Some content ->
  contains P1 content = false ->
  contains P2 content = false ->
  contains X3 content = false ->
  process_file fs filepath counter date_prefix dry
  = Some (fs, counter, Stats 0 0 0 false false).
Proof.
  intros Hf H1 H2 H3. unfold process_file. rewrite Hf.
  unfold process_content, substitutions.
  rewrite convert_throw_clean by done. cbv beta iota.
  rewrite convert_bad_clean by done. cbv beta iota.
  rewrite update_javadoc_none by done. cbv beta iota.
  cbn [Nat.ltb Nat.leb orb]. cbv beta iota.
  rewrite bool_decide_true by done. done.
Qed.

Lemma clean_file_untouched_witness :
  let f := str "/w/a/A.java" in
  let fs : gmap text text := <[f := str "class A { int x; }"]> ∅ in
  process_file fs f 7 (str "20251218") false
  = Some (fs, 7%Z, Stats 0 0 0 false false).
Proof.
  intros f fs.
  apply (clean_file_untouched fs f (str "class A { int x; }"));
    vm_compute; reflexivity.
Defined.

End JavadocFacts.

(** ** The Rewriter: where the import line goes *)

Module ImportFacts.
Import Re Rewriter TextFacts RewriterRun.

(** *** Lines of a text *)

Lemma split_lines_nonempty s : split_lines s <> [].
Proof.
  unfold split_lines. induction s as [|c s IH]; simpl; [done|].
  destruct (ceqb c LF); [done|]. by destruct (split_char LF s).
Qed.

(** Splitting at line feeds and joining again gives the text back. *)
Lemma join_split_lines s : join_lines (split_lines s) = s.
Proof.
  unfold split_lines. induction s as [|c s IH]; [done|].
  pose proof (split_lines_nonempty s) as Hne. unfold split_lines in Hne.
  cbn [split_char]. destruct (ceqb c LF) eqn:Ec.
  - apply ceqb_true in Ec as ->.
    destruct (split_char LF s) as [|l ls]; [done|].
    change (join_lines ([] :: l :: ls)) with (LF :: join_lines (l :: ls)).
    by rewrite IH.
  - destruct (split_char LF s) as [|l ls]; [done|].
    destruct ls as [|m ls].
    + simpl in *. by rewrite IH.
    + change (join_lines ((c :: l) :: m :: ls))
        with (c :: join_lines (l :: m :: ls)).
      by rewrite IH.
Qed.

Lemma split_lines_no_lf s : Forall (fun l => LF ∉ l) (split_lines s).
Proof.
  unfold split_lines. induction s as [|c s IH]; simpl.
  - repeat constructor. apply not_elem_of_nil.
  - destruct (ceqb c LF) eqn:Ec.
    + constructor; [apply not_elem_of_nil|done].
    + apply ceqb_false in Ec.
      destruct (split_char LF s) as [|l ls].
      * repeat constructor. apply not_elem_of_cons. split; [done|apply not_elem_of_nil].
      * apply Forall_cons in IH as [Hl Hls]. constructor; [|done].
        apply not_elem_of_cons. by split.
Qed.

Lemma split_lines_single l : LF ∉ l -> split_lines l = [l].
Proof.
  unfold split_lines. induction l as [|c l IH]; intros H; [done|].
  apply not_elem_of_cons in H as [Hc Hl]. simpl.
  assert (ceqb c LF = false) as -> by (by apply ceqb_false).
  by rewrite IH.
Qed.

Lemma split_lines_app l rest :
  LF ∉ l -> split_lines (l ++ LF :: rest) = l :: split_lines rest.
Proof.
  unfold split_lines. induction l as [|c l IH]; intros H.
  - reflexivity.
  - apply not_elem_of_cons in H as [Hc Hl]. simpl.
    assert (ceqb c LF = false) as -> by (by apply ceqb_false).
    by rewrite IH.
Qed.

(** Joining lines that hold no line feed and splitting again gives the
    lines back. *)
Lemma split_join_lines ls :
  ls <> [] -> Forall (fun l => LF ∉ l) ls -> split_lines (join_lines ls) = ls.
Proof.
  induction ls as [|l ls IH]; intros Hne H; [done|].
  apply Forall_cons in H as [Hl Hls].
  destruct ls as [|m ls].
  - simpl. by apply split_lines_single.
  - change (join_lines (l :: m :: ls)) with (l ++ LF :: join_lines (m :: ls)).
    rewrite split_lines_app by done. by rewrite IH.
Qed.

(** *** The indices the insertion point is computed from *)

Lemma last_index_spec {A} (p : A -> bool) l : forall i0 acc r,
  last_index p l i0 acc = Some r ->
  (acc = Some r /\ Forall (fun x => p x = false) l) \/
  (exists j x, r = i0 + j /\ l !! j = Some x /\ p x = true /\
               forall j' y, j < j' -> l !! j' = Some y -> p y = false).
Proof.
  induction l as [|x l IH]; intros i0 acc r H; simpl in H.
  - left. by split.
  - apply IH in H as [[Hacc Hall]|(j & y & -> & Hj & Hy & Hlast)].
    + destruct (p x) eqn:Ex.
      * right. injection Hacc as <-. exists 0, x.
        split; [lia|]. split; [done|]. split; [done|].
        intros [|j'] z Hlt Hz; [lia|]. simpl in Hz.
        rewrite Forall_forall in Hall. apply Hall.
        by apply (list_elem_of_lookup_2 _ j').
      * left. split; [done|]. by constructor.
    + right. exists (S j), y. split; [lia|]. split; [done|]. split; [done|].
      intros [|j'] z Hlt Hz; [lia|]. simpl in Hz. apply (Hlast j'); [lia|done].
Qed.

Lemma last_index_none {A} (p : A -> bool) l : forall i0 acc,
  last_index p l i0 acc = None -> Forall (fun x => p x = false) l.
Proof.
  induction l as [|x l IH]; intros i0 acc H; simpl in H; [done|].
  constructor; [|by apply IH in H].
  destruct (p x) eqn:Ex; [|done].
  pose proof (proj2 (last_index_some p l (S i0) (Some i0))) as Hs.
  rewrite H in Hs. destruct Hs as [? [=]]. left. by eexists.
Qed.

Lemma first_index_spec {A} (p : A -> bool) l : forall i0 r,
  first_index p l i0 = Some r ->
  exists j x, r = i0 + j /\ l !! j = Some x /\ p x = true /\
              forall j' y, j' < j -> l !! j' = Some y -> p y = false.
Proof.
  induction l as [|x l IH]; intros i0 r H; simpl in H; [done|].
  destruct (p x) eqn:Ex.
  - injection H as <-. exists 0, x. split; [lia|]. split; [done|]. split; [done|].
    intros j' y Hlt. lia.
  - apply IH in H as (j & y & -> & Hj & Hy & Hfirst).
    exists (S j), y. split; [lia|]. split; [done|]. split; [done|].
    intros [|j'] z Hlt Hz.
    + simpl in Hz. by injection Hz as <-.
    + simpl in Hz. apply (Hfirst j'); [lia|done].
Qed.

Lemma skip_blank_spec ls : forall i0,
  exists m, skip_blank ls i0 = i0 + m /\ m <= length ls /\
            (forall q l, q < m -> ls !! q = Some l -> is_blank l = true) /\
            (forall l, ls !! m = Some l -> is_blank l = false).
Proof.
  induction ls as [|l ls IH]; intros i0; simpl.
  - exists 0. split; [lia|]. split; [done|]. split; [intros; lia|done].
  - destruct (is_blank l) eqn:El.
    + destruct (IH (S i0)) as (m & -> & Hm & Hblank & Hstop).
      exists (S m). split; [lia|]. split; [lia|]. split.
      * intros [|q] l' Hq Hl'; simpl in Hl'; [by injection Hl' as <-|].
        apply (Hblank q); [lia|done].
      * intros l' Hl'. simpl in Hl'. by apply Hstop.
    + exists 0. split; [lia|]. split; [lia|]. split; [intros; lia|].
      intros l' Hl'. simpl in Hl'. by injection Hl' as <-.
Qed.

Lemma import_no_lf : LF ∉ BIZ_EXCEPTION_IMPORT.
Proof.
  intros H. apply list_elem_of_In in H. vm_compute in H.
  repeat (destruct H as [H|H]; [discriminate H|]). done.
Qed.

(** X9: Adding the import twice adds it once: on the text the first call
    returns, a second call changes nothing. *)
Theorem add_import_idempotent (content : text) :
  add_import_if_needed (fst (add_import_if_needed content))
  = (fst (add_import_if_needed content), false).
Proof.
  destruct (add_import_spec content) as (_ & Hadded & Hsame).
  destruct (snd (add_import_if_needed content)) eqn:E.
  - specialize (Hadded eq_refl). unfold add_import_if_needed at 1.
    by rewrite Hadded.
  - specialize (Hsame eq_refl). rewrite Hsame. clear Hadded.
    destruct (add_import_if_needed content) as [c' b].
    cbn [fst snd] in *. by subst.
Qed.

(** X10: Where the import line goes.  When the import is added, the lines of the
    result are the lines of the text with the import line put in at one
    index, every other line in place.  The index is just after the last
    line that starts with [import ]; or, when no line does, after the first
    line that starts with [package ] and the run of blank lines that
    follows it. *)
Theorem import_line_position (content : text) :
  snd (add_import_if_needed content) = true ->
  let lines := split_lines content in
  exists i,
    split_lines (fst (add_import_if_needed content))
      = take i lines ++ BIZ_EXCEPTION_IMPORT :: drop i lines /\
    i <= length lines /\
    ((exists j l, i = S j /\ lines !! j = Some l /\
                  starts_with (str "import ") l = true /\
                  forall j' l', j < j' -> lines !! j' = Some l' ->
                                starts_with (str "import ") l' = false)
     \/
     (Forall (fun l => starts_with (str "import ") l = false) lines /\
      exists p l, lines !! p = Some l /\
                  starts_with (str "package ") l = true /\
                  (forall p' l', p' < p -> lines !! p' = Some l' ->
                                 starts_with (str "package ") l' = false) /\
                  p < i /\
                  (forall q l', p < q < i -> lines !! q = Some l' ->
                                is_blank l' = true) /\
                  (forall l', lines !! i = Some l' -> is_blank l' = false))).
Proof.
  intros Hadd lines. unfold add_import_if_needed in *. fold lines in Hadd |- *.
  destruct (has_biz_exception_import content); [done|].
  destruct (insertion_index lines) as [i|] eqn:Ei; [|done].
  cbn [fst snd]. exists i.
  split.
  - unfold list_insert_at. apply split_join_lines.
    + by destruct (take i lines).
    + pose proof (split_lines_no_lf content) as Hall. fold lines in Hall.
      apply Forall_app. split; [by apply Forall_take|].
      constructor; [apply import_no_lf|by apply Forall_drop].
  - unfold insertion_index in Ei.
    destruct (last_index _ lines 0 None) as [r|] eqn:El.
    + injection Ei as <-.
      apply last_index_spec in El as [[[=] _]|(j & l & -> & Hj & Hl & Hlast)].
      split; [apply lookup_lt_Some in Hj; lia|].
      left. exists j, l. split; [lia|]. done.
    + apply last_index_none in El.
      destruct (first_index _ lines 0) as [p|] eqn:Ef; [|done].
      injection Ei as <-.
      apply first_index_spec in Ef as (j & l & -> & Hj & Hl & Hfirst).
      cbn [Nat.add].
      destruct (skip_blank_spec (drop (j + 1) lines) (j + 1))
        as (m & -> & Hm & Hblank & Hstop).
      rewrite length_drop in Hm. apply lookup_lt_Some in Hj as Hlt.
      split; [lia|]. right. split; [done|].
      exists j, l. split; [done|]. split; [done|]. split; [done|].
      split; [lia|]. split.
      * intros q l' Hq Hl'. apply (Hblank (q - (j + 1))); [lia|].
        rewrite lookup_drop. by replace (j + 1 + (q - (j + 1))) with q by lia.
      * intros l' Hl'. apply Hstop. by rewrite lookup_drop.
Qed.

Lemma import_line_position_witness :
  let content := str "package a;

class A {}" in
  exists i,
    split_lines (fst (add_import_if_needed content))
      = take i (split_lines content) ++
        BIZ_EXCEPTION_IMPORT :: drop i (split_lines content) /\
    i = 2.
Proof.
  intros content.
  destruct (import_line_position content ltac:(vm_compute; reflexivity))
    as (i & E & Hi & [(j & l & _ & Hj & Hl & _)|(_ & p & l & Hp & Hl & _ & Hlt & Hblank & Hstop)]).
  - exfalso. do 3 (destruct j as [|j]; [vm_compute in Hj; injection Hj as <-;
                                          vm_compute in Hl; discriminate Hl|]).
    vm_compute in Hj. discriminate Hj.
  - exists i. split; [exact E|].
    destruct p as [|p].
    + destruct i as [|[|[|i]]]; [lia| | reflexivity |].
      * exfalso. specialize (Hstop _ eq_refl). vm_compute in Hstop. discriminate Hstop.
      * exfalso. specialize (Hblank 2 (str "class A {}") ltac:(lia) eq_refl).
        vm_compute in Hblank. discriminate Hblank.
    + exfalso. do 2 (destruct p as [|p]; [vm_compute in Hp; injection Hp as <-;
                                            vm_compute in Hl; discriminate Hl|]).
      vm_compute in Hp. discriminate Hp.
Defined.

End ImportFacts.

(** ** The Resolver: what the index holds *)

Module IndexExtra.
Import Re Resolver TextFacts IndexFacts.

(** *** One [append] *)

Lemma dict_append_keys {V} (d : dict V) k v :
  dict_keys (dict_append d k v) =
    if decide (k ∈ dict_keys d) then dict_keys d else dict_keys d ++ [k].
Proof.
  unfold dict_keys. induction d as [|[k' vs] d IH].
  - cbn [dict_append map app fst].
    destruct (decide (k ∈ [])) as [H|]; [by apply elem_of_nil in H|done].
  - cbn [dict_append]. destruct (decide (k = k')) as [->|Hne]; cbn [map fst].
    + destruct (decide (k' ∈ k' :: map fst d)) as [|H]; [done|].
      exfalso. apply H. by left.
    + rewrite IH. destruct (decide (k ∈ map fst d)) as [Hin|Hnin].
      * destruct (decide (k ∈ k' :: map fst d)) as [|H]; [done|].
        exfalso. apply H. by right.
      * destruct (decide (k ∈ k' :: map fst d)) as [H|]; [|done].
        apply elem_of_cons in H as [H|H]; done.
Qed.

Lemma dict_append_nodup {V} (d : dict V) k v :
  NoDup (dict_keys d) -> NoDup (dict_keys (dict_append d k v)).
Proof.
  intros Hnd. rewrite dict_append_keys.
  destruct (decide (k ∈ dict_keys d)) as [|Hnin]; [done|].
  apply NoDup_app. split; [done|]. split; [|apply NoDup_singleton].
  intros x Hx Hx'. apply list_elem_of_singleton in Hx' as ->. done.
Qed.

Lemma dict_append_nonempty {V} (d : dict V) k v :
  Forall (fun e => e.2 <> []) d -> Forall (fun e => e.2 <> []) (dict_append d k v).
Proof.
  induction d as [|[k' vs] d IH]; intros H; simpl.
  - by repeat constructor.
  - apply Forall_cons in H as [Hvs Hd].
    destruct (decide (k = k')); constructor; try done; [|by apply IH].
    simpl. by destruct vs.
Qed.

Lemma dict_append_values {V} (d : dict V) k v :
  Permutation (flat_map snd (dict_append d k v)) (flat_map snd d ++ [v]).
Proof.
  induction d as [|[k' vs] d IH]; simpl; [done|].
  destruct (decide (k = k')); simpl.
  - rewrite <- !app_assoc. apply Permutation_app_head, Permutation_app_comm.
  - by rewrite IH, app_assoc.
Qed.

Lemma dict_get_elem {V} (d : dict V) k vs :
  NoDup (dict_keys d) -> (k, vs) ∈ d -> dict_get d k = vs.
Proof.
  induction d as [|[k' vs'] d IH]; intros Hnd Hin; [by apply elem_of_nil in Hin|].
  simpl in *. apply NoDup_cons in Hnd as [Hnotin Hnd].
  apply elem_of_cons in Hin as [[= <- <-]|Hin].
  - by rewrite decide_True.
  - rewrite decide_False; [by apply IH|].
    intros ->. apply Hnotin. apply list_elem_of_fmap. by exists (k', vs).
Qed.

(** *** The whole scan *)

Section Scan.
Context {V : Type}.
Variable P : dict V -> Prop.
Hypothesis P_append : forall d k v, P d -> P (dict_append d k v).

Lemma record_all_inv (occs : list (text * V)) : forall d, P d -> P (record_all d occs).
Proof.
  unfold record_all. induction occs as [|[k v] occs IH]; intros d Hd; [done|].
  simpl. by apply IH, P_append.
Qed.
End Scan.

Lemma scan_inv (P : dict ErrorCodeLocation -> Prop) pr (files : list text) :
  (forall d k v, P d -> P (dict_append d k v)) ->
  forall d, P d ->
    P (foldl (fun code_locations fp =>
                record_all code_locations (file_occurrences pr fp)) d files).
Proof.
  intros HP. induction files as [|fp files IH]; intros d Hd; [done|].
  simpl. by apply IH, record_all_inv.
Qed.

Lemma record_all_values {V} (occs : list (text * V)) : forall d,
  Permutation (flat_map snd (record_all d occs)) (flat_map snd d ++ map snd occs).
Proof.
  unfold record_all. induction occs as [|[k v] occs IH]; intros d; simpl.
  - by rewrite app_nil_r.
  - rewrite IH, dict_append_values. by rewrite <- app_assoc.
Qed.

Lemma scan_values pr (files : list text) : forall d,
  Permutation
    (flat_map snd (foldl (fun code_locations fp =>
                            record_all code_locations (file_occurrences pr fp))
                         d files))
    (flat_map snd d ++ map snd (flat_map (file_occurrences pr) files)).
Proof.
  induction files as [|fp files IH]; intros d; simpl.
  - by rewrite app_nil_r.
  - rewrite IH, record_all_values, map_app. by rewrite <- app_assoc.
Qed.

Lemma record_all_keys {V} (occs : list (text * V)) : forall d k,
  k ∈ dict_keys (record_all d occs) <-> k ∈ dict_keys d \/ k ∈ map fst occs.
Proof.
  unfold record_all. induction occs as [|[k' v] occs IH]; intros d k; simpl.
  - split; [by left|]. intros [H|H]; [done|by apply elem_of_nil in H].
  - rewrite IH, dict_append_keys, elem_of_cons.
    destruct (decide (k' ∈ dict_keys d)) as [Hin|Hnin].
    + split; [intros [H|H]; auto|]. intros [H|[->|H]]; auto.
    + rewrite elem_of_app, list_elem_of_singleton.
      split; [intros [[H|H]|H]; auto|]. intros [H|[H|H]]; auto.
Qed.

Lemma scan_keys pr (files : list text) : forall d k,
  k ∈ dict_keys (foldl (fun code_locations fp =>
                          record_all code_locations (file_occurrences pr fp))
                       d files)
  <-> k ∈ dict_keys d \/ k ∈ map fst (flat_map (file_occurrences pr) files).
Proof.
  induction files as [|fp files IH]; intros d k; simpl.
  - split; [by left|]. intros [H|H]; [done|by apply elem_of_nil in H].
  - rewrite IH, record_all_keys, map_app, elem_of_app.
    split; [intros [[H|H]|H]; auto|]. intros [H|[H|H]]; auto.
Qed.

Lemma index_keys_nodup pr project_root :
  NoDup (dict_keys (find_all_error_codes pr project_root)).
Proof.
  apply (scan_inv (fun d => NoDup (dict_keys d))).
  - intros d k v. apply dict_append_nodup.
  - constructor.
Qed.

(** X12: The index is a dictionary: no code is listed twice and no code has an
    empty list, so a lookup returns the list stored with the code; the
    duplicated codes are a part of it, in its order, and all of them are
    among the codes that [get_all_existing_codes] hands to the fix. *)
Theorem index_well_formed (pr : project) (project_root : text) :
  let code_locations := find_all_error_codes pr project_root in
  let duplicates := find_duplicates code_locations in
  NoDup (dict_keys code_locations) /\
  (forall code locations,
     (code, locations) ∈ code_locations ->
     locations <> [] /\ dict_get code_locations code = locations) /\
  duplicates `sublist_of` code_locations /\
  NoDup (dict_keys duplicates) /\
  (forall code, code ∈ dict_keys duplicates ->
                code ∈ get_all_existing_codes code_locations).
Proof.
  intros idx dups.
  pose proof (index_keys_nodup pr project_root) as Hnd. fold idx in Hnd.
  assert (Forall (fun e => e.2 <> []) idx) as Hne.
  { apply (scan_inv (Forall (fun e => e.2 <> []))).
    - intros d k v. apply dict_append_nonempty.
    - constructor. }
  assert (dups `sublist_of` idx) as Hsub by apply sublist_filter.
  split; [done|]. split; [|split; [done|split]].
  - intros code locations Hin. split.
    + rewrite Forall_forall in Hne. apply (Hne _ Hin).
    + by apply dict_get_elem.
  - apply (sublist_NoDup _ (dict_keys idx)); [done|]. by apply (fmap_sublist fst).
  - intros code Hc. unfold get_all_existing_codes. apply elem_of_list_to_set.
    apply (elem_of_sublist (dict_keys dups)); [done|]. by apply (fmap_sublist fst).
Qed.

(** *** Every entry of the index points into a file *)

Lemma enumerate_elem {A} (l : list A) : forall start n x,
  (n, x) ∈ enumerate start l <-> exists j, n = start + j /\ l !! j = Some x.
Proof.
  induction l as [|y l IH]; intros start n x; simpl.
  - split; [intros H; by apply elem_of_nil in H|]. by intros (j & _ & ?).
  - rewrite elem_of_cons, IH. split.
    + intros [[= -> ->]|(j & -> & Hj)].
      * exists 0. split; [lia|done].
      * exists (S j). split; [lia|done].
    + intros ([|j] & -> & Hj); simpl in Hj.
      * left. injection Hj as <-. f_equal. lia.
      * right. exists j. split; [lia|done].
Qed.

Lemma line_occurrences_content fp n line o :
  o ∈ line_occurrences fp n line ->
  line_content o.2 = strip line /\
  ((is_constant_def o.2 = true /\ is_Some (constant_name o.2)) \/
   (is_constant_def o.2 = false /\ constant_name o.2 = None /\
    contains (str "BizException.failed(") line = true)).
Proof.
  unfold line_occurrences, constant_occurrences, inline_occurrences.
  rewrite elem_of_app. intros [H|H].
  - apply list_elem_of_fmap in H as (g & -> & _). split; [done|]. left. by eauto.
  - destruct (contains _ line) eqn:Ec; [|by apply elem_of_nil in H].
    destruct (negb _); [|by apply elem_of_nil in H].
    apply list_elem_of_fmap in H as (g & -> & _). split; [done|]. by right.
Qed.

(** What one file contributes: each occurrence stands on a line of it. *)
Lemma file_occurrence_inv pr fp o :
  o ∈ file_occurrences pr fp ->
  file_path o.2 = fp /\
  exists content line,
    store pr !! fp = Some content /\
    1 <= line_num o.2 /\
    readlines content !! (line_num o.2 - 1) = Some line /\
    o ∈ line_occurrences fp (line_num o.2) line /\
    line_content o.2 = strip line.
Proof.
  unfold file_occurrences. intros H.
  destruct (store pr !! fp) as [content|] eqn:Es; [|by apply elem_of_nil in H].
  apply list_elem_of_In, in_flat_map in H as ([n line] & Hn & H).
  apply list_elem_of_In in Hn, H.
  destruct (line_occurrences_at _ _ _ _ H) as [Hf Hl].
  destruct (line_occurrences_content _ _ _ _ H) as [Hc _].
  apply enumerate_elem in Hn as (j & Hj & Hline).
  split; [done|]. exists content, line. rewrite Hl.
  split; [done|]. split; [lia|]. split; [|done].
  by replace (n - 1) with j by lia.
Qed.

Lemma index_entry_in_file pr project_root code location :
  location ∈ dict_get (find_all_error_codes pr project_root) code ->
  exists fp, fp ∈ java_files_of pr project_root /\
             (code, location) ∈ file_occurrences pr fp.
Proof.
  unfold find_all_error_codes. rewrite dict_get_scan. cbn [dict_get app].
  intros H. apply list_elem_of_In, in_flat_map in H as (fp & Hfp & H).
  apply list_elem_of_In in Hfp, H.
  apply list_elem_of_fmap in H as ([code' loc] & -> & H).
  apply list_elem_of_filter in H as [Hcode H]. cbn [fst snd] in *. subst code'.
  by exists fp.
Qed.

(** X13: An occurrence listed under a code was found where it says: its file is
    one of the scanned files and can be read, the file has a line of that
    number (counted from 1), that line yields the code, and the recorded
    text is the line without the white space around it. *)
Theorem index_entries_point_to_lines (pr : project) (project_root code : text)
    (location : ErrorCodeLocation) :
  location ∈ dict_get (find_all_error_codes pr project_root) code ->
  file_path location ∈ java_files_of pr project_root /\
  exists content line,
    store pr !! file_path location = Some content /\
    1 <= line_num location /\
    readlines content !! (line_num location - 1) = Some line /\
    (code, location) ∈ line_occurrences (file_path location) (line_num location) line /\
    line_content location = strip line.
Proof.
  intros H. apply index_entry_in_file in H as (fp & Hfp & H).
  apply file_occurrence_inv in H as (Hf & content & line & Hrest).
  cbn [fst snd] in *. subst fp. split; [done|]. by exists content, line.
Qed.

Lemma index_entries_point_to_lines_witness :
  let a := str "/p/A.java" in
  let pr := Project [a] (<[a := str "class A {
  throw BizException.failed(7L, msg);"]> ∅) in
  let location := Location a 2 (str "throw BizException.failed(7L, msg);") None false in
  file_path location ∈ java_files_of pr (str "/p") /\
  exists content line,
    store pr !! file_path location = Some content /\
    1 <= line_num location /\
    readlines content !! (line_num location - 1) = Some line /\
    (str "7", location)
      ∈ line_occurrences (file_path location) (line_num location) line /\
    line_content location = strip line.
Proof.
  intros a pr location.
  apply (index_entries_point_to_lines pr (str "/p") (str "7") location).
  vm_compute. by left.
Defined.

(** *** Nothing scanned is lost *)

Lemma length_flat_map_snd {V} (d : dict V) :
  sum_list (map (fun e => length e.2) d) = length (flat_map snd d).
Proof.
  induction d as [|[k vs] d IH]; [done|].
  cbn [map flat_map snd]. rewrite length_app, <- IH. done.
Qed.

(** X14: The index holds every occurrence the scan meets exactly once: its
    lists, put together, are a rearrangement of the occurrences of the
    scanned files. *)
Theorem index_holds_every_occurrence (pr : project) (project_root : text) :
  Permutation
    (flat_map snd (find_all_error_codes pr project_root))
    (map snd (flat_map (file_occurrences pr) (java_files_of pr project_root))).
Proof. unfold find_all_error_codes. by rewrite scan_values. Qed.

(** X15: The figures of the report: the number of different codes met, the
    number of occurrences met, and how many of these are constant
    definitions and how many are inline calls. *)
Theorem report_counts_what_was_scanned (pr : project) (project_root : text) :
  let occs := flat_map (file_occurrences pr) (java_files_of pr project_root) in
  let code_locations := find_all_error_codes pr project_root in
  let r := fst (print_report code_locations (find_duplicates code_locations)) in
  total_codes r = size (list_to_set (map fst occs) : gset text) /\
  total_locations r = length occs /\
  constant_defs r = length (filter (fun o => is_constant_def o.2 = true) occs) /\
  inline_calls r = length (filter (fun o => is_constant_def o.2 = false) occs).
Proof.
  intros occs idx r.
  assert (Permutation (flat_map snd idx) (map snd occs)) as Hperm
      by (unfold idx, find_all_error_codes; by rewrite scan_values).
  assert (total_locations r = length occs) as Htotal.
  { cbn. rewrite length_flat_map_snd, Hperm. by rewrite length_map. }
  assert (constant_defs r = length (filter (fun o => is_constant_def o.2 = true) occs))
    as Hdefs.
  { cbn. rewrite Hperm. clear. induction occs as [|o occs IH]; [done|].
    cbn [map]. rewrite !filter_cons. cbn [snd].
    destruct (decide (is_constant_def o.2 = true)); simpl; by rewrite IH. }
  split; [|split; [done|split; [done|]]].
  - cbn. pose proof (index_keys_nodup pr project_root) as Hnd.
    fold idx in Hnd. rewrite <- (length_map fst idx).
    change (map fst idx) with (dict_keys idx).
    rewrite <- (size_list_to_set (C := gset text)) by done.
    f_equal. apply set_eq. intros k. rewrite !elem_of_list_to_set.
    unfold idx, find_all_error_codes. rewrite scan_keys.
    split; [intros [H|H]; [by apply elem_of_nil in H|done]|by right].
  - change (inline_calls r) with (total_locations r - constant_defs r).
    rewrite Htotal, Hdefs. clear.
    induction occs as [|o occs IH]; [done|].
    rewrite !filter_cons.
    pose proof (length_filter (fun o => is_constant_def o.2 = true) occs).
    destruct (decide (is_constant_def o.2 = true)) as [Ht|Ht],
             (decide (is_constant_def o.2 = false)) as [Hf|Hf];
      cbn [length] in *; [congruence|lia|lia|].
    by destruct (is_constant_def o.2).
Qed.

End IndexExtra.

(** ** The Resolver: constant definitions and the codes of the index *)

Module ConstantFacts.
Import Re Resolver TextFacts ReFacts IndexFacts InlineFacts IndexExtra.

Local Abbreviation consume_all := (foldl (fun st x => consume x st)).
Local Abbreviation spaces := (Forall (fun c => is_space c = true)).
Local Abbreviation wide_spaces := (Forall (fun c => wide is_space c = true)).

(** A match of the constant pattern: the four keywords, a name made of
    [ERROR_] and word characters (the first group), the equals sign, a run
    of digits (the second group), an optional [L], and the semicolon. *)
Lemma constant_match_inv b s g n :
  match_at constant_pattern b s = Some (g, n) ->
  exists ws1 ws2 ws3 ws4 name ws5 ws6 code suffix ws7 v,
    g = [str "ERROR_" ++ name; code] /\
    s = str "private" ++ ws1 ++ str "static" ++ ws2 ++ str "final" ++ ws3
          ++ str "long" ++ ws4 ++ (str "ERROR_" ++ name) ++ ws5 ++ str "="
          ++ ws6 ++ code ++ suffix ++ ws7 ++ str ";" ++ v /\
    name <> [] /\ Forall (fun c => is_word c = true) name /\
    code <> [] /\ Forall (fun c => is_digit c = true) code /\
    (suffix = [] \/ suffix = str "L") /\
    (ws1 <> [] /\ ws2 <> [] /\ ws3 <> [] /\ ws4 <> []) /\
    spaces ws1 /\ spaces ws2 /\ spaces ws3 /\ spaces ws4 /\
    spaces ws5 /\ spaces ws6 /\ spaces ws7.
Proof.
  unfold match_at.
  destruct (rmatch constant_pattern b s st0) as [[st rest]|] eqn:E; [|done].
  intros [= <- _]. unfold constant_pattern, lits in E. cbn [app] in E.
  apply rmatch_lits_inv in E as (v1 & b1 & -> & E).
  apply rmatch_plus_inv in E as (x1 & u1 & v2 & b2 & -> & Hws1 & E).
  apply rmatch_lits_inv in E as (v3 & b3 & -> & E).
  apply rmatch_plus_inv in E as (x2 & u2 & v4 & b4 & -> & Hws2 & E).
  apply rmatch_lits_inv in E as (v5 & b5 & -> & E).
  apply rmatch_plus_inv in E as (x3 & u3 & v6 & b6 & -> & Hws3 & E).
  apply rmatch_lits_inv in E as (v7 & b7 & -> & E).
  apply rmatch_plus_inv in E as (x4 & u4 & v8 & b8 & -> & Hws4 & E).
  rewrite rmatch_open in E.
  apply rmatch_lits_inv in E as (v9 & b9 & -> & E).
  apply rmatch_plus_inv in E as (y & w & v10 & b10 & -> & Hname & E).
  rewrite rmatch_close in E.
  apply rmatch_star_inv in E as (ws5 & v11 & b11 & -> & Hws5 & E).
  apply rmatch_lits_inv in E as (v12 & b12 & -> & E).
  apply rmatch_star_inv in E as (ws6 & v13 & b13 & -> & Hws6 & E).
  rewrite rmatch_open in E.
  apply rmatch_plus_inv in E as (z & d & v14 & b14 & -> & Hcode & E).
  rewrite rmatch_close in E.
  apply rmatch_opt_inv in E as (o & v15 & b15 & -> & Ho & E).
  apply rmatch_star_inv in E as (ws7 & v16 & b16 & -> & Hws7 & E).
  rewrite <- (app_nil_r (map Lit (str ";"))) in E.
  apply rmatch_lits_inv in E as (v17 & b17 & -> & E).
  cbn [rmatch] in E. injection E as <- <-.
  exists (x1 :: u1), (x2 :: u2), (x3 :: u3), (x4 :: u4), (y :: w), ws5, ws6,
         (z :: d), o, ws7, v17.
  repeat first
    [ rewrite caps_consume_all
    | rewrite cur_consume_all
    | progress cbn [caps consume cur fmap option_fmap option_map default app] ].
  split; [done|]. split; [by rewrite <- !app_assoc|].
  split; [done|]. split; [done|]. split; [done|]. split; [done|].
  split; [destruct Ho as [->| ->]; [by left|by right]|].
  split; [done|]. done.
Qed.

Lemma constant_occurrence_inv fp n line o :
  o ∈ constant_occurrences fp n line ->
  exists u ws1 ws2 ws3 ws4 name ws5 ws6 suffix ws7 v,
    o.2 = Location fp n (strip line) (Some (str "ERROR_" ++ name)) true /\
    line = u ++ str "private" ++ ws1 ++ str "static" ++ ws2 ++ str "final" ++ ws3
             ++ str "long" ++ ws4 ++ (str "ERROR_" ++ name) ++ ws5 ++ str "="
             ++ ws6 ++ o.1 ++ suffix ++ ws7 ++ str ";" ++ v /\
    name <> [] /\ Forall (fun c => is_word c = true) name /\
    o.1 <> [] /\ Forall (fun c => is_digit c = true) o.1 /\
    (suffix = [] \/ suffix = str "L") /\
    (ws1 <> [] /\ ws2 <> [] /\ ws3 <> [] /\ ws4 <> []) /\
    spaces ws1 /\ spaces ws2 /\ spaces ws3 /\ spaces ws4 /\
    spaces ws5 /\ spaces ws6 /\ spaces ws7.
Proof.
  unfold constant_occurrences. intros H.
  apply list_elem_of_fmap in H as (g & -> & Hg).
  apply scan_elem in Hg as (u & s' & b' & m & -> & E).
  apply constant_match_inv in E
    as (ws1 & ws2 & ws3 & ws4 & name & ws5 & ws6 & code & suffix & ws7 & v
        & -> & -> & Hrest).
  cbn [nth fst snd].
  by exists u, ws1, ws2, ws3, ws4, name, ws5, ws6, suffix, ws7, v.
Qed.

(** X16: Every occurrence recorded as a constant definition comes from a
    declaration [private static final long ERROR_... = digits;] on its
    line: the code is a non-empty run of digits, the recorded name is
    [ERROR_] followed by at least one word character, and the value may
    carry the suffix [L].  Of the characters of the code, of the name and
    of the white space the statement says that each is of its class or is
    not ASCII: on a line of ASCII characters the code is a run of the
    digits 0 to 9 and the name is made of letters, digits and
    underscores. *)
Theorem constant_occurrences_are_definitions (fp : text) (n : nat) (line code : text)
    (location : ErrorCodeLocation) :
  (code, location) ∈ constant_occurrences fp n line ->
  code <> [] /\ Forall (fun c => wide is_digit c = true) code /\
  exists name,
    location = Location fp n (strip line) (Some (str "ERROR_" ++ name)) true /\
    name <> [] /\ Forall (fun c => wide is_word c = true) name /\
    (Forall (fun c => is_ascii c = true) line ->
     Forall (fun c => is_digit c = true) code /\
     Forall (fun c => is_word c = true) name) /\
    exists u ws1 ws2 ws3 ws4 ws5 ws6 suffix ws7 v,
      line = u ++ str "private" ++ ws1 ++ str "static" ++ ws2 ++ str "final" ++ ws3
               ++ str "long" ++ ws4 ++ (str "ERROR_" ++ name) ++ ws5 ++ str "="
               ++ ws6 ++ code ++ suffix ++ ws7 ++ str ";" ++ v /\
      (suffix = [] \/ suffix = str "L") /\
      (ws1 <> [] /\ ws2 <> [] /\ ws3 <> [] /\ ws4 <> []) /\
      wide_spaces ws1 /\ wide_spaces ws2 /\ wide_spaces ws3 /\ wide_spaces ws4 /\
      wide_spaces ws5 /\ wide_spaces ws6 /\ wide_spaces ws7.
Proof.
  intros H. apply constant_occurrence_inv in H
    as (u & ws1 & ws2 & ws3 & ws4 & name & ws5 & ws6 & suffix & ws7 & v
        & Hloc & Hline & Hn1 & Hn2 & Hc1 & Hc2 & Hsuf & Hne & Hrest).
  cbn [fst snd] in *. split; [done|]. split; [by apply wide_all|].
  exists name. split; [done|]. split; [done|]. split; [by apply wide_all|].
  split; [done|].
  exists u, ws1, ws2, ws3, ws4, ws5, ws6, suffix, ws7, v.
  split; [done|]. split; [done|]. split; [done|].
  destruct Hrest as (H1 & H2 & H3 & H4 & H5 & H6 & H7).
  repeat split; by apply wide_all.
Qed.

Lemma constant_occurrences_are_definitions_witness :
  let line := str "  private static final long ERROR_X = 202511250001L;" in
  let location := Location (str "/p/A.java") 4 (strip line)
                           (Some (str "ERROR_X")) true in
  str "202511250001" <> [] /\
  Forall (fun c => wide is_digit c = true) (str "202511250001") /\
  exists name,
    location = Location (str "/p/A.java") 4 (strip line)
                        (Some (str "ERROR_" ++ name)) true /\
    name <> [] /\ Forall (fun c => wide is_word c = true) name /\
    (Forall (fun c => is_ascii c = true) line ->
     Forall (fun c => is_digit c = true) (str "202511250001") /\
     Forall (fun c => is_word c = true) name) /\
    exists u ws1 ws2 ws3 ws4 ws5 ws6 suffix ws7 v,
      line = u ++ str "private" ++ ws1 ++ str "static" ++ ws2 ++ str "final" ++ ws3
               ++ str "long" ++ ws4 ++ (str "ERROR_" ++ name) ++ ws5 ++ str "="
               ++ ws6 ++ str "202511250001" ++ suffix ++ ws7 ++ str ";" ++ v /\
      (suffix = [] \/ suffix = str "L") /\
      (ws1 <> [] /\ ws2 <> [] /\ ws3 <> [] /\ ws4 <> []) /\
      wide_spaces ws1 /\ wide_spaces ws2 /\ wide_spaces ws3 /\ wide_spaces ws4 /\
      wide_spaces ws5 /\ wide_spaces ws6 /\ wide_spaces ws7.
Proof.
  intros line location.
  apply (constant_occurrences_are_definitions (str "/p/A.java") 4 line).
  vm_compute. by left.
Defined.

Lemma line_occurrence_code fp n line o :
  o ∈ line_occurrences fp n line ->
  o.1 <> [] /\ Forall (fun c => is_digit c = true) o.1.
Proof.
  unfold line_occurrences. rewrite elem_of_app. intros [H|H].
  - apply constant_occurrence_inv in H
      as (u & ws1 & ws2 & ws3 & ws4 & name & ws5 & ws6 & suffix & ws7 & v
          & _ & _ & _ & _ & Hc1 & Hc2 & _).
    done.
  - unfold inline_occurrences in H.
    destruct (contains _ line); [|by apply elem_of_nil in H].
    destruct (negb _); [|by apply elem_of_nil in H].
    apply list_elem_of_fmap in H as (g & -> & Hg).
    apply scan_elem in Hg as (u & s' & b' & m & -> & E).
    apply inline_match_inv in E
      as (ws1 & ws2 & code & suffix & ws3 & v & -> & _ & Hne & Hd & _).
    done.
Qed.

(** X17: Every code of the index, and so every code handed to the fix as
    existing, is a non-empty run of decimal digits, without the suffix:
    each of its characters is one of the digits 0 to 9 or is not ASCII. *)
Theorem index_codes_are_numbers (pr : project) (project_root code : text) :
  code ∈ get_all_existing_codes (find_all_error_codes pr project_root) ->
  code <> [] /\ Forall (fun c => wide is_digit c = true) code.
Proof.
  unfold get_all_existing_codes, find_all_error_codes.
  rewrite elem_of_list_to_set, scan_keys. intros [H|H]; [by apply elem_of_nil in H|].
  apply list_elem_of_fmap in H as (o & -> & H).
  apply list_elem_of_In, in_flat_map in H as (fp & _ & H). apply list_elem_of_In in H.
  unfold file_occurrences in H.
  destruct (store pr !! fp) as [content|]; [|by apply elem_of_nil in H].
  apply list_elem_of_In, in_flat_map in H as ([n line] & _ & H).
  apply list_elem_of_In in H. apply line_occurrence_code in H as [Hne Hd].
  split; [done|]. by apply wide_all.
Qed.

Lemma index_codes_are_numbers_witness :
  let a := str "/p/A.java" in
  let pr := Project [a] (<[a := str "throw BizException.failed(7L, msg);"]> ∅) in
  str "7" <> [] /\ Forall (fun c => wide is_digit c = true) (str "7").
Proof.
  intros a pr. apply (index_codes_are_numbers pr (str "/p") (str "7")).
  vm_compute. reflexivity.
Defined.

End ConstantFacts.

(** ** The Resolver: the generator, the plan and the patches *)

Module FixExtra.
Import Re Resolver TextFacts OrderFacts IndexFacts PlanFacts IndexExtra.

(** *** The code the generator picks *)

Lemma generate_loop_least existing d c : forall fuel counter,
  (counter <= c)%Z -> (c <= 9999)%Z ->
  Z.to_nat (c - counter) < fuel ->
  (forall c', (counter <= c' < c)%Z -> d ++ format_d 4 c' ∈ existing) ->
  d ++ format_d 4 c ∉ existing ->
  generate_loop fuel existing d counter = Some (d ++ format_d 4 c).
Proof.
  induction fuel as [|fuel IH]; intros counter Hle Hmax Hfuel Htaken Hfree; [lia|].
  cbn [generate_loop].
  destruct (decide (counter = c)) as [->|Hne].
  - by rewrite decide_True.
  - rewrite decide_False by (intros H; apply H, Htaken; lia).
    assert ((9999 <? counter + 1)%Z = false) as -> by (apply Z.ltb_ge; lia).
    apply IH; [lia|lia|lia| |done]. intros c' Hc'. apply Htaken. lia.
Qed.

(** X18: The generator returns the first free code of the day: the code of the
    least sequence number, from 1 up, that is not taken, as long as that
    number has four digits. *)
Theorem generate_new_code_least (existing_codes : gset text) (date_prefix : text)
    (c : Z) :
  (1 <= c <= 9999)%Z ->
  (forall c', (1 <= c' < c)%Z -> date_prefix ++ format_d 4 c' ∈ existing_codes) ->
  date_prefix ++ format_d 4 c ∉ existing_codes ->
  generate_new_code existing_codes date_prefix = Some (date_prefix ++ format_d 4 c).
Proof.
  intros Hc Htaken Hfree. unfold generate_new_code.
  apply generate_loop_least; [lia|lia| |done|done].
  set (cands := map (fun i => date_prefix ++ format_d 4 (1 + Z.of_nat i))
                    (seq 0 (Z.to_nat (c - 1)))).
  assert (NoDup cands) as Hnd.
  { apply NoDup_fmap_2; [|apply NoDup_seq].
    intros i j Hij. apply app_inv_head in Hij.
    apply format_d_inj in Hij; lia. }
  assert (cands ⊆+ elements existing_codes) as Hsub.
  { apply NoDup_submseteq; [done|]. intros x Hx.
    apply list_elem_of_fmap in Hx as (i & -> & Hi).
    apply elem_of_elements. apply Htaken.
    apply elem_of_seq in Hi. lia. }
  apply submseteq_length in Hsub.
  unfold cands in Hsub. rewrite length_map, length_seq in Hsub.
  unfold size, set_size. simpl. lia.
Qed.

Lemma generate_new_code_least_witness :
  generate_new_code {[ str "202512180001"; str "202512180003" ]} (str "20251218")
  = Some (str "202512180002").
Proof.
  apply (generate_new_code_least _ (str "20251218") 2); [lia| |].
  - intros c' Hc'. assert (c' = 1%Z) as -> by lia.
    apply elem_of_union. left. by apply elem_of_singleton.
  - intros H. apply elem_of_union in H as [H|H];
      apply elem_of_singleton in H; discriminate H.
Defined.

(** *** The size of the plan *)

Lemma fresh_chain_inv known c added :
  fresh_chain known (c :: added) ->
  (c_new c ∉ known) /\ fresh_chain (known ∪ {[ c_new c ]}) added.
Proof.
  intros H. split.
  - specialize (H [] c added eq_refl). cbn [map list_to_set] in H.
    by rewrite (right_id_L ∅ (∪)) in H.
  - intros pre c' post E.
    specialize (H (c :: pre) c' post). rewrite E in H. specialize (H eq_refl).
    cbn [map list_to_set] in H. by rewrite (assoc_L (∪)) in H.
Qed.

Lemma fresh_chain_size added : forall known,
  fresh_chain known added ->
  size (known ∪ list_to_set (map c_new added)) = size known + length added.
Proof.
  induction added as [|c added IH]; intros known H.
  - cbn [map list_to_set length]. rewrite (right_id_L ∅ (∪)). lia.
  - apply fresh_chain_inv in H as [Hc H].
    cbn [map list_to_set length]. rewrite (assoc_L (∪)), (IH _ H).
    rewrite size_union by (by apply disjoint_singleton_r).
    rewrite size_singleton. lia.
Qed.

Lemma plan_groups_clock now duplicates : forall ch ac k ch' ac' k',
  plan_groups now duplicates (ch, ac, k) = Some (ch', ac', k') ->
  length ch' = length ch + sum_list (map (fun e => length e.2 - 1) duplicates) /\
  k' = k + sum_list (map (fun e => length e.2 - 1) duplicates).
Proof.
  induction duplicates as [|[code locations] duplicates IH];
    intros ch ac k ch' ac' k' H.
  - injection H as <- _ <-. cbn. lia.
  - cbn [plan_groups] in H.
    destruct (plan_locations_spec now code (drop 1 (sorted loc_leb locations)) ch ac k)
      as (g & E & _ & Hloc & _).
    rewrite E in H. apply IH in H as [Hlen Hk].
    apply (f_equal length) in Hloc. rewrite length_map, length_drop in Hloc.
    rewrite (Permutation_length (sorted_perm loc_leb locations)) in Hloc.
    rewrite length_app in Hlen. rewrite length_drop in Hk.
    rewrite (Permutation_length (sorted_perm loc_leb locations)) in Hk.
    cbn [map snd]. unfold sum_list in *. cbn [sum_list_with].
    unfold id at 1 3. lia.
Qed.

(** X19: The plan has one change record for every occurrence of a duplicated
    code but one per code; each record took one reading of the clock and
    put one more code into the set of codes, which keeps the codes it
    started with. *)
Theorem plan_size (now : nat -> text) (duplicates : dict ErrorCodeLocation)
    (existing_codes : gset text) (changes : list change) (all_codes : gset text)
    (k : nat) :
  plan_changes now duplicates existing_codes = Some (changes, all_codes, k) ->
  length changes = sum_list (map (fun e => length e.2 - 1) duplicates) /\
  k = length changes /\
  existing_codes ⊆ all_codes /\
  size all_codes = size existing_codes + length changes.
Proof.
  unfold plan_changes. intros H.
  destruct (plan_groups_clock _ _ _ _ _ _ _ _ H) as [Hlen Hk].
  cbn [length] in Hlen. split; [lia|]. split; [lia|].
  destruct (plan_groups_spec now duplicates [] existing_codes 0)
    as (groups & k' & E & _ & Hchain).
  rewrite E in H. injection H as <- <- _. cbn [app]. split.
  - apply union_subseteq_l.
  - by apply fresh_chain_size.
Qed.

Lemma plan_size_witness :
  let l n := Location (str "/p/A.java") n (str "x") None false in
  let duplicates := [(str "7", [l 1; l 2; l 3])] in
  let existing_codes : gset text := {[ str "7" ]} in
  let c n code := Change (str "/p/A.java") n (str "7") code None false (str "x") in
  let changes := [c 2 (str "202512180001"); c 3 (str "202512180002")] in
  let all_codes := existing_codes ∪ list_to_set (map c_new changes) in
  length changes = sum_list (map (fun e => length e.2 - 1) duplicates) /\
  2 = length changes /\
  existing_codes ⊆ all_codes /\
  size all_codes = size existing_codes + length changes.
Proof.
  intros l duplicates existing_codes c changes all_codes.
  apply (plan_size (fun _ => str "20251218") duplicates existing_codes changes
           all_codes 2).
  vm_compute. reflexivity.
Defined.

(** *** Patching the lines of a file *)

(** A line number from 1 up names the line before it in the list; the
    number 0 names, as the index -1 does in Python, the last line. *)
Lemma line_index_pos lines n : 1 <= n -> line_index lines n = n - 1.
Proof. destruct n; [lia|]. intros _. cbn [line_index]. lia. Qed.

Lemma apply_line_change_some lines c lines' :
  1 <= c_line c ->
  apply_line_change lines c = Some lines' ->
  length lines' = length lines /\
  forall j, j <> c_line c - 1 -> lines' !! j = lines !! j.
Proof.
  intros Hpos. unfold apply_line_change. cbv zeta. rewrite line_index_pos by done.
  destruct (lines !! (c_line c - 1)) as [line|]; [|done].
  intros [= <-]. split; [apply length_insert|].
  intros j Hj. by apply list_lookup_insert_ne.
Qed.

Lemma apply_line_change_none lines c :
  1 <= c_line c ->
  apply_line_change lines c = None <-> length lines <= c_line c - 1.
Proof.
  intros Hpos. unfold apply_line_change. cbv zeta. rewrite line_index_pos by done.
  rewrite <- lookup_ge_None.
  by destruct (lines !! (c_line c - 1)).
Qed.

Lemma apply_line_changes_some (cs : list change) : forall lines lines',
  Forall (fun c => 1 <= c_line c) cs ->
  apply_line_changes lines cs = Some lines' ->
  length lines' = length lines /\
  forall j, (forall c, c ∈ cs -> c_line c - 1 <> j) -> lines' !! j = lines !! j.
Proof.
  induction cs as [|c cs IH]; intros lines lines' Hpos H.
  - by injection H as <-.
  - apply Forall_cons in Hpos as [Hc Hpos]. cbn [apply_line_changes] in H.
    destruct (apply_line_change lines c) as [lines1|] eqn:E; [|done].
    apply apply_line_change_some in E as [Hlen Hother]; [|done].
    apply IH in H as [Hlen' Hother']; [|done]. split; [lia|].
    intros j Hj. rewrite Hother'; [|intros c' Hc'; apply Hj; by right].
    apply Hother. intros ->. by apply (Hj c); [left|].
Qed.

Lemma apply_line_changes_none (cs : list change) : forall lines,
  Forall (fun c => 1 <= c_line c) cs ->
  apply_line_changes lines cs = None <->
  exists c, c ∈ cs /\ length lines <= c_line c - 1.
Proof.
  induction cs as [|c cs IH]; intros lines Hpos.
  - split; [done|]. intros (c & Hc & _). by apply elem_of_nil in Hc.
  - apply Forall_cons in Hpos as [Hc Hpos]. cbn [apply_line_changes].
    destruct (apply_line_change lines c) as [lines1|] eqn:E.
    + pose proof (apply_line_change_some _ _ _ Hc E) as [Hlen _].
      rewrite IH, Hlen by done. split.
      * intros (c' & Hc' & Hl). exists c'. split; [by right|done].
      * intros (c' & Hc' & Hl). apply elem_of_cons in Hc' as [->|Hc'].
        -- apply apply_line_change_none in Hl; [congruence|done].
        -- by exists c'.
    + split; [|done]. intros _.
      apply apply_line_change_none in E; [|done]. exists c. split; [by left|done].
Qed.

(** X20: Applying the changes of one file, with line numbers counted from 1 as
    the index records them, keeps the number of lines and every line that
    no change names; it fails, and then the file is not written, exactly
    when a change names a line the file does not have. *)
Theorem line_changes_keep_other_lines (lines : list text) (cs : list change) :
  Forall (fun c => 1 <= c_line c) cs ->
  (apply_line_changes lines cs = None <->
   exists c, c ∈ cs /\ length lines <= c_line c - 1) /\
  (forall lines',
     apply_line_changes lines cs = Some lines' ->
     length lines' = length lines /\
     forall j, (forall c, c ∈ cs -> c_line c - 1 <> j) -> lines' !! j = lines !! j).
Proof.
  intros Hpos. split.
  - by apply apply_line_changes_none.
  - intros lines'. by apply apply_line_changes_some.
Qed.

Lemma line_changes_keep_other_lines_witness :
  let lines := [str "a"; str "throw BizException.failed(7L, m);"; str "c"] in
  let cs := [Change (str "/p/A.java") 2 (str "7") (str "202512180001") None false
                    []] in
  (apply_line_changes lines cs = None <->
   exists c, c ∈ cs /\ length lines <= c_line c - 1) /\
  (forall lines',
     apply_line_changes lines cs = Some lines' ->
     length lines' = length lines /\
     forall j, (forall c, c ∈ cs -> c_line c - 1 <> j) -> lines' !! j = lines !! j).
Proof.
  intros lines cs. apply (line_changes_keep_other_lines lines cs).
  repeat constructor.
Defined.

(** A change whose line does not hold the text the patch looks for changes
    nothing and raises nothing. *)
Lemma apply_line_change_unmatched lines c line :
  1 <= c_line c ->
  lines !! (c_line c - 1) = Some line ->
  (if c_is_def c && is_nonempty (c_const c)
   then contains (c_old c ++ str "L") line = false
   else contains (str "BizException.failed(" ++ c_old c ++ str "L,") line = false /\
        contains (str "BizException.failed(" ++ c_old c ++ str ",") line = false) ->
  apply_line_change lines c = Some lines.
Proof.
  intros Hpos Hl H. unfold apply_line_change. cbv zeta.
  rewrite line_index_pos, Hl by done. f_equal.
  assert (forall old new, contains old line = false -> replace_first old new line = line)
    as Hrep.
  { intros old new. clear. induction line as [|x line IH]; simpl.
    - by destruct (starts_with old []).
    - intros Hc. apply orb_false_iff in Hc as [-> Hc]. by rewrite IH. }
  destruct (c_is_def c && is_nonempty (c_const c)).
  - rewrite Hrep by done. by apply list_insert_id.
  - destruct H as [H1 H2]. rewrite H1, Hrep by done. by apply list_insert_id.
Qed.


Lemma replace_first_hit old new u v :
  (forall i, i < length u -> starts_with old (drop i (u ++ old ++ v)) = false) ->
  replace_first old new (u ++ old ++ v) = u ++ new ++ v.
Proof.
  induction u as [|x u IH]; intros H.
  - cbn [app]. destruct (old ++ v) as [|y t] eqn:E.
    + destruct old; [|done]. simpl in *. by subst.
    + cbn [replace_first]. rewrite <- E, starts_with_app.
      by rewrite drop_app_length.
  - pose proof (H 0 ltac:(simpl; lia)) as H0. cbn [drop app] in H0.
    cbn [app replace_first]. rewrite H0.
    rewrite IH; [done|]. intros i Hi. apply (H (S i)). simpl. lia.
Qed.

(** X21: An inline call written without the suffix gets the suffix with its new
    code: the first [BizException.failed(OLD,] of the line becomes
    [BizException.failed(NEWL,], and the rest of the line stays. *)
Theorem inline_change_adds_suffix (lines : list text) (c : change) (u v : text) :
  let old_pattern := str "BizException.failed(" ++ c_old c ++ str "," in
  let new_pattern := str "BizException.failed(" ++ c_new c ++ str "L," in
  c_is_def c = false ->
  1 <= c_line c ->
  lines !! (c_line c - 1) = Some (u ++ old_pattern ++ v) ->
  contains (str "BizException.failed(" ++ c_old c ++ str "L,")
           (u ++ old_pattern ++ v) = false ->
  (forall i, i < length u ->
             starts_with old_pattern (drop i (u ++ old_pattern ++ v)) = false) ->
  apply_line_change lines c
  = Some (<[c_line c - 1 := u ++ new_pattern ++ v]> lines).
Proof.
  intros old_pattern new_pattern Hdef Hpos Hl Hno Hfirst.
  unfold apply_line_change. cbv zeta. rewrite line_index_pos, Hl, Hdef by done.
  cbn [andb].
  fold old_pattern. rewrite Hno. fold new_pattern.
  by rewrite replace_first_hit.
Qed.

Lemma inline_change_adds_suffix_witness :
  apply_line_change [str "throw BizException.failed(7, msg);"]
    (Change (str "/p/A.java") 1 (str "7") (str "202512180001") None false [])
  = Some [str "throw BizException.failed(202512180001L, msg);"].
Proof.
  apply (inline_change_adds_suffix [str "throw BizException.failed(7, msg);"]
           (Change (str "/p/A.java") 1 (str "7") (str "202512180001") None false
                   [])
           (str "throw ") (str " msg);")).
  - reflexivity.
  - simpl. lia.
  - reflexivity.
  - vm_compute. reflexivity.
  - intros i Hi. do 6 (destruct i as [|i]; [vm_compute; reflexivity|]).
    simpl in Hi. lia.
Defined.

(** *** What a fix writes *)

Lemma patch_file_frame st fp cs :
  dom (patch_file st fp cs) = dom st /\
  forall g, g <> fp -> patch_file st fp cs !! g = st !! g.
Proof.
  unfold patch_file. destruct (st !! fp) as [content|] eqn:E; [|done].
  destruct (apply_line_changes _ cs) as [lines|]; [|done]. split.
  - apply dom_insert_lookup_L. by eexists.
  - intros g Hg. by rewrite lookup_insert_ne.
Qed.

Lemma patch_all_frame (file_changes : dict change) : forall st,
  let st' := foldl (fun st '(fp, cs) => patch_file st fp cs) st file_changes in
  dom st' = dom st /\
  forall g, g ∉ dict_keys file_changes -> st' !! g = st !! g.
Proof.
  induction file_changes as [|[fp cs] fc IH]; intros st; [done|].
  cbn [foldl dict_keys map fst].
  destruct (IH (patch_file st fp cs)) as [Hdom Hother].
  destruct (patch_file_frame st fp cs) as [Hdom1 Hother1].
  split; [by rewrite Hdom|].
  intros g Hg. apply not_elem_of_cons in Hg as [Hne Hg].
  rewrite Hother by done. by apply Hother1.
Qed.

Lemma group_by_file_keys changes fp :
  fp ∈ dict_keys (group_by_file changes) <-> fp ∈ map c_file changes.
Proof.
  unfold group_by_file. rewrite record_all_keys, map_map. cbn [fst].
  split; [intros [H|H]; [by apply elem_of_nil in H|done]|by right].
Qed.

(** X22: A fix neither creates nor deletes a file and leaves the listing as it
    is; it writes only to files that a change record names; and a dry run
    writes nothing. *)
Theorem fix_writes_changed_files_only (now : nat -> text) (pr pr' : project)
    (duplicates : dict ErrorCodeLocation) (existing_codes : gset text)
    (dry_run : bool) (changes : list change) :
  fix_duplicates now pr duplicates existing_codes dry_run = Some (changes, pr') ->
  listing pr' = listing pr /\
  dom (store pr') = dom (store pr) /\
  (forall g, g ∉ map c_file changes -> store pr' !! g = store pr !! g) /\
  (dry_run = true -> pr' = pr).
Proof.
  unfold fix_duplicates.
  destruct (plan_changes now duplicates existing_codes) as [[[ch ac] k]|]; [|done].
  destruct dry_run.
  - by intros [= <- <-].
  - intros [= <- <-]. cbn [listing store].
    destruct (patch_all_frame (group_by_file ch) (store pr)) as [Hdom Hother].
    split; [done|]. split; [done|]. split; [|done].
    intros g Hg. apply Hother. by rewrite group_by_file_keys.
Qed.

Lemma fix_writes_changed_files_only_witness :
  let a := str "/p/A.java" in
  let b := str "/p/B.java" in
  let pr := Project [a; b]
              (<[a := str "throw BizException.failed(7L, msg);"]>
                 (<[b := str "throw BizException.failed(7L, msg);"]> ∅)) in
  let pr' := Project [a; b]
              (<[a := str "throw BizException.failed(7L, msg);"]>
                 (<[b := str "throw BizException.failed(202512180001L, msg);"]> ∅)) in
  let changes := [Change b 1 (str "7") (str "202512180001") None false
                         (str "throw BizException.failed(7L, msg);")] in
  listing pr' = listing pr /\
  dom (store pr') = dom (store pr) /\
  (forall g, g ∉ map c_file changes -> store pr' !! g = store pr !! g) /\
  (false = true -> pr' = pr).
Proof.
  intros a b pr pr' changes.
  apply (fix_writes_changed_files_only (fun _ => str "20251218") pr pr'
           (find_duplicates (find_all_error_codes pr (str "/p")))
           (get_all_existing_codes (find_all_error_codes pr (str "/p")))
           false changes).
  vm_compute. reflexivity.
Defined.

(** *** The files scanned *)

(** X11: The scan reads listed files only.  When some listed file lies below one
    of the seven target directories, the scan reads exactly the listed
    files below them; when none does, it reads the whole listing. *)
Theorem scanned_files (pr : project) (project_root : text) :
  let below t f := starts_with (path_join (path_join project_root t) []) f = true in
  (forall f, f ∈ java_files_of pr project_root -> f ∈ listing pr) /\
  ((exists f t, f ∈ listing pr /\ t ∈ target_dirs /\ below t f) ->
   forall f, f ∈ java_files_of pr project_root <->
             f ∈ listing pr /\ exists t, t ∈ target_dirs /\ below t f) /\
  ((forall f t, f ∈ listing pr -> t ∈ target_dirs -> ~ below t f) ->
   java_files_of pr project_root = listing pr).
Proof.
  intros below. unfold java_files_of.
  set (found := flat_map (fun target_dir =>
                  glob_java pr (path_join project_root target_dir)) target_dirs).
  assert (forall f, f ∈ found <->
            f ∈ listing pr /\ exists t, t ∈ target_dirs /\ below t f) as Hfound.
  { intros f. unfold found. rewrite list_elem_of_In, in_flat_map. split.
    - intros (t & Ht & Hf). apply list_elem_of_In in Hf.
      unfold glob_java in Hf. apply list_elem_of_filter in Hf as [Hb Hf].
      split; [done|]. exists t. split; [by apply list_elem_of_In|done].
    - intros (Hf & t & Ht & Hb). exists t. split; [by apply list_elem_of_In|].
      apply list_elem_of_In. unfold glob_java. by apply list_elem_of_filter. }
  split; [|split].
  - intros f. destruct found as [|x l] eqn:E; [done|].
    intros Hf. by apply Hfound in Hf as [? _].
  - intros (f0 & t0 & Hf0 & Ht0 & Hb0) f.
    destruct found as [|x l] eqn:E; [|apply Hfound].
    exfalso. assert (f0 ∈ []) as H by (apply Hfound; eauto).
    by apply elem_of_nil in H.
  - intros Hnone. destruct found as [|x l] eqn:E; [done|].
    exfalso. assert (x ∈ x :: l) as H by (by left).
    apply Hfound in H as (Hx & t & Ht & Hb). by apply (Hnone x t).
Qed.

(** *** The exit status *)

(** X23: Every run of the Resolver ends, with status 0 when no code is
    duplicated and with status 1 when one is, fixed or not; it never adds
    or removes a file; and without [--fix], or without duplicates, it
    writes nothing. *)
Theorem resolver_run_outcome (now : nat -> text) (fix_mode : bool)
    (project_root : text) (pr : project) :
  let duplicates := find_duplicates (find_all_error_codes pr project_root) in
  exists status pr',
    main now fix_mode project_root pr = Some (status, pr') /\
    (duplicates = [] -> status = 0%Z) /\
    (duplicates <> [] -> status = 1%Z) /\
    listing pr' = listing pr /\
    dom (store pr') = dom (store pr) /\
    (fix_mode = false \/ duplicates = [] -> pr' = pr).
Proof.
  intros duplicates. unfold main. fold duplicates.
  destruct duplicates as [|e dups] eqn:E.
  - exists 0%Z, pr. by repeat split.
  - destruct fix_mode.
    + unfold fix_duplicates, plan_changes.
      destruct (plan_groups_spec now (e :: dups) []
                  (get_all_existing_codes (find_all_error_codes pr project_root)) 0)
        as (groups & k' & -> & _).
      eexists 1%Z, _. split; [reflexivity|]. cbn [listing store].
      destruct (patch_all_frame (group_by_file ([] ++ concat groups)) (store pr))
        as [Hdom _].
      split; [done|]. split; [done|]. split; [done|]. split; [done|].
      by intros [|].
    + exists 1%Z, pr. by repeat split.
Qed.

(** *** A fix through [main] reaches every file it has a change for *)

Lemma group_by_file_get changes fp :
  dict_get (group_by_file changes) fp = filter (fun c => c_file c = fp) changes.
Proof.
  unfold group_by_file. rewrite dict_get_record_all. cbn [dict_get app].
  induction changes as [|c changes IH]; [done|].
  cbn [map]. rewrite !filter_cons. cbn [fst].
  destruct (decide (c_file c = fp)); cbn [map snd]; by rewrite IH.
Qed.

Lemma group_by_file_nodup changes : NoDup (dict_keys (group_by_file changes)).
Proof.
  unfold group_by_file. apply (record_all_inv (fun d => NoDup (dict_keys d))).
  - intros d k v. apply dict_append_nodup.
  - constructor.
Qed.

Lemma dict_get_in {V} (d : dict V) k : k ∈ dict_keys d -> (k, dict_get d k) ∈ d.
Proof.
  induction d as [|[k' vs] d IH]; intros H; [by apply elem_of_nil in H|].
  cbn [dict_keys map fst] in H. cbn [dict_get].
  destruct (decide (k = k')) as [->|Hne]; [by left|].
  apply elem_of_cons in H as [H|H]; [done|]. right. by apply IH.
Qed.

Lemma patch_file_at st fp cs :
  patch_file st fp cs !! fp =
    match st !! fp with
    | None => None
    | Some content =>
        match apply_line_changes (readlines content) cs with
        | None => Some content
        | Some lines => Some (writelines lines)
        end
    end.
Proof.
  unfold patch_file. destruct (st !! fp) as [content|] eqn:E; [|done].
  destruct (apply_line_changes _ cs); [by rewrite lookup_insert_eq|done].
Qed.

Lemma patch_all_at (file_changes : dict change) : forall st fp cs,
  NoDup (dict_keys file_changes) ->
  (fp, cs) ∈ file_changes ->
  foldl (fun st '(fp, cs) => patch_file st fp cs) st file_changes !! fp
  = patch_file st fp cs !! fp.
Proof.
  induction file_changes as [|[fp0 cs0] fc IH]; intros st fp cs Hnd Hin;
    [by apply elem_of_nil in Hin|].
  cbn [foldl]. cbn [dict_keys map fst] in Hnd.
  apply NoDup_cons in Hnd as [Hnotin Hnd].
  apply elem_of_cons in Hin as [[= -> ->]|Hin].
  - destruct (patch_all_frame fc (patch_file st fp0 cs0)) as [_ Hother].
    by apply Hother.
  - assert (fp <> fp0) as Hne.
    { intros ->. apply Hnotin. apply list_elem_of_fmap. by exists (fp0, cs). }
    rewrite (IH _ fp cs Hnd Hin), !patch_file_at.
    destruct (patch_file_frame st fp0 cs0) as [_ Hf]. by rewrite Hf.
Qed.

(** Every change record was made for an occurrence of its old code. *)
Lemma plan_changes_from_duplicates now duplicates ex changes ac k :
  plan_changes now duplicates ex = Some (changes, ac, k) ->
  forall c, c ∈ changes ->
    exists locations, (c_old c, locations) ∈ duplicates /\
                      change_location c ∈ locations.
Proof.
  unfold plan_changes. intros H.
  destruct (plan_groups_spec now duplicates [] ex 0) as (groups & k' & E & HF & _).
  rewrite E in H. injection H as <- _ _. cbn [app]. clear E.
  induction HF as [|[code locs] g dups groups [Hold Hloc] _ IH]; intros c Hc.
  - by apply elem_of_nil in Hc.
  - cbn [concat] in Hc. apply elem_of_app in Hc as [Hc|Hc].
    + exists locs. rewrite Forall_forall in Hold. rewrite (Hold c Hc).
      split; [by left|].
      assert (change_location c ∈ map change_location g) as Hin
          by (apply list_elem_of_fmap; eauto).
      rewrite Hloc in Hin.
      apply (elem_of_sublist _ (sorted loc_leb locs)) in Hin;
        [|apply sublist_drop].
      by rewrite (sorted_perm loc_leb locs) in Hin.
    + destruct (IH c Hc) as (l & Hl & Hcl). exists l. split; [by right|done].
Qed.

(** X24: In a fix started by [main], from the index and the duplicates of the
    project itself, no patch is lost to an error: every file that a change
    record names can be read, has all the lines its records name, and is
    written back with the records of that file applied to its lines. *)
Theorem fix_rewrites_every_changed_file (now : nat -> text) (pr pr' : project)
    (project_root : text) (changes : list change) :
  let code_locations := find_all_error_codes pr project_root in
  fix_duplicates now pr (find_duplicates code_locations)
                 (get_all_existing_codes code_locations) false
    = Some (changes, pr') ->
  forall fp, fp ∈ map c_file changes ->
    exists content lines',
      store pr !! fp = Some content /\
      apply_line_changes (readlines content)
                         (filter (fun c => c_file c = fp) changes) = Some lines' /\
      store pr' !! fp = Some (writelines lines').
Proof.
  intros idx H fp Hfp. unfold fix_duplicates in H.
  destruct (plan_changes now (find_duplicates idx) (get_all_existing_codes idx))
    as [[[ch ac] k]|] eqn:Ep; [|done].
  injection H as <- <-. cbn [store].
  assert (forall c, c ∈ ch ->
            exists content, store pr !! c_file c = Some content /\
                            1 <= c_line c /\
                            c_line c - 1 < length (readlines content)) as Hsound.
  { intros c Hc.
    destruct (plan_changes_from_duplicates _ _ _ _ _ _ Ep c Hc) as (locs & Hin & Hloc).
    apply list_elem_of_filter in Hin as [_ Hin].
    rewrite <- (dict_get_elem idx (c_old c) locs) in Hloc;
      [|apply index_keys_nodup|done].
    apply index_entry_in_file in Hloc as (fp' & _ & Hloc).
    apply file_occurrence_inv in Hloc as (Hf & content & line & Hs & Hpos & Hl & _).
    cbn [snd change_location file_path line_num] in Hf, Hl, Hpos. subst fp'.
    exists content. split; [done|]. split; [done|]. by apply lookup_lt_Some in Hl. }
  apply list_elem_of_fmap in Hfp as (c0 & -> & Hc0).
  destruct (Hsound c0 Hc0) as (content & Hs & _).
  destruct (apply_line_changes (readlines content)
              (filter (fun c => c_file c = c_file c0) ch)) as [lines'|] eqn:Ea.
  - exists content, lines'. split; [done|]. split; [done|].
    rewrite (patch_all_at _ _ (c_file c0) (filter (fun c => c_file c = c_file c0) ch)).
    + by rewrite patch_file_at, Hs, Ea.
    + apply group_by_file_nodup.
    + rewrite <- group_by_file_get. apply dict_get_in, group_by_file_keys.
      apply list_elem_of_fmap. eauto.
  - exfalso. apply apply_line_changes_none in Ea as (c & Hc & Hlen).
    2:{ apply Forall_forall. intros c Hc. apply list_elem_of_filter in Hc as [_ Hc].
        by destruct (Hsound c Hc) as (? & _ & Hpos & _). }
    apply list_elem_of_filter in Hc as [Hf Hc].
    destruct (Hsound c Hc) as (content' & Hs' & _ & Hlt).
    rewrite Hf, Hs in Hs'. injection Hs' as <-. lia.
Qed.

Lemma fix_rewrites_every_changed_file_witness :
  let a := str "/p/A.java" in
  let b := str "/p/B.java" in
  let pr := Project [a; b]
              (<[a := str "throw BizException.failed(7L, msg);"]>
                 (<[b := str "throw BizException.failed(7L, msg);"]> ∅)) in
  let pr' := Project [a; b]
              (<[a := str "throw BizException.failed(7L, msg);"]>
                 (<[b := str "throw BizException.failed(202512180001L, msg);"]> ∅)) in
  let changes := [Change b 1 (str "7") (str "202512180001") None false
                         (str "throw BizException.failed(7L, msg);")] in
  exists content lines',
    store pr !! b = Some content /\
    apply_line_changes (readlines content)
                       (filter (fun c => c_file c = b) changes) = Some lines' /\
    store pr' !! b = Some (writelines lines').
Proof.
  intros a b pr pr' changes.
  apply (fix_rewrites_every_changed_file (fun _ => str "20251218") pr pr' (str "/p")
           changes).
  - vm_compute. reflexivity.
  - by left.
Defined.

(** *** A file is written even when nothing in it matches *)

Lemma concat_keep_ends s : concat (keep_ends s) = s.
Proof.
  induction s as [|c s IH]; [done|]. cbn [keep_ends].
  destruct (ceqb c LF); [by rewrite <- IH at 2|].
  destruct (keep_ends s) as [|l ls]; simpl in *; by rewrite <- IH.
Qed.

Lemma universal_newlines_id s : CR ∉ s -> universal_newlines s = s.
Proof.
  induction s as [|c s IH]; intros H; [done|].
  apply not_elem_of_cons in H as [Hc Hs]. cbn [universal_newlines].
  assert (ceqb c CR = false) as -> by (by apply ceqb_false).
  by rewrite IH.
Qed.

Lemma apply_line_changes_unmatched lines cs :
  Forall (fun c => apply_line_change lines c = Some lines) cs ->
  apply_line_changes lines cs = Some lines.
Proof.
  induction 1 as [|c cs Hc _ IH]; [done|].
  cbn [apply_line_changes]. by rewrite Hc.
Qed.

(** X25: A file whose change records all miss, each naming a line that does not
    hold the text the patch looks for, is written all the same: with its
    line ends turned into line feeds, and otherwise as it was; a file
    without carriage returns is left exactly as it was. *)
Theorem unmatched_changes_rewrite_file (st : gmap text text) (fp content : text)
    (cs : list change) :
  st !! fp = Some content ->
  Forall (fun c =>
            1 <= c_line c /\
            exists line,
              readlines content !! (c_line c - 1) = Some line /\
              if c_is_def c && is_nonempty (c_const c)
              then contains (c_old c ++ str "L") line = false
              else contains (str "BizException.failed(" ++ c_old c ++ str "L,") line
                   = false /\
                   contains (str "BizException.failed(" ++ c_old c ++ str ",") line
                   = false) cs ->
  patch_file st fp cs = <[fp := universal_newlines content]> st /\
  (CR ∉ content -> patch_file st fp cs = st).
Proof.
  intros Hs Hcs.
  assert (patch_file st fp cs = <[fp := universal_newlines content]> st) as E.
  { unfold patch_file. rewrite Hs.
    rewrite apply_line_changes_unmatched.
    - unfold writelines, readlines. by rewrite concat_keep_ends.
    - eapply Forall_impl; [exact Hcs|]. intros c (Hpos & line & Hl & Hc).
      by apply (apply_line_change_unmatched _ _ line). }
  split; [done|]. intros Hcr. rewrite E, universal_newlines_id by done.
  by apply insert_id.
Qed.

Lemma unmatched_changes_rewrite_file_witness :
  let fp := str "/p/A.java" in
  let content := [CR; LF] ++ str "private static final long ERROR_X = 7;" ++ [CR; LF] in
  let st : gmap text text := <[fp := content]> ∅ in
  let cs := [Change fp 2 (str "7") (str "202512180001") (Some (str "ERROR_X")) true
                    []] in
  patch_file st fp cs = <[fp := universal_newlines content]> st /\
  (CR ∉ content -> patch_file st fp cs = st).
Proof.
  intros fp content st cs.
  apply (unmatched_changes_rewrite_file st fp content cs).
  - reflexivity.
  - repeat constructor. eexists. split; vm_compute; reflexivity.
Defined.

End FixExtra.

(** ** The Resolver: the report *)

Module ReportFacts.
Import Re Resolver TextFacts OrderFacts PlanFacts.

Lemma sorted_id {A} (leb : A -> A -> bool) l :
  Sorted (fun a b => leb a b = true) l -> sorted leb l = l.
Proof.
  induction 1 as [|x l Hs IH Hhd]; [done|].
  cbn [sorted]. rewrite IH. destruct Hhd as [|y l Hxy]; [done|].
  cbn [insert_by]. by rewrite Hxy.
Qed.

Lemma report_rest_marks locations : forall start,
  let g := map (fun '(i, loc) => (if i =? 0 then Keep else Modify, loc,
                                  line_preview loc))
               (enumerate (S start) locations) in
  map (fun e => e.1.2) g = locations /\
  marked_keep g = [] /\ marked_modify g = locations.
Proof.
  induction locations as [|loc locations IH]; intros start; [done|].
  destruct (IH (S start)) as (H1 & H2 & H3).
  cbn [enumerate map marked_keep marked_modify flat_map Nat.eqb fst snd app].
  split; [by rewrite H1|]. split; [done|].
  unfold marked_modify in H3. by rewrite H3.
Qed.

Lemma report_group_marks locations :
  map (fun e => e.1.2) (report_group locations) = locations /\
  marked_keep (report_group locations) = take 1 locations /\
  marked_modify (report_group locations) = drop 1 locations.
Proof.
  unfold report_group. destruct locations as [|loc locations]; [done|].
  destruct (report_rest_marks locations 0) as (H1 & H2 & H3).
  cbn [enumerate map marked_keep marked_modify flat_map Nat.eqb fst snd app take drop].
  split; [by rewrite H1|]. split.
  - unfold marked_keep in H2. by rewrite H2.
  - unfold marked_modify in H3. by rewrite H3, drop_0.
Qed.

Lemma item_leb_total a b : item_leb a b = true \/ item_leb b a = true.
Proof.
  unfold item_leb. rewrite (text_cmp_antisym a.1 b.1).
  destruct (text_cmp a.1 b.1); simpl; auto.
Qed.

Lemma Sorted_map {A B} (f : A -> B) (R : B -> B -> Prop) l :
  Sorted (fun a b => R (f a) (f b)) l -> Sorted R (map f l).
Proof.
  induction 1 as [|x l Hs IH Hhd]; [constructor|].
  cbn [map]. constructor; [done|]. destruct Hhd; by constructor.
Qed.

(** X26: The report lists every duplicated code once, in ascending order of the
    codes; under each code it lists the occurrences in the order of the
    index, with the number of them, marks the first as kept and all the
    others as to be modified. *)
Theorem report_lists_duplicates_in_code_order
    (code_locations duplicates : dict ErrorCodeLocation) :
  let groups := snd (print_report code_locations duplicates) in
  Permutation (map (fun g => g.1.1) groups) (dict_keys duplicates) /\
  Sorted (fun a b => cmp_leb (text_cmp a b) = true) (map (fun g => g.1.1) groups) /\
  (forall code n g,
     (code, n, g) ∈ groups ->
     exists locations,
       (code, locations) ∈ duplicates /\ n = length locations /\
       map (fun e => e.1.2) g = locations /\
       marked_keep g = take 1 locations /\
       marked_modify g = drop 1 locations).
Proof.
  intros groups. unfold groups, print_report. cbn [snd].
  rewrite map_map.
  assert (forall l : dict ErrorCodeLocation,
            map (fun x => (let '(code, locations) := x in
                           (code, length locations, report_group locations)).1.1) l
            = map fst l) as Hfst.
  { intros l. apply map_ext. by intros [code locs]. }
  rewrite Hfst. split; [|split].
  - unfold dict_keys. by rewrite (sorted_perm item_leb duplicates).
  - apply (Sorted_map fst). apply (sorted_sorted item_leb item_leb_total).
  - intros code n g Hin.
    apply list_elem_of_fmap in Hin as ([code' locs] & [= -> -> ->] & Hin).
    rewrite (sorted_perm item_leb duplicates) in Hin.
    exists locs. split; [done|]. split; [done|]. apply report_group_marks.
Qed.

(** X27: When the occurrences of a duplicated code stand in the index in the
    order of (file path, line number), the report and the fix agree: the
    occurrences the report marks as to be modified are those the fix makes
    change records for, in the same order. *)
Theorem report_agrees_with_fix_when_sorted
    (now : nat -> text) (code_locations duplicates : dict ErrorCodeLocation)
    (existing_codes : gset text) (changes : list change) (all_codes : gset text)
    (k : nat) (code : text) (locations : list ErrorCodeLocation) :
  NoDup (dict_keys duplicates) ->
  plan_changes now duplicates existing_codes = Some (changes, all_codes, k) ->
  (code, locations) ∈ duplicates ->
  Sorted (fun a b => loc_leb a b = true) locations ->
  (code, length locations, report_group locations)
    ∈ snd (print_report code_locations duplicates) /\
  map change_location (filter (fun c => c_old c = code) changes)
  = marked_modify (report_group locations).
Proof.
  intros Hnd Hplan Hin Hs. split.
  - unfold print_report. cbn [snd]. apply list_elem_of_fmap.
    exists (code, locations). split; [done|].
    by rewrite (sorted_perm item_leb duplicates).
  - unfold plan_changes in Hplan.
    destruct (plan_groups_spec now duplicates [] existing_codes 0)
      as (groups & k' & E & HF & _).
    rewrite E in Hplan. injection Hplan as <- _ _. cbn [app].
    rewrite (group_changes code locations duplicates groups HF Hnd Hin).
    rewrite (sorted_id loc_leb locations Hs).
    symmetry. apply report_group_marks.
Qed.

Lemma report_agrees_with_fix_when_sorted_witness :
  let a := Location (str "/p/a/A.java") 3 (str "x") None false in
  let b := Location (str "/p/b/B.java") 1 (str "y") None false in
  let duplicates : dict ErrorCodeLocation := [(str "5", [a; b])] in
  let changes := [Change (str "/p/b/B.java") 1 (str "5") (str "202512180001")
                         None false (str "y")] in
  (str "5", 2, report_group [a; b]) ∈ snd (print_report duplicates duplicates) /\
  map change_location (filter (fun c => c_old c = str "5") changes)
  = marked_modify (report_group [a; b]).
Proof.
  intros a b duplicates changes.
  apply (report_agrees_with_fix_when_sorted (fun _ => str "20251218") duplicates
           duplicates {[ str "5" ]} changes
           ({[ str "5" ]} ∪ list_to_set [str "202512180001"]) 1 (str "5") [a; b]).
  - apply (bool_decide_unpack _). vm_compute. exact I.
  - vm_compute. reflexivity.
  - by left.
  - repeat constructor.
Defined.

End ReportFacts.
